(** * A verification development for the portfolio page script [js/main.js]

    The script drives three behaviours of a single static page: in-page
    navigation with active-link highlighting, a mobile menu toggle and the
    validation of the contact form.  This file embeds the script in Rocq
    (strings as sequences of UTF-16 code units, the document as a store of
    elements in document order, handlers as functions in a small
    state-and-exception monad) and proves its properties. *)

From Stdlib Require Import ZArith NArith Ascii String Sorted.
From stdpp Require Import gmap list.

Local Open Scope Z_scope.
#[local] Set Warnings "-clear-no-such-hyp".

(** ** JavaScript strings *)

(** A JavaScript string is a finite sequence of UTF-16 code units. *)
Abbreviation jsstring := (list N).

(** String literals of the script, written with Rocq's own literals. *)
Definition js (s : string) : jsstring :=
  map N_of_ascii (list_ascii_of_string s).
Arguments js : simpl never.

Module JsString.

(** ECMAScript [WhiteSpace] and [LineTerminator] code points.  Both
    [String.prototype.trim] and the regular-expression class [\s] use exactly
    this set, and every member lies in the basic multilingual plane. *)
Definition is_space (c : N) : bool :=
  ((9 <=? c) && (c <=? 13) ||
   (c =? 32) || (c =? 160) || (c =? 5760) ||
   ((8192 <=? c) && (c <=? 8202)) ||
   (c =? 8232) || (c =? 8233) || (c =? 8239) || (c =? 8287) ||
   (c =? 12288) || (c =? 65279))%N.

Fixpoint dropWhile (p : N -> bool) (s : jsstring) : jsstring :=
  match s with
  | [] => []
  | c :: s' => if p c then dropWhile p s' else s
  end.

Definition trimStart (s : jsstring) : jsstring := dropWhile is_space s.
Definition trimEnd (s : jsstring) : jsstring := rev (dropWhile is_space (rev s)).

(** [s.trim()] *)
Definition trim (s : jsstring) : jsstring := trimEnd (trimStart s).

(** [s.startsWith(p)] *)
Fixpoint startsWith (s p : jsstring) : bool :=
  match p, s with
  | [], _ => true
  | _ :: _, [] => false
  | a :: p', b :: s' => (a =? b)%N && startsWith s' p'
  end.

(** [s.substring(k)] for a non-negative in-range or out-of-range [k]. *)
Definition substring (k : nat) (s : jsstring) : jsstring := drop k s.

(** Strict equality [===] on strings. *)
Definition eqb (s t : jsstring) : bool := bool_decide (s = t).

End JsString.

(** ** Regular expressions

    The fragment of the ECMAScript pattern language the script uses, with a
    matcher by derivatives.  [test] is a whole-string match: the one pattern
    of the script is anchored with [^] and [$], carries no flag, and so is
    stateless and works on code units. *)
Module Regex.

Inductive regex : Type :=
| Void                         (* matches nothing *)
| Eps                          (* matches the empty string *)
| Class (p : N -> bool)        (* one code unit of a character class *)
| Cat (r1 r2 : regex)
| Alt (r1 r2 : regex)
| Star (r : regex).

(** [r+] *)
Definition Plus (r : regex) : regex := Cat r (Star r).

(** A literal character. *)
Definition Chr (c : N) : regex := Class (N.eqb c).

Fixpoint nullable (r : regex) : bool :=
  match r with
  | Void => false
  | Eps => true
  | Class _ => false
  | Cat r1 r2 => nullable r1 && nullable r2
  | Alt r1 r2 => nullable r1 || nullable r2
  | Star _ => true
  end.

Fixpoint deriv (c : N) (r : regex) : regex :=
  match r with
  | Void => Void
  | Eps => Void
  | Class p => if p c then Eps else Void
  | Cat r1 r2 =>
      if nullable r1
      then Alt (Cat (deriv c r1) r2) (deriv c r2)
      else Cat (deriv c r1) r2
  | Alt r1 r2 => Alt (deriv c r1) (deriv c r2)
  | Star r1 => Cat (deriv c r1) (Star r1)
  end.

(** [/^r$/.test(s)] *)
Fixpoint test (r : regex) (s : jsstring) : bool :=
  match s with
  | [] => nullable r
  | c :: s' => test (deriv c r) s'
  end.

(** The language of a pattern. *)
Inductive Matches : regex -> jsstring -> Prop :=
| MEps : Matches Eps []
| MClass p c : p c = true -> Matches (Class p) [c]
| MCat r1 r2 s1 s2 : Matches r1 s1 -> Matches r2 s2 -> Matches (Cat r1 r2) (s1 ++ s2)
| MAltL r1 r2 s : Matches r1 s -> Matches (Alt r1 r2) s
| MAltR r1 r2 s : Matches r2 s -> Matches (Alt r1 r2) s
| MStarNil r : Matches (Star r) []
| MStarCons r s1 s2 : Matches r s1 -> Matches (Star r) s2 -> Matches (Star r) (s1 ++ s2).

End Regex.

(** ** The document

    Elements are kept in document (tree pre-) order and a node reference is
    an index into that list; [parent] gives the tree.  An element record
    carries the slots the script reads or writes. *)

Abbreviation node := nat.

Record element := Element {
  parent : option node;          (* parentNode, [None] at the root *)
  localName : jsstring;          (* tag name, lower case *)
  idAttr : option jsstring;      (* the [id] attribute *)
  classList : gset jsstring;     (* the class token set *)
  href : option jsstring;        (* [getAttribute('href')], [None] is null *)
  textContent : jsstring;
  name : jsstring;               (* [field.name] of a form control *)
  value : option jsstring;       (* [field.value]; [None]: not a form control *)
  defaultValue : jsstring;       (* what [form.reset()] restores *)
  form : option node;            (* the form owner of a control *)
  offsetTop : Z;
  offsetHeight : Z;
  rectTop : Z                    (* [getBoundingClientRect().top] *)
}.

Definition with_classList (c : gset jsstring) (e : element) : element :=
  {| parent := parent e; localName := localName e; idAttr := idAttr e;
     classList := c; href := href e; textContent := textContent e;
     name := name e; value := value e; defaultValue := defaultValue e;
     form := form e; offsetTop := offsetTop e; offsetHeight := offsetHeight e;
     rectTop := rectTop e |}.

Definition with_textContent (t : jsstring) (e : element) : element :=
  {| parent := parent e; localName := localName e; idAttr := idAttr e;
     classList := classList e; href := href e; textContent := t;
     name := name e; value := value e; defaultValue := defaultValue e;
     form := form e; offsetTop := offsetTop e; offsetHeight := offsetHeight e;
     rectTop := rectTop e |}.

Definition with_value (v : option jsstring) (e : element) : element :=
  {| parent := parent e; localName := localName e; idAttr := idAttr e;
     classList := classList e; href := href e; textContent := textContent e;
     name := name e; value := v; defaultValue := defaultValue e;
     form := form e; offsetTop := offsetTop e; offsetHeight := offsetHeight e;
     rectTop := rectTop e |}.

(** [el.classList.contains(c)] *)
Definition hasClass (c : jsstring) (e : element) : bool :=
  bool_decide (c ∈ classList e).

(** The selectors the script uses: [.c] and [tag[id]]. *)
Inductive selector :=
| SelClass (c : jsstring)
| SelTagWithId (tag : jsstring).

Definition selects (s : selector) (e : element) : bool :=
  match s with
  | SelClass c => hasClass c e
  | SelTagWithId t => JsString.eqb (localName e) t && bool_decide (is_Some (idAttr e))
  end.

Fixpoint indicesFrom (p : element -> bool) (d : list element) (i : node) : list node :=
  match d with
  | [] => []
  | e :: d' => if p e then i :: indicesFrom p d' (S i) else indicesFrom p d' (S i)
  end.

(** All nodes satisfying [p], in document order. *)
Definition nodesWhere (p : element -> bool) (d : list element) : list node :=
  indicesFrom p d 0%nat.

(** The chain [n], parent of [n], ... up to the root. *)
Fixpoint chain (d : list element) (fuel : nat) (n : node) : list node :=
  match fuel with
  | O => []
  | S k =>
      n :: match d !! n ≫= parent with
           | Some p => chain d k p
           | None => []
           end
  end.

(** Inclusive ancestors of [n], nearest first. *)
Definition ancestors (d : list element) (n : node) : list node :=
  chain d (length d) n.

(** [a.contains(t)]: [t] is [a] or a descendant of [a]. *)
Definition contains (d : list element) (a t : node) : bool :=
  bool_decide (a ∈ ancestors d t).

(** ** The page: document, window and event-loop state *)

Inductive exn := TypeError.

Inductive evtarget := OnNode (n : node) | OnDocument | OnWindow.

Inductive evtype := DOMContentLoaded | Click | Scroll | Submit | Blur.

#[global] Instance evtarget_eq_dec : EqDecision evtarget.
Proof. solve_decision. Defined.

#[global] Instance evtype_eq_dec : EqDecision evtype.
Proof. solve_decision. Defined.

(** The function values the script passes to [addEventListener], one
    constructor per function expression, with the variables it closes over. *)
Inductive handler :=
| OnLoadNavigation                         (* lines 6-10 *)
| OnLoadMobileMenu                         (* lines 131-133 *)
| OnLoadFormValidation                     (* lines 289-291 *)
| NavLinkClick                             (* lines 27-49 *)
| UpdateActiveMenuItem                     (* line 53 *)
| ToggleClick (navToggle navMenu : node)   (* lines 114-117 *)
| OutsideClick (navToggle navMenu : node)  (* lines 120-127 *)
| HandleFormSubmit                         (* line 148 *)
| BlurValidate.                            (* lines 153-155 *)

(** The arrow function handed to [setTimeout] in [showSuccessMessage]. *)
Inductive callback := HideSuccess (successElement : node).

#[global] Instance callback_eq_dec : EqDecision callback.
Proof. solve_decision. Defined.

Inductive consoleEntry := Log (s : jsstring) | Uncaught (e : exn).

Record world := World {
  document : list element;
  pageYOffset : Z;
  scrollRequest : option Z;               (* [top] of the last [window.scrollTo] *)
  now : Z;                                (* milliseconds *)
  timers : list (Z * callback);           (* pending timeouts: due time, callback *)
  listeners : list (evtarget * evtype * handler);
  defaultPrevented : bool;                (* of the event being dispatched *)
  console : list consoleEntry
}.

Definition with_document (d : list element) (w : world) : world :=
  {| document := d; pageYOffset := pageYOffset w; scrollRequest := scrollRequest w;
     now := now w; timers := timers w; listeners := listeners w;
     defaultPrevented := defaultPrevented w; console := console w |}.

Definition with_pageYOffset (y : Z) (w : world) : world :=
  {| document := document w; pageYOffset := y; scrollRequest := scrollRequest w;
     now := now w; timers := timers w; listeners := listeners w;
     defaultPrevented := defaultPrevented w; console := console w |}.

Definition with_scrollRequest (r : option Z) (w : world) : world :=
  {| document := document w; pageYOffset := pageYOffset w; scrollRequest := r;
     now := now w; timers := timers w; listeners := listeners w;
     defaultPrevented := defaultPrevented w; console := console w |}.

Definition with_now (t : Z) (w : world) : world :=
  {| document := document w; pageYOffset := pageYOffset w; scrollRequest := scrollRequest w;
     now := t; timers := timers w; listeners := listeners w;
     defaultPrevented := defaultPrevented w; console := console w |}.

Definition with_timers (ts : list (Z * callback)) (w : world) : world :=
  {| document := document w; pageYOffset := pageYOffset w; scrollRequest := scrollRequest w;
     now := now w; timers := ts; listeners := listeners w;
     defaultPrevented := defaultPrevented w; console := console w |}.

Definition with_listeners (ls : list (evtarget * evtype * handler)) (w : world) : world :=
  {| document := document w; pageYOffset := pageYOffset w; scrollRequest := scrollRequest w;
     now := now w; timers := timers w; listeners := ls;
     defaultPrevented := defaultPrevented w; console := console w |}.

Definition with_defaultPrevented (b : bool) (w : world) : world :=
  {| document := document w; pageYOffset := pageYOffset w; scrollRequest := scrollRequest w;
     now := now w; timers := timers w; listeners := listeners w;
     defaultPrevented := b; console := console w |}.

Definition with_console (c : list consoleEntry) (w : world) : world :=
  {| document := document w; pageYOffset := pageYOffset w; scrollRequest := scrollRequest w;
     now := now w; timers := timers w; listeners := listeners w;
     defaultPrevented := defaultPrevented w; console := c |}.

(** ** The monad of script code: state and exceptions

    A thrown exception keeps the state reached so far: JavaScript does not
    roll back. *)

Inductive outcome (A : Type) :=
| Ret (a : A) (w : world)
| Throw (e : exn) (w : world).
Arguments Ret {A} a w.
Arguments Throw {A} e w.

Definition M (A : Type) : Type := world -> outcome A.

Definition ret {A} (a : A) : M A := fun w => Ret a w.
Definition throw {A} (e : exn) : M A := fun w => Throw e w.
Definition bind {A B} (m : M A) (k : A -> M B) : M B :=
  fun w => match m w with
           | Ret a w' => k a w'
           | Throw e w' => Throw e w'
           end.

#[global] Instance M_ret : MRet M := @ret.
#[global] Instance M_bind : MBind M := fun A B k m => bind m k.

(** The state an outcome ends in. *)
Definition final {A} (o : outcome A) : world :=
  match o with Ret _ w => w | Throw _ w => w end.

Definition getWorld : M world := fun w => Ret w w.
Definition getDocument : M (list element) := fun w => Ret (document w) w.

(** Reading a property of an element; a reference to nothing throws, as a
    property access on [null] does. *)
Definition getElement (n : node) : M element :=
  fun w => match document w !! n with
           | Some e => Ret e w
           | None => Throw TypeError w
           end.

(** Dereferencing a possibly-null reference. *)
Definition deref (r : option node) : M node :=
  match r with
  | Some n => ret n
  | None => throw TypeError
  end.

Definition updateElement (n : node) (f : element -> element) : M unit :=
  fun w => Ret () (with_document (alter f n (document w)) w).

Definition classList_add (n : node) (c : jsstring) : M unit :=
  updateElement n (fun e => with_classList (classList e ∪ {[c]}) e).

Definition classList_remove (n : node) (c : jsstring) : M unit :=
  updateElement n (fun e => with_classList (classList e ∖ {[c]}) e).

Definition classList_toggle (n : node) (c : jsstring) : M unit :=
  updateElement n (fun e =>
    if hasClass c e
    then with_classList (classList e ∖ {[c]}) e
    else with_classList (classList e ∪ {[c]}) e).

Definition classList_contains (n : node) (c : jsstring) : M bool :=
  e ← getElement n; ret (hasClass c e).

(** [el.textContent = t] replaces what the element holds by the text [t].
    The document keeps no text nodes: the text of an element is the
    [textContent] slot of its record, so on an element that holds text only
    the assignment is a write to this slot.  Element children, which the
    assignment removes from the document, stay in the list here; the
    properties that speak of the elements around a written one are stated for
    pages on which the written elements hold text only ([holdsTextOnly] and
    [textOnly] below). *)
Definition set_textContent (n : node) (t : jsstring) : M unit :=
  updateElement n (with_textContent t).

(** [document.querySelectorAll(sel)] *)
Definition querySelectorAll (s : selector) : M (list node) :=
  d ← getDocument; ret (nodesWhere (selects s) d).

(** [document.querySelector(sel)] *)
Definition querySelector (s : selector) : M (option node) :=
  d ← getDocument; ret (head (nodesWhere (selects s) d)).

(** [root.querySelectorAll(sel)]: the matching proper descendants of [root]. *)
Definition querySelectorAllIn (root : node) (s : selector) : M (list node) :=
  d ← getDocument;
  ret (filter (fun n => n ≠ root ∧ contains d root n = true) (nodesWhere (selects s) d)).

(** [document.getElementById(i)]: the first element in document order whose
    id is [i]; an empty id names no element. *)
Definition elementById (i : jsstring) (d : list element) : option node :=
  match i with
  | [] => None
  | _ => head (nodesWhere (fun e => bool_decide (idAttr e = Some i)) d)
  end.

Definition getElementById (i : jsstring) : M (option node) :=
  d ← getDocument; ret (elementById i d).

(** [list.forEach(f)] *)
Fixpoint forEach (l : list node) (f : node -> M unit) : M unit :=
  match l with
  | [] => ret ()
  | n :: l' => f n ;; forEach l' f
  end.

Definition addEventListener (t : evtarget) (ty : evtype) (h : handler) : M unit :=
  fun w => Ret () (with_listeners (listeners w ++ [(t, ty, h)]) w).

Definition preventDefault : M unit :=
  fun w => Ret () (with_defaultPrevented true w).

Definition console_log (s : jsstring) : M unit :=
  fun w => Ret () (with_console (console w ++ [Log s]) w).

(** [window.scrollTo({top, behavior: 'smooth'})] starts an animation towards
    [top]; the page records the request. *)
Definition scrollTo (top : Z) : M unit :=
  fun w => Ret () (with_scrollRequest (Some top) w).

(** [setTimeout(cb, delay)]: the returned handle is dropped by the script. *)
Definition setTimeout (cb : callback) (delay : Z) : M unit :=
  fun w => Ret () (with_timers (timers w ++ [(now w + delay, cb)]) w).

(** ** The script [js/main.js] *)

(** The result of a property read that may reach the prototype chain: a
    string, or a member inherited from [Object.prototype] together with the
    text it converts to. *)
Inductive jsvalue :=
| JString (s : jsstring)
| JInherited (text : jsstring).

(** [v || alt] tests truthiness: a string is falsy when empty, an object or
    function never is. *)
Definition truthy (v : jsvalue) : bool :=
  match v with
  | JString [] => false
  | JString (_ :: _) => true
  | JInherited _ => true
  end.

(** String conversion inside a template literal. *)
Definition toText (v : jsvalue) : jsstring :=
  match v with
  | JString s => s
  | JInherited t => t
  end.

(** A possibly-null string inside a template literal. *)
Definition nullableText (v : option jsstring) : jsstring :=
  match v with
  | Some s => s
  | None => js "null"
  end.

(** [/^[^\s@]+@[^\s@]+\.[^\s@]+$/] *)
Definition notSpaceNorAt (c : N) : bool :=
  negb (JsString.is_space c || (c =? 64)%N).

Definition emailRegex : Regex.regex :=
  Regex.Cat (Regex.Plus (Regex.Class notSpaceNorAt))
    (Regex.Cat (Regex.Chr 64)
      (Regex.Cat (Regex.Plus (Regex.Class notSpaceNorAt))
        (Regex.Cat (Regex.Chr 46)
          (Regex.Plus (Regex.Class notSpaceNorAt))))).

(** The object literal [labels] of [getFieldLabel]: its own properties. *)
Definition labels : gmap jsstring jsstring :=
  {[ js "name" := js "Nama"; js "email" := js "Email"; js "message" := js "Pesan" ]}.

Section Script.

(** The host's [Object.prototype]: for a property key, the text of the
    member an object literal inherits under that key, if there is one
    ([toString], [constructor], ...).  The text is implementation-defined. *)
Variable Object_prototype : jsstring -> option jsstring.

(** [obj[key]] on an object literal with the given own properties. *)
Definition propertyRead (own : gmap jsstring jsstring) (key : jsstring) : option jsvalue :=
  match own !! key with
  | Some s => Some (JString s)
  | None => JInherited <$> Object_prototype key
  end.

(** Lines 279-286. *)
Definition getFieldLabel (fieldName : jsstring) : jsvalue :=
  match propertyRead labels fieldName with
  | Some v => if truthy v then v else JString fieldName
  | None => JString fieldName
  end.

(** Lines 60-69. *)
Definition smoothScrollTo (target : node) : M unit :=
  let headerOffset := 80 in
  t ← getElement target;
  let elementPosition := rectTop t in
  w ← getWorld;
  let offsetPosition := elementPosition + pageYOffset w - headerOffset in
  scrollTo offsetPosition.

(** Lines 27-49, the click listener of a navigation link; [this] is the
    link the listener is registered on. *)
Definition navLinkClick (this : node) : M unit :=
  link ← getElement this;
  match href link with
  | None => throw TypeError                       (* [null.startsWith] *)
  | Some href =>
      if JsString.startsWith href (js "#") then
        preventDefault;;
        let targetId := JsString.substring 1 href in
        targetSection ← getElementById targetId;
        match targetSection with
        | Some targetSection =>
            smoothScrollTo targetSection;;
            navMenu ← querySelector (SelClass (js "nav-menu"));
            navToggle ← querySelector (SelClass (js "nav-toggle"));
            m ← deref navMenu;
            isActive ← classList_contains m (js "active");
            if isActive : bool then
              classList_remove m (js "active");;
              t ← deref navToggle;
              classList_remove t (js "active")
            else ret ()
        | None => ret ()
        end
      else ret ()
  end.

(** The body of the [sections.forEach] loop of lines 81-88, threading the
    local [currentSection]. *)
Definition pickSection (d : list element) (scrollPosition : Z)
    (currentSection : option jsstring) (section : node) : option (option jsstring) :=
  s ← d !! section;
  let sectionTop := offsetTop s in
  let sectionHeight := offsetHeight s in
  if bool_decide (scrollPosition >= sectionTop) &&
     bool_decide (scrollPosition < sectionTop + sectionHeight)
  then Some (idAttr s)
  else Some currentSection.

Fixpoint pickSections (d : list element) (scrollPosition : Z)
    (currentSection : option jsstring) (sections : list node) : option (option jsstring) :=
  match sections with
  | [] => Some currentSection
  | s :: rest =>
      cur ← pickSection d scrollPosition currentSection s;
      pickSections d scrollPosition cur rest
  end.

(** Lines 74-97. *)
Definition updateActiveMenuItem : M unit :=
  sections ← querySelectorAll (SelTagWithId (js "section"));
  navLinks ← querySelectorAll (SelClass (js "nav-link"));
  w ← getWorld;
  let scrollPosition := pageYOffset w + 100 in
  match pickSections (document w) scrollPosition (Some []) sections with
  | None => throw TypeError
  | Some currentSection =>
      forEach navLinks (fun link =>
        classList_remove link (js "active");;
        l ← getElement link;
        if bool_decide (href l = Some (js "#" ++ nullableText currentSection))
        then classList_add link (js "active")
        else ret ())
  end.

(** Lines 21-54. *)
Definition initNavigation : M unit :=
  navLinks ← querySelectorAll (SelClass (js "nav-link"));
  sections ← querySelectorAll (SelTagWithId (js "section"));
  forEach navLinks (fun link => addEventListener (OnNode link) Click NavLinkClick);;
  addEventListener OnWindow Scroll UpdateActiveMenuItem.

(** Lines 114-117. *)
Definition toggleClick (navToggle navMenu : node) : M unit :=
  classList_toggle navMenu (js "active");;
  classList_toggle navToggle (js "active").

(** Lines 120-127; [target] is [e.target]. *)
Definition outsideClick (navToggle navMenu : node) (target : node) : M unit :=
  d ← getDocument;
  let isClickInsideNav := contains d navMenu target || contains d navToggle target in
  if negb isClickInsideNav then
    isActive ← classList_contains navMenu (js "active");
    if isActive : bool then
      classList_remove navMenu (js "active");;
      classList_remove navToggle (js "active")
    else ret ()
  else ret ().

(** Lines 107-128. *)
Definition initMobileMenu : M unit :=
  navToggle ← querySelector (SelClass (js "nav-toggle"));
  navMenu ← querySelector (SelClass (js "nav-menu"));
  match navToggle, navMenu with
  | Some navToggle, Some navMenu =>
      addEventListener (OnNode navToggle) Click (ToggleClick navToggle navMenu);;
      addEventListener OnDocument Click (OutsideClick navToggle navMenu)
  | _, _ => ret ()
  end.

(** Lines 236-241. *)
Definition showError (field : node) (errorElement : option node) (message : jsstring) : M unit :=
  classList_add field (js "error");;
  match errorElement with
  | Some errorElement => set_textContent errorElement message
  | None => ret ()
  end.

(** Lines 201-228.  The argument is a reference to an element; the call
    sites pass what [getElementById] returned after dereferencing it, which
    throws where [field.value] would. *)
Definition validateField (field : node) : M bool :=
  f ← getElement field;
  match value f with
  | None => throw TypeError                       (* [undefined.trim] *)
  | Some v =>
      let value := JsString.trim v in
      let fieldName := name f in
      errorElement ← getElementById (fieldName ++ js "Error");
      classList_remove field (js "error");;
      match errorElement with
      | Some errorElement => set_textContent errorElement []
      | None => ret ()
      end;;
      if JsString.eqb value [] then
        showError field errorElement (toText (getFieldLabel fieldName) ++ js " harus diisi");;
        ret false
      else if JsString.eqb fieldName (js "email") then
        if negb (Regex.test emailRegex value) then
          showError field errorElement (js "Format email tidak valid");;
          ret false
        else ret true
      else ret true
  end.

(** Lines 246-256. *)
Definition clearErrors : M unit :=
  errorElements ← querySelectorAll (SelClass (js "form-error"));
  forEach errorElements (fun el => set_textContent el []);;
  inputs ← querySelectorAll (SelClass (js "form-input"));
  forEach inputs (fun input => classList_remove input (js "error")).

(** Lines 261-272. *)
Definition showSuccessMessage : M unit :=
  successElement ← getElementById (js "formSuccess");
  match successElement with
  | Some successElement =>
      set_textContent successElement (js "Pesan berhasil dikirim! Terima kasih.");;
      classList_add successElement (js "show");;
      setTimeout (HideSuccess successElement) 5000
  | None => ret ()
  end.

(** What [form.reset()] makes of an element: a control owned by the form
    gets its default value back. *)
Definition resetControl (form_ : node) (e : element) : element :=
  match value e with
  | Some _ => if bool_decide (form e = Some form_) then with_value (Some (defaultValue e)) e else e
  | None => e
  end.

(** The property read [form.reset] finds the method only on a form element,
    where it is inherited, and only when no control of the form hides it: a
    form exposes the controls it owns as properties under their names and
    ids, and these come before the inherited members. *)
Definition namedReset (form_ : node) (e : element) : bool :=
  bool_decide (form e = Some form_) &&
  (JsString.eqb (name e) (js "reset") || bool_decide (idAttr e = Some (js "reset"))).

Definition hasResetMethod (d : list element) (n : node) : bool :=
  match d !! n with
  | Some f => JsString.eqb (localName f) (js "form") && negb (existsb (namedReset n) d)
  | None => false
  end.

(** [form.reset()], line 192: a [TypeError] when [form.reset] is not the
    method ([undefined] on another element, an element under a form that has
    a control of that name); otherwise the controls of the form are reset. *)
Definition form_reset (form_ : node) : M unit :=
  d ← getDocument;
  if hasResetMethod d form_
  then ((fun w => Ret () (with_document (resetControl form_ <$> d) w)) : M unit)
  else throw TypeError.

(** Lines 163-194; [target] is [e.target], the form being submitted. *)
Definition handleFormSubmit (target : node) : M unit :=
  preventDefault;;
  let form_ := target in
  nameInput ← getElementById (js "name");
  emailInput ← getElementById (js "email");
  messageInput ← getElementById (js "message");
  clearErrors;;
  let isValid := true in
  nameOk ← (deref nameInput ≫= validateField);
  let isValid := if negb nameOk then false else isValid in
  emailOk ← (deref emailInput ≫= validateField);
  let isValid := if negb emailOk then false else isValid in
  messageOk ← (deref messageInput ≫= validateField);
  let isValid := if negb messageOk then false else isValid in
  if isValid then
    showSuccessMessage;;
    form_reset form_
  else ret ().

(** Lines 143-157. *)
Definition initFormValidation : M unit :=
  form_ ← getElementById (js "contactForm");
  match form_ with
  | None => ret ()
  | Some form_ =>
      addEventListener (OnNode form_) Submit HandleFormSubmit;;
      inputs ← querySelectorAllIn form_ (SelClass (js "form-input"));
      forEach inputs (fun input => addEventListener (OnNode input) Blur BlurValidate)
  end.

(** The top level of the script: three [DOMContentLoaded] listeners, in the
    order of lines 6, 131 and 289. *)
Definition main : M unit :=
  addEventListener OnDocument DOMContentLoaded OnLoadNavigation;;
  addEventListener OnDocument DOMContentLoaded OnLoadMobileMenu;;
  addEventListener OnDocument DOMContentLoaded OnLoadFormValidation.

(** ** The event loop *)

(** Calling a listener with [this] (the element it is registered on, when it
    is one) and [e.target]. *)
Definition call (h : handler) (this : evtarget) (target : evtarget) : M unit :=
  match h with
  | OnLoadNavigation => console_log (js "Website loaded successfully!");; initNavigation
  | OnLoadMobileMenu => initMobileMenu
  | OnLoadFormValidation => initFormValidation
  | NavLinkClick =>
      match this with OnNode n => navLinkClick n | _ => throw TypeError end
  | UpdateActiveMenuItem => updateActiveMenuItem
  | ToggleClick navToggle navMenu => toggleClick navToggle navMenu
  | OutsideClick navToggle navMenu =>
      match target with OnNode t => outsideClick navToggle navMenu t | _ => throw TypeError end
  | HandleFormSubmit =>
      match target with OnNode t => handleFormSubmit t | _ => throw TypeError end
  | BlurValidate =>
      match this with OnNode n => validateField n;; ret () | _ => throw TypeError end
  end.

(** One listener runs to completion; an exception it lets escape is reported
    on the console and does not stop the dispatch. *)
Definition runListener (h : handler) (this target : evtarget) (w : world) : world :=
  match call h this target w with
  | Ret _ w' => w'
  | Throw e w' => with_console (console w' ++ [Uncaught e]) w'
  end.

(** The listeners of type [ty] registered on [current] when the dispatch
    reaches it, in registration order. *)
Definition listenersFor (current : evtarget) (ty : evtype) (w : world) : list handler :=
  omap (fun '(t, ty', h) =>
          if bool_decide (t = current ∧ ty' = ty) then Some h else None)
       (listeners w).

Definition runListenersAt (ty : evtype) (target : evtarget) (w : world) (current : evtarget) : world :=
  foldl (fun w h => runListener h current target w) w (listenersFor current ty w).

(** The propagation path of an event, target first (bubbling phase; the
    script registers no capturing listener and never stops propagation).
    [blur] does not bubble. *)
Definition propagationPath (d : list element) (ty : evtype) (target : evtarget) : list evtarget :=
  match target with
  | OnNode n =>
      match ty with
      | Blur => [OnNode n]
      | _ => (OnNode <$> ancestors d n) ++ [OnDocument; OnWindow]
      end
  | OnDocument => [OnDocument; OnWindow]
  | OnWindow => [OnWindow]
  end.

Definition dispatch (ty : evtype) (target : evtarget) (w : world) : world :=
  foldl (runListenersAt ty target) (with_defaultPrevented false w)
        (propagationPath (document w) ty target).

(** Running a timer callback: line 269. *)
Definition runCallback (cb : callback) : M unit :=
  match cb with
  | HideSuccess successElement => classList_remove successElement (js "show")
  end.

(** Time passes to [t]: the timeouts that are due by then fire, in queue
    order (all delays of the script are equal, so this is the order of their
    due times), and leave the queue. *)
Definition advanceTo (t : Z) (w : world) : world :=
  let due := filter (fun '(at_, _) => at_ <= t) (timers w) in
  let pending := filter (fun '(at_, _) => ¬ at_ <= t) (timers w) in
  let fired :=
    foldl (fun w '(at_, cb) => final (runCallback cb (with_now at_ w)))
          (with_timers pending w) due in
  with_now (Z.max t (now w)) fired.

(** What can happen to the page. *)
Inductive input :=
| UserClicks (target : node)
| UserScrolls (y : Z)
| UserSubmits (form_ : node)
| UserLeaves (field : node)
| UserTypes (field : node) (text : jsstring)
| TimePasses (ms : Z).

Definition step (w : world) (i : input) : world :=
  match i with
  | UserClicks t => dispatch Click (OnNode t) w
  | UserScrolls y => dispatch Scroll OnDocument (with_pageYOffset y w)
  | UserSubmits f => dispatch Submit (OnNode f) w
  | UserLeaves f => dispatch Blur (OnNode f) w
  | UserTypes f text =>
      with_document (alter (fun e => match value e with
                                     | Some _ => with_value (Some text) e
                                     | None => e
                                     end) f (document w)) w
  | TimePasses ms => if bool_decide (0 <= ms) then advanceTo (now w + ms) w else w
  end.

Definition run (w : world) (inputs : list input) : world := foldl step w inputs.

(** The page right after its markup [d] was parsed and the script ran. *)
Definition opened (d : list element) : world :=
  final (main {| document := d; pageYOffset := 0; scrollRequest := None; now := 0;
                 timers := []; listeners := []; defaultPrevented := false;
                 console := [] |}).

(** The page once [DOMContentLoaded] has fired, which it does once. *)
Definition loaded (d : list element) : world :=
  dispatch DOMContentLoaded OnDocument (opened d).

End Script.

(** ** Vocabulary of the properties *)

(** The shape the validation rule asks of an email address, in the words of
    the specification: non-whitespace/non-"@" characters, "@",
    non-whitespace/non-"@" characters, ".", non-whitespace/non-"@"
    characters. *)
Definition plainChars (s : jsstring) : Prop :=
  s ≠ [] ∧ ∀ c, c ∈ s → JsString.is_space c = false ∧ c ≠ 64%N.

Definition emailShaped (s : jsstring) : Prop :=
  ∃ a b c, s = a ++ js "@" ++ b ++ js "." ++ c ∧
           plainChars a ∧ plainChars b ∧ plainChars c.


(** What no statement of the script writes: everything but the class
    tokens, the text and the current value of a control. *)
Definition skeleton (e : element) :=
  (parent e, localName e, idAttr e, href e, name e, defaultValue e, form e,
   offsetTop e, offsetHeight e, rectTop e, bool_decide (is_Some (value e))).

(** [e'] is [e] up to its text, its value and the class tokens in [T]. *)
Definition editedWithin (T : gset jsstring) (e e' : element) : Prop :=
  skeleton e = skeleton e' ∧ ∀ c, c ∉ T → (c ∈ classList e ↔ c ∈ classList e').

(** [e'] is [e] up to its text and the class tokens in [T]: the value is
    kept as well. *)
Definition annotatedWithin (T : gset jsstring) (e e' : element) : Prop :=
  editedWithin T e e' ∧ value e = value e'.

(** A relation between the worlds before and after a piece of script code
    holds of the code when it holds for every start state, however the code
    ends. *)
Definition stable (R : world → world → Prop) {A} (m : M A) : Prop :=
  ∀ w, R w (final (m w)).

(** Document-wise relations. *)
Definition docRel (r : element → element → Prop) (w w' : world) : Prop :=
  Forall2 r (document w) (document w').

(** The message [validateField] shows for a control named [fieldName] whose
    value is [v], if it shows one: the empty-field rule first, then the
    email rule. *)
Definition fieldError (proto : jsstring → option jsstring)
    (fieldName v : jsstring) : option jsstring :=
  if decide (JsString.trim v = []) then
    Some (toText (getFieldLabel proto fieldName) ++ js " harus diisi")
  else if decide (fieldName = js "email" ∧
                  Regex.test emailRegex (JsString.trim v) = false) then
    Some (js "Format email tidak valid")
  else None.

(** The document after a field was annotated with the outcome [msg] of its
    validation: the field carries the [error] token exactly when there is a
    message, and its error element, when it has one, shows the message. *)
Definition annotateElement (field : node) (err : option node) (msg : option jsstring)
    (n : node) (e : element) : element :=
  let e' :=
    if decide (n = field) then
      with_classList (match msg with
                      | Some _ => classList e ∖ {[js "error"]} ∪ {[js "error"]}
                      | None => classList e ∖ {[js "error"]}
                      end) e
    else e in
  if decide (err = Some n) then with_textContent (default [] msg) e' else e'.

Definition annotated (field : node) (err : option node) (msg : option jsstring)
    (d : list element) : list element :=
  imap (annotateElement field err msg) d.

(** Observations of a document and of a page. *)
Definition classAt (c : jsstring) (d : list element) (n : node) : bool :=
  match d !! n with
  | Some e => hasClass c e
  | None => false
  end.

Definition hasClassAt (c : jsstring) (w : world) (n : node) : bool :=
  match document w !! n with
  | Some e => hasClass c e
  | None => false
  end.

Definition textAt (w : world) (n : node) : option jsstring :=
  textContent <$> document w !! n.

Definition valueAt (w : world) (n : node) : option jsstring :=
  document w !! n ≫= value.

(** The error-text element of a field: the element whose id is the field's
    name followed by [Error]. *)
Definition errorElementOf (w : world) (field : node) : option node :=
  f ← document w !! field; elementById (name f ++ js "Error") (document w).

(** The sections and navigation links of a document, in document order. *)
Definition sectionsOf (d : list element) : list node :=
  nodesWhere (selects (SelTagWithId (js "section"))) d.

Definition navLinksOf (d : list element) : list node :=
  nodesWhere (selects (SelClass (js "nav-link"))) d.

(** The vertical extent [top, top + height) of node [s] contains [y]. *)
Definition containsPoint (d : list element) (y : Z) (s : node) : Prop :=
  ∃ e, d !! s = Some e ∧ offsetTop e ≤ y < offsetTop e + offsetHeight e.

#[global] Instance containsPoint_dec d y s : Decision (containsPoint d y s).
Proof.
  unfold containsPoint. destruct (d !! s) as [e|].
  - destruct (decide (offsetTop e ≤ y < offsetTop e + offsetHeight e)).
    + left. by exists e.
    + right. intros (e' & [= <-] & ?). done.
  - right. by intros (e' & [=] & _).
Defined.

(** The current section at scroll offset [y]: the last section, in document
    order, whose extent contains the point [y + 100]. *)
Definition currentSection (d : list element) (y : Z) : option node :=
  last (filter (containsPoint d (y + 100)) (sectionsOf d)).

(** The fragment the scroll handler compares link targets with: [#] and the
    id of the current section, or the bare [#] when there is none. *)
Definition currentFragment (d : list element) (y : Z) : jsstring :=
  js "#" ++ match currentSection d y with
            | Some s => nullableText (d !! s ≫= idAttr)
            | None => []
            end.

(** What the scroll handler makes of an element: a navigation link carries
    [active] exactly when its [href] is the fragment [frag]. *)
Definition highlight (frag : jsstring) (e : element) : element :=
  if hasClass (js "nav-link") e then
    if bool_decide (href e = Some frag)
    then with_classList (classList e ∖ {[js "active"]} ∪ {[js "active"]}) e
    else with_classList (classList e ∖ {[js "active"]}) e
  else e.

(** The navigation links that carry [active]. *)
Definition activeLinks (w : world) : list node :=
  filter (fun l => hasClassAt (js "active") w l = true) (navLinksOf (document w)).

(** The targets of the navigation links, link by link. *)
Definition linkTargets (d : list element) : list (option jsstring) :=
  (fun l => d !! l ≫= href) <$> navLinksOf d.

(** What [clearErrors] makes of an element: an error text is emptied, an
    input loses the [error] token. *)
Definition clearElement (e : element) : element :=
  let e1 := if hasClass (js "form-error") e then with_textContent [] e else e in
  if hasClass (js "form-input") e1
  then with_classList (classList e1 ∖ {[js "error"]}) e1
  else e1.

(** The document after [validateField] ran on node [field]. *)
Definition validated (proto : jsstring → option jsstring) (field : node)
    (d : list element) : list element :=
  match d !! field with
  | Some f =>
      match value f with
      | Some v =>
          annotated field (elementById (name f ++ js "Error") d)
                    (fieldError proto (name f) v) d
      | None => d
      end
  | None => d
  end.

(** A field passes validation, in the words of the specification: its
    trimmed value is not empty and, for the email field, has the shape of an
    address. *)
Definition fieldValid (fieldName v : jsstring) : Prop :=
  JsString.trim v ≠ [] ∧
  (fieldName = js "email" → emailShaped (JsString.trim v)).

(** What the error text of a field named [fieldName] with value [v] reads
    after validation: the message, or nothing. *)
Definition shownError (proto : jsstring → option jsstring)
    (fieldName v : jsstring) : jsstring :=
  default [] (fieldError proto fieldName v).

(** Running a list of due timeouts one after the other. *)
Definition fire (due : list (Z * callback)) (w : world) : world :=
  foldl (fun w '(at_, cb) => final (runCallback cb (with_now at_ w))) w due.

(** The text of the success message. *)
Definition successText : jsstring := js "Pesan berhasil dikirim! Terima kasih.".

(** What [showSuccessMessage] makes of the success element. *)
Definition showSuccess (e : element) : element :=
  with_classList (classList e ∪ {[js "show"]}) (with_textContent successText e).

(** The tokens the script adds and removes. *)
Definition dynamicTokens : gset jsstring := {[js "active"; js "error"; js "show"]}.

(** Every parent precedes its children: the nodes are in tree order. *)
Definition parentsBefore (d : list element) : bool :=
  forallb (fun '(n, e) => match parent e with
                          | Some p => (p <? n)%nat
                          | None => true
                          end) (imap pair d).

(** The open-state token on the menu panel [mn] and on the toggle button
    [tg]. *)
Definition menuOf (mn tg : node) (w : world) : bool * bool :=
  (hasClassAt (js "active") w mn, hasClassAt (js "active") w tg).

(** The menu is open: its panel carries the open-state token. *)
Definition isOpen (mn : node) (w : world) : bool := hasClassAt (js "active") w mn.

(** The page has its panel [mn] and its button [tg] where the queries of
    the script find them. *)
Definition menuFound (mn tg : node) (w : world) : Prop :=
  head (nodesWhere (selects (SelClass (js "nav-menu"))) (document w)) = Some mn ∧
  head (nodesWhere (selects (SelClass (js "nav-toggle"))) (document w)) = Some tg.

(** The listeners the three initialisers register on a page [d] whose
    panel and button are [mn] and [tg], in registration order. *)
Definition formListeners (d : list element) : list (evtarget * evtype * handler) :=
  match elementById (js "contactForm") d with
  | None => []
  | Some f =>
      (OnNode f, Submit, HandleFormSubmit) ::
      ((fun i => (OnNode i, Blur, BlurValidate)) <$>
         filter (fun n => n ≠ f ∧ contains d f n = true)
                (nodesWhere (selects (SelClass (js "form-input"))) d))
  end.

Definition registered (d : list element) (mn tg : node) : list (evtarget * evtype * handler) :=
  [(OnDocument, DOMContentLoaded, OnLoadNavigation);
   (OnDocument, DOMContentLoaded, OnLoadMobileMenu);
   (OnDocument, DOMContentLoaded, OnLoadFormValidation)] ++
  ((fun l => (OnNode l, Click, NavLinkClick)) <$> navLinksOf d) ++
  [(OnWindow, Scroll, UpdateActiveMenuItem);
   (OnNode tg, Click, ToggleClick tg mn);
   (OnDocument, Click, OutsideClick tg mn)] ++
  formListeners d.

(** The listeners of type [ty] among [ls] that sit on [current]. *)
Definition handlersFor (current : evtarget) (ty : evtype)
    (ls : list (evtarget * evtype * handler)) : list handler :=
  omap (fun '(t, ty', h) =>
          if bool_decide (t = current ∧ ty' = ty) then Some h else None) ls.

(** The listeners that run after the page has loaded. *)
Inductive userHandler (mn tg : node) : handler → Prop :=
| UserNavLinkClick : userHandler mn tg NavLinkClick
| UserScroll : userHandler mn tg UpdateActiveMenuItem
| UserToggleClick : userHandler mn tg (ToggleClick tg mn)
| UserOutsideClick : userHandler mn tg (OutsideClick tg mn)
| UserSubmit : userHandler mn tg HandleFormSubmit
| UserBlur : userHandler mn tg BlurValidate.

(** The invariant of the menu on the pages reachable from the markup [d0]:
    the listeners are those registered at load time, the document is [d0]
    up to the tokens, texts and values the script edits, and the panel and
    the button agree on the open-state token. *)
Definition menuInv (d0 : list element) (mn tg : node) (w : world) : Prop :=
  listeners w = registered d0 mn tg ∧
  Forall2 (editedWithin dynamicTokens) d0 (document w) ∧
  hasClassAt (js "active") w mn = hasClassAt (js "active") w tg.

(** Agreement of two worlds on one component. *)
Definition sameOn {X} (proj : world → X) (w w' : world) : Prop := proj w = proj w'.

(** Everything of a world but its document. *)
Definition surroundings (w : world) :=
  (pageYOffset w, scrollRequest w, now w, timers w, listeners w,
   defaultPrevented w, console w).

(** Code that leaves the document alone. *)
Definition docKeep {A} (m : M A) : Prop := ∀ w, document (final (m w)) = document w.


(** ** Vocabulary of the page as a whole *)

(** The two listeners [initMobileMenu] registers, when it finds both the
    button and the panel. *)
Definition menuListeners (d : list element) : list (evtarget * evtype * handler) :=
  match head (nodesWhere (selects (SelClass (js "nav-toggle"))) d),
        head (nodesWhere (selects (SelClass (js "nav-menu"))) d) with
  | Some tg, Some mn =>
      [(OnNode tg, Click, ToggleClick tg mn); (OnDocument, Click, OutsideClick tg mn)]
  | _, _ => []
  end.

(** The inputs of the contact form: the [.form-input] elements strictly
    inside [#contactForm]. *)
Definition formInputs (d : list element) : list node :=
  match elementById (js "contactForm") d with
  | None => []
  | Some f => filter (fun n => n ≠ f ∧ contains d f n = true)
                     (nodesWhere (selects (SelClass (js "form-input"))) d)
  end.

(** The listeners in place once a page with markup [d] has loaded, in
    registration order. *)
Definition registeredOn (d : list element) : list (evtarget * evtype * handler) :=
  [(OnDocument, DOMContentLoaded, OnLoadNavigation);
   (OnDocument, DOMContentLoaded, OnLoadMobileMenu);
   (OnDocument, DOMContentLoaded, OnLoadFormValidation)] ++
  ((fun l => (OnNode l, Click, NavLinkClick)) <$> navLinksOf d) ++
  [(OnWindow, Scroll, UpdateActiveMenuItem)] ++
  menuListeners d ++
  match elementById (js "contactForm") d with
  | None => []
  | Some f => (OnNode f, Submit, HandleFormSubmit) ::
              ((fun i => (OnNode i, Blur, BlurValidate)) <$> formInputs d)
  end.

(** What every state of a page with markup [d] satisfies after load: its
    listeners are those registered at load, and its document is the markup
    up to the tokens, texts and values the script edits. *)
Definition pageInv (d : list element) (w : world) : Prop :=
  listeners w = registeredOn d ∧ Forall2 (editedWithin dynamicTokens) d (document w).

(** The reference [n] is to a form control of [d]: to an element that has a
    value. *)
Definition isControl (d : list element) (n : option node) : bool :=
  match n with
  | Some n => bool_decide (is_Some (d !! n ≫= value))
  | None => false
  end.

(** The markup has what the listeners of the script take for granted: an
    [href] on every navigation link, the menu panel and the toggle button,
    and, when it has the contact form, the three fields as form controls and
    nothing but form controls among the inputs of the form. *)
Definition scriptReady (d : list element) : bool :=
  forallb (fun e => negb (hasClass (js "nav-link") e) || bool_decide (is_Some (href e))) d &&
  bool_decide (is_Some (head (nodesWhere (selects (SelClass (js "nav-menu"))) d))) &&
  bool_decide (is_Some (head (nodesWhere (selects (SelClass (js "nav-toggle"))) d))) &&
  match elementById (js "contactForm") d with
  | None => true
  | Some _ =>
      isControl d (elementById (js "name") d) &&
      isControl d (elementById (js "email") d) &&
      isControl d (elementById (js "message") d) &&
      forallb (fun n => isControl d (Some n)) (formInputs d)
  end.

(** The element [n] holds text only: it has no element children, and it is
    not a form control, whose value its text would be. *)
Definition holdsTextOnly (d : list element) (n : node) : bool :=
  forallb (fun e => negb (bool_decide (parent e = Some n))) d &&
  bool_decide (d !! n ≫= value = None).

(** The elements whose text the script assigns: the [.form-error] elements
    (line 249), the error element of a form control (lines 209 and 239) and
    [#formSuccess] (line 264). *)
Definition textTargets (d : list element) : list node :=
  nodesWhere (selects (SelClass (js "form-error"))) d ++
  omap (fun e => match value e with
                 | Some _ => elementById (name e ++ js "Error") d
                 | None => None
                 end) d ++
  option_list (elementById (js "formSuccess") d).

(** On such a page an assignment to [textContent] replaces text by text: no
    element leaves the document and no value follows the text. *)
Definition textOnly (d : list element) : bool :=
  forallb (holdsTextOnly d) (textTargets d).

(** An input as the browser produces it on page [d]: the target of a submit
    event is a form, and [reset] is still its method. *)
Definition submitsForm (d : list element) (i : input) : bool :=
  match i with
  | UserSubmits f => hasResetMethod d f
  | _ => true
  end.

(** A state of the page in which no listener has thrown so far. *)
Definition silentPage (d : list element) (w : world) : Prop :=
  pageInv d w ∧ console w = [Log (js "Website loaded successfully!")].

(** Two outcomes of a validation that leave the same annotations: the same
    boolean, the same [error] tokens and the same texts. *)
Definition sameAnnotations (o o' : outcome bool) : Prop :=
  match o, o' with
  | Ret b wa, Ret b' wb =>
      b = b' ∧ (∀ n, hasClassAt (js "error") wb n = hasClassAt (js "error") wa n) ∧
      (∀ n, textAt wb n = textAt wa n)
  | Throw _ _, Throw _ _ => True
  | _, _ => False
  end.

(** A state [x] in the middle of a submission that started in [w]: the
    default action is prevented, and only annotations were written. *)
Definition midSubmit (w x : world) : Prop :=
  Forall2 (annotatedWithin {[js "error"]}) (document w) (document x) ∧
  defaultPrevented x = true ∧ timers x = timers w ∧ listeners x = listeners w.

(** A submission that ended by throwing in such a state. *)
Definition blocked (w : world) (o : outcome unit) : Prop :=
  ∃ w', o = Throw TypeError w' ∧ midSubmit w w'.


(** ** Sample pages

    Small documents on which the statements below are exercised. *)
Module Sample.

(** A host without inherited members, and one whose [Object.prototype] has
    [toString]. *)
Definition bare : jsstring → option jsstring := fun _ => None.

Definition plainElement (tag : string) (classes : list string) : element :=
  {| parent := None; localName := js tag; idAttr := None;
     classList := list_to_set (js <$> classes); href := None; textContent := [];
     name := []; value := None; defaultValue := []; form := None;
     offsetTop := 0; offsetHeight := 0; rectTop := 0 |}.

(** [<a class="nav-link" href=h>] *)
Definition navLink (h : string) : element :=
  {| parent := None; localName := js "a"; idAttr := None;
     classList := {[js "nav-link"]}; href := Some (js h); textContent := [];
     name := []; value := None; defaultValue := []; form := None;
     offsetTop := 0; offsetHeight := 0; rectTop := 0 |}.

(** [<section id=i>] laid out at [top] with height [height]. *)
Definition section (i : string) (top height : Z) : element :=
  {| parent := None; localName := js "section"; idAttr := Some (js i);
     classList := ∅; href := None; textContent := [];
     name := []; value := None; defaultValue := []; form := None;
     offsetTop := top; offsetHeight := height; rectTop := top |}.

(** [<input class="form-input" id=i name=i value=v>] owned by form [f]. *)
Definition control (i : string) (v : string) (f : node) : element :=
  {| parent := Some f; localName := js "input"; idAttr := Some (js i);
     classList := {[js "form-input"]}; href := None; textContent := [];
     name := js i; value := Some (js v); defaultValue := []; form := Some f;
     offsetTop := 0; offsetHeight := 0; rectTop := 0 |}.

(** [<span class="form-error" id=i>] inside [p]. *)
Definition errorText (i : string) (p : node) : element :=
  {| parent := Some p; localName := js "span"; idAttr := Some (js i);
     classList := {[js "form-error"]}; href := None; textContent := [];
     name := []; value := None; defaultValue := []; form := None;
     offsetTop := 0; offsetHeight := 0; rectTop := 0 |}.

Definition withId (i : string) (e : element) : element :=
  {| parent := parent e; localName := localName e; idAttr := Some (js i);
     classList := classList e; href := href e; textContent := textContent e;
     name := name e; value := value e; defaultValue := defaultValue e;
     form := form e; offsetTop := offsetTop e; offsetHeight := offsetHeight e;
     rectTop := rectTop e |}.

Definition inside (p : node) (e : element) : element :=
  {| parent := Some p; localName := localName e; idAttr := idAttr e;
     classList := classList e; href := href e; textContent := textContent e;
     name := name e; value := value e; defaultValue := defaultValue e;
     form := form e; offsetTop := offsetTop e; offsetHeight := offsetHeight e;
     rectTop := rectTop e |}.

(** A page at rest showing document [d], scrolled to [y]. *)
Definition page (d : list element) (y : Z) : world :=
  {| document := d; pageYOffset := y; scrollRequest := None; now := 0;
     timers := []; listeners := []; defaultPrevented := false; console := [] |}.

(** One link to the top of the page and no section. *)
Definition topLinkOnly : world := page [navLink "#"] 0.

(** Two links to the same section. *)
Definition twoLinksOneTarget : world :=
  page [navLink "#about"; navLink "#about"; section "about" 0 1000] 0.

(** Two links to two sections. *)
Definition twoLinksTwoTargets : world :=
  page [navLink "#home"; navLink "#about"; section "home" 0 600; section "about" 600 600] 0.

(** The contact form: the form (node 0), its three controls (nodes 1, 3, 5)
    each followed by its error text, and the success message (node 7). *)
Definition contactForm (name_ email_ message_ : string) : list element :=
  [ withId "contactForm" (plainElement "form" []);
    control "name" name_ 0; errorText "nameError" 0;
    control "email" email_ 0; errorText "emailError" 0;
    control "message" message_ 0; errorText "messageError" 0;
    inside 0 (withId "formSuccess" (plainElement "div" ["form-success"%string])) ].

Definition contactPage (name_ email_ message_ : string) : world :=
  page (contactForm name_ email_ message_) 0.

(** The contact page, loaded, three seconds after a first valid submission,
    with the fields filled in again. *)
Definition resubmitting : world :=
  run bare (loaded bare (contactForm "Jane" "a@b.com" "hi"))
    [UserSubmits 0; TimePasses 3000;
     UserTypes 1 (js "Jane"); UserTypes 3 (js "a@b.com"); UserTypes 5 (js "hi")].

(** A navigation bar (node 0) holding the toggle button (node 1) and the
    menu panel (node 2) with one link (node 3) to the section (node 4). *)
Definition menuPage : list element :=
  [ plainElement "nav" [];
    inside 0 (plainElement "button" ["nav-toggle"%string]);
    inside 0 (plainElement "ul" ["nav-menu"%string]);
    inside 2 (navLink "#about");
    section "about" 0 800 ].

(** A page with a navigation link and its section, and neither a menu
    panel nor a toggle button. *)
Definition linkWithoutMenu : list element :=
  [ navLink "#about"; section "about" 120 500 ].

(** A page whose menu panel (node 0) is open and which has no toggle
    button. *)
Definition openPanelWithoutButton : list element :=
  [ plainElement "ul" ["nav-menu"%string; "active"%string];
    inside 0 (navLink "#about");
    section "about" 120 500 ].

(** Three links the click listener does not follow: to another site, to a
    fragment that names nothing, and to the bare ["#"]. *)
Definition outboundLinks : world :=
  page [navLink "https://example.org/"; navLink "#nowhere"; navLink "#"] 0.

(** A form with one field the label table does not know, left blank. *)
Definition phoneForm : world :=
  page [ withId "contactForm" (plainElement "form" []);
         control "phone" "  " 0; errorText "phoneError" 0 ] 0.

(** [e] with the default value [v], as the [value] attribute of the markup
    gives it. *)
Definition withDefault (v : string) (e : element) : element :=
  {| parent := parent e; localName := localName e; idAttr := idAttr e;
     classList := classList e; href := href e; textContent := textContent e;
     name := name e; value := value e; defaultValue := js v;
     form := form e; offsetTop := offsetTop e; offsetHeight := offsetHeight e;
     rectTop := rectTop e |}.

(** The contact form whose name field comes filled in with ["Guest"], after
    the visitor has typed ["Jane"] over it and filled in the rest. *)
Definition prefilledPage : world :=
  page (<[1%nat := withDefault "Guest" (control "name" "Jane" 0)]>
          (contactForm "Jane" "a@b.com" "hi")) 0.

(** The contact form with one more control (node 8): a button named
    [reset]. *)
Definition formWithResetButton : world :=
  page (contactForm "Jane" "a@b.com" "hi" ++
        [ {| parent := Some 0%nat; localName := js "button"; idAttr := None;
             classList := ∅; href := None; textContent := js "Reset";
             name := js "reset"; value := Some []; defaultValue := []; form := Some 0%nat;
             offsetTop := 0; offsetHeight := 0; rectTop := 0 |} ]) 0.

(** The contact form without its message field, and without its success
    element. *)
Definition formWithoutMessage : world :=
  page (take 5 (contactForm "Jane" "a@b.com" "hi")) 0.

Definition formWithoutSuccess : world :=
  page (take 7 (contactForm "Jane" "a@b.com" "hi")) 0.

(** The navigation bar of [menuPage] followed by the contact form (node 5,
    fields 6, 8 and 10, success element 12). *)
Definition fullPage : list element :=
  menuPage ++
  [ withId "contactForm" (plainElement "form" []);
    control "name" "Jane" 5; errorText "nameError" 5;
    control "email" "a@b.com" 5; errorText "emailError" 5;
    control "message" "hi" 5; errorText "messageError" 5;
    inside 5 (withId "formSuccess" (plainElement "div" ["form-success"%string])) ].

End Sample.

(** * Properties *)

(** ** Strings and patterns *)

Module JsStringFacts.
Import JsString.

Lemma dropWhile_nil_iff p s : dropWhile p s = [] ↔ forallb p s = true.
Proof.
  induction s as [|c s IH]; simpl; [done|].
  destruct (p c); simpl; [exact IH|]. split; discriminate.
Qed.

Lemma forallb_rev p (s : jsstring) : forallb p (rev s) = forallb p s.
Proof.
  induction s as [|c s IH]; simpl; [done|].
  rewrite forallb_app, IH. simpl. rewrite andb_true_r. apply andb_comm.
Qed.

Lemma dropWhile_all p s : forallb p (dropWhile p s) = true → dropWhile p s = [].
Proof.
  induction s as [|c s IH]; simpl; [done|].
  destruct (p c) eqn:Hc; [exact IH|]. simpl. rewrite Hc. discriminate.
Qed.

(** A string trims to the empty string exactly when it consists of white
    space only. *)
Lemma trim_nil_iff s : trim s = [] ↔ forallb is_space s = true.
Proof.
  unfold trim, trimEnd, trimStart. split.
  - intros H. apply dropWhile_nil_iff.
    apply (f_equal (@rev N)) in H. rewrite rev_involutive in H. simpl in H.
    apply dropWhile_nil_iff in H. rewrite forallb_rev in H.
    by apply dropWhile_all.
  - intros H. apply dropWhile_nil_iff in H. rewrite H. done.
Qed.

Lemma eqb_true s t : eqb s t = true ↔ s = t.
Proof. unfold eqb. apply bool_decide_eq_true. Qed.

Lemma eqb_false s t : eqb s t = false ↔ s ≠ t.
Proof. unfold eqb. apply bool_decide_eq_false. Qed.

End JsStringFacts.

Module RegexFacts.
Import Regex.

Lemma void_inv s : Matches Void s ↔ False.
Proof. split; [inversion 1 | done]. Qed.

Lemma eps_inv s : Matches Eps s ↔ s = [].
Proof. split; [by inversion 1 | intros ->; constructor]. Qed.

Lemma class_inv p s : Matches (Class p) s ↔ ∃ c, s = [c] ∧ p c = true.
Proof.
  split.
  - inversion 1; subst; eauto.
  - intros (c & -> & ?). by constructor.
Qed.

Lemma cat_inv r1 r2 s :
  Matches (Cat r1 r2) s ↔ ∃ s1 s2, s = s1 ++ s2 ∧ Matches r1 s1 ∧ Matches r2 s2.
Proof.
  split.
  - inversion 1; subst; eauto.
  - intros (s1 & s2 & -> & ? & ?). by constructor.
Qed.

Lemma alt_inv r1 r2 s : Matches (Alt r1 r2) s ↔ Matches r1 s ∨ Matches r2 s.
Proof.
  split.
  - inversion 1; subst; eauto.
  - intros [?|?]; [by apply MAltL | by apply MAltR].
Qed.

Lemma nullable_spec r : nullable r = true ↔ Matches r [].
Proof.
  induction r as [| |p|r1 IH1 r2 IH2|r1 IH1 r2 IH2|r IH]; simpl.
  - rewrite void_inv. split; [discriminate | done].
  - rewrite eps_inv. done.
  - rewrite class_inv. split; [discriminate | by intros (c & ? & _)].
  - rewrite andb_true_iff, IH1, IH2, cat_inv. split.
    + intros [H1 H2]. by exists [], [].
    + intros (s1 & s2 & Heq & H1 & H2).
      symmetry in Heq. apply app_eq_nil in Heq as [-> ->]. done.
  - rewrite orb_true_iff, IH1, IH2, alt_inv. done.
  - split; [constructor | done].
Qed.

(** A non-empty match of [r*] starts with a non-empty match of [r]. *)
Lemma star_cons_inv r c s :
  Matches (Star r) (c :: s) →
  ∃ s1 s2, s = s1 ++ s2 ∧ Matches r (c :: s1) ∧ Matches (Star r) s2.
Proof.
  intros H. remember (Star r) as r' eqn:Hr. remember (c :: s) as s' eqn:Hs.
  revert s Hs.
  induction H as [| | | | | |r0 s1 s2 H1 _ H2 IH2]; try discriminate.
  injection Hr as ->. intros s Hs.
  destruct s1 as [|c1 s1]; simpl in Hs.
  - by apply IH2.
  - injection Hs as -> <-. by exists s1, s2.
Qed.

Lemma cat_cons_inv r1 r2 c s :
  Matches (Cat r1 r2) (c :: s) ↔
  (∃ s1 s2, s = s1 ++ s2 ∧ Matches r1 (c :: s1) ∧ Matches r2 s2) ∨
  (Matches r1 [] ∧ Matches r2 (c :: s)).
Proof.
  rewrite cat_inv. split.
  - intros (s1 & s2 & Heq & H1 & H2). destruct s1 as [|c1 s1]; simpl in Heq.
    + right. by subst.
    + injection Heq as -> ->. left. by exists s1, s2.
  - intros [(s1 & s2 & -> & H1 & H2) | [H1 H2]].
    + by exists (c :: s1), s2.
    + by exists [], (c :: s).
Qed.

Lemma deriv_spec c r s : Matches (deriv c r) s ↔ Matches r (c :: s).
Proof.
  revert s. induction r as [| |p|r1 IH1 r2 IH2|r1 IH1 r2 IH2|r IH]; intros s; simpl.
  - by rewrite !void_inv.
  - rewrite void_inv, eps_inv. done.
  - rewrite class_inv. destruct (p c) eqn:Hp.
    + rewrite eps_inv. split.
      * intros ->. by exists c.
      * intros (c' & [= -> ->] & _). done.
    + rewrite void_inv. split; [done|].
      intros (c' & [= -> ->] & ?). congruence.
  - rewrite cat_cons_inv.
    assert (Hcat : Matches (Cat (deriv c r1) r2) s ↔
                   ∃ s1 s2, s = s1 ++ s2 ∧ Matches r1 (c :: s1) ∧ Matches r2 s2).
    { rewrite cat_inv. by setoid_rewrite IH1. }
    destruct (nullable r1) eqn:Hn.
    + rewrite alt_inv, Hcat, IH2. apply nullable_spec in Hn. tauto.
    + rewrite Hcat. split; [by left|]. intros [?|[H _]]; [done|].
      apply nullable_spec in H. congruence.
  - by rewrite !alt_inv, IH1, IH2.
  - rewrite cat_inv. setoid_rewrite IH. split.
    + intros (s1 & s2 & -> & H1 & H2). exact (MStarCons _ (c :: s1) s2 H1 H2).
    + apply star_cons_inv.
Qed.

(** The matcher decides the language of the pattern. *)
Lemma test_spec r s : test r s = true ↔ Matches r s.
Proof.
  revert r. induction s as [|c s IH]; intros r; simpl.
  - apply nullable_spec.
  - rewrite IH. apply deriv_spec.
Qed.

Lemma star_class p s : Matches (Star (Class p)) s ↔ forallb p s = true.
Proof.
  split.
  - intros H. remember (Star (Class p)) as r eqn:Hr.
    induction H as [| | | | | |r0 s1 s2 H1 _ H2 IH2]; try discriminate; [done|].
    injection Hr as ->. apply class_inv in H1 as (c & -> & Hc). simpl.
    rewrite Hc. by apply IH2.
  - induction s as [|c s IH]; simpl; [constructor|].
    intros [Hc Hs]%andb_prop.
    apply (MStarCons _ [c] s); [by constructor | by apply IH].
Qed.

Lemma plus_class p s :
  Matches (Plus (Class p)) s ↔ s ≠ [] ∧ forallb p s = true.
Proof.
  unfold Plus. rewrite cat_inv. setoid_rewrite class_inv. setoid_rewrite star_class.
  split.
  - intros (s1 & s2 & -> & (c & -> & Hc) & Hs). simpl. by rewrite Hc.
  - intros [Hne H]. destruct s as [|c s]; [done|]. simpl in H.
    apply andb_prop in H as [Hc Hs]. exists [c], s. eauto.
Qed.

Lemma chr_inv c s : Matches (Chr c) s ↔ s = [c].
Proof.
  unfold Chr. rewrite class_inv. split.
  - by intros (c' & -> & ->%N.eqb_eq).
  - intros ->. exists c. by rewrite N.eqb_refl.
Qed.

End RegexFacts.

Lemma plainChars_spec s :
  Regex.Matches (Regex.Plus (Regex.Class notSpaceNorAt)) s ↔ plainChars s.
Proof.
  rewrite RegexFacts.plus_class. unfold plainChars.
  rewrite forallb_forall. apply and_iff_compat_l.
  split; intros H c Hc.
  - apply list_elem_of_In, H in Hc. unfold notSpaceNorAt in Hc.
    apply negb_true_iff, orb_false_iff in Hc as [? ?%N.eqb_neq]. done.
  - apply list_elem_of_In, H in Hc as [Hs Hne]. unfold notSpaceNorAt.
    rewrite Hs. simpl. apply negb_true_iff. by apply N.eqb_neq.
Qed.

(** The pattern of line 220 accepts exactly the strings of that shape. *)
Lemma emailRegex_spec s : Regex.test emailRegex s = true ↔ emailShaped s.
Proof.
  rewrite RegexFacts.test_spec. unfold emailRegex, emailShaped. split.
  - intros (a & ? & -> & Ha & H)%RegexFacts.cat_inv.
    apply RegexFacts.cat_inv in H as (? & ? & -> & ->%RegexFacts.chr_inv & H).
    apply RegexFacts.cat_inv in H as (b & ? & -> & Hb & H).
    apply RegexFacts.cat_inv in H as (? & c & -> & ->%RegexFacts.chr_inv & Hc).
    apply plainChars_spec in Ha, Hb, Hc. by exists a, b, c.
  - intros (a & b & c & -> & Ha & Hb & Hc).
    apply plainChars_spec in Ha, Hb, Hc.
    repeat (apply Regex.MCat; [done || by apply RegexFacts.chr_inv|]). done.
Qed.

(** ** The document store *)

Module DomFacts.

Lemma elem_of_indicesFrom p d i n :
  n ∈ indicesFrom p d i ↔ ∃ e, (i ≤ n)%nat ∧ d !! (n - i)%nat = Some e ∧ p e = true.
Proof.
  revert i. induction d as [|e d IH]; intros i; simpl.
  - split; [by intros ?%elem_of_nil | by intros (? & _ & ? & _)].
  - assert (Hrest : n ∈ indicesFrom p d (S i) ↔
                    ∃ e', (i < n)%nat ∧ (e :: d) !! (n - i)%nat = Some e' ∧ p e' = true).
    { rewrite IH. split; intros (e' & Hle & Hl & Hp); exists e'; (split; [lia|]); split; try done.
      - replace (n - i)%nat with (S (n - S i)) by lia. done.
      - replace (n - i)%nat with (S (n - S i)) in Hl by lia. done. }
    destruct (p e) eqn:Hp.
    + rewrite elem_of_cons, Hrest. split.
      * intros [-> | (e' & ? & ? & ?)].
        -- exists e. rewrite Nat.sub_diag. done.
        -- exists e'. split; [lia|done].
      * intros (e' & Hle & Hl & Hp'). destruct (decide (n = i)) as [->|]; [by left|].
        right. exists e'. split; [lia|done].
    + rewrite Hrest. split.
      * intros (e' & ? & ? & ?). exists e'. split; [lia|done].
      * intros (e' & Hle & Hl & Hp'). exists e'. split; [|done].
        destruct (decide (n = i)) as [->|]; [|lia].
        rewrite Nat.sub_diag in Hl. simpl in Hl. congruence.
Qed.

(** The nodes a query returns are those whose element satisfies it. *)
Lemma elem_of_nodesWhere p d n :
  n ∈ nodesWhere p d ↔ ∃ e, d !! n = Some e ∧ p e = true.
Proof.
  unfold nodesWhere. rewrite elem_of_indicesFrom. rewrite Nat.sub_0_r.
  split; intros (e & H); exists e; [tauto | split; [lia | done]].
Qed.

Lemma indicesFrom_lower p d i n : n ∈ indicesFrom p d i → (i ≤ n)%nat.
Proof. rewrite elem_of_indicesFrom. by intros (? & ? & _). Qed.

(** A query lists its nodes in document order, each once. *)
Lemma indicesFrom_sorted p d i : StronglySorted lt (indicesFrom p d i).
Proof.
  revert i. induction d as [|e d IH]; intros i; simpl; [constructor|].
  destruct (p e); [|apply IH]. constructor; [apply IH|].
  apply Forall_forall. intros n Hn%indicesFrom_lower. lia.
Qed.

Lemma nodesWhere_sorted p d : StronglySorted lt (nodesWhere p d).
Proof. apply indicesFrom_sorted. Qed.

Lemma sorted_lt_NoDup (l : list nat) : StronglySorted lt l → NoDup l.
Proof.
  induction 1 as [|n l _ IH Hall]; constructor; [|done].
  intros Hin. rewrite Forall_forall in Hall. specialize (Hall n Hin). lia.
Qed.

Lemma NoDup_nodesWhere p d : NoDup (nodesWhere p d).
Proof. apply sorted_lt_NoDup, nodesWhere_sorted. Qed.

Lemma indicesFrom_ext p q d d' i :
  Forall2 (fun e e' => p e = q e') d d' → indicesFrom p d i = indicesFrom q d' i.
Proof.
  intros H. revert i. induction H as [|e e' d d' Hp _ IH]; intros i; simpl; [done|].
  rewrite Hp. destruct (q e'); by rewrite IH.
Qed.

(** A query gives the same nodes on two documents whose elements answer it
    alike. *)
Lemma nodesWhere_ext p q d d' :
  Forall2 (fun e e' => p e = q e') d d' → nodesWhere p d = nodesWhere q d'.
Proof. apply indicesFrom_ext. Qed.

Lemma head_nodesWhere_Some p d n :
  head (nodesWhere p d) = Some n →
  (∃ e, d !! n = Some e ∧ p e = true) ∧
  ∀ m e, (m < n)%nat → d !! m = Some e → p e = false.
Proof.
  intros H. pose proof (nodesWhere_sorted p d) as Hs.
  destruct (nodesWhere p d) as [|n' l] eqn:Hl; [done|]. injection H as ->.
  split.
  - apply elem_of_nodesWhere. rewrite Hl. by left.
  - intros m e Hlt Hm. destruct (p e) eqn:Hp; [|done].
    assert (Hin : m ∈ nodesWhere p d) by (apply elem_of_nodesWhere; eauto).
    rewrite Hl in Hin. apply elem_of_cons in Hin as [->|Hin]; [lia|].
    apply StronglySorted_inv in Hs as [_ Hall]. rewrite Forall_forall in Hall.
    specialize (Hall m Hin). lia.
Qed.

Lemma head_nodesWhere_None p d :
  head (nodesWhere p d) = None ↔ ∀ n e, d !! n = Some e → p e = false.
Proof.
  split.
  - intros H n e Hn. destruct (p e) eqn:Hp; [|done].
    assert (Hin : n ∈ nodesWhere p d) by (apply elem_of_nodesWhere; eauto).
    destruct (nodesWhere p d); [by apply elem_of_nil in Hin | done].
  - intros H. destruct (nodesWhere p d) as [|n l] eqn:Hl; [done|].
    assert (Hin : n ∈ nodesWhere p d) by (rewrite Hl; by left).
    apply elem_of_nodesWhere in Hin as (e & Hn & Hp). rewrite (H n e Hn) in Hp. done.
Qed.

Lemma elementById_Some i d n :
  elementById i d = Some n → ∃ e, d !! n = Some e ∧ idAttr e = Some i.
Proof.
  unfold elementById. destruct i as [|c i]; [done|].
  intros [(e & He & Hid) _]%head_nodesWhere_Some.
  exists e. split; [done|]. by apply bool_decide_eq_true in Hid.
Qed.

Lemma elementById_inj i j d n :
  elementById i d = Some n → elementById j d = Some n → i = j.
Proof.
  intros (e & He & Hi)%elementById_Some (e' & He' & Hj)%elementById_Some. congruence.
Qed.

Lemma skeleton_inv e e' :
  skeleton e = skeleton e' →
  parent e = parent e' ∧ localName e = localName e' ∧ idAttr e = idAttr e' ∧
  href e = href e' ∧ name e = name e' ∧ defaultValue e = defaultValue e' ∧
  form e = form e' ∧ offsetTop e = offsetTop e' ∧ offsetHeight e = offsetHeight e' ∧
  rectTop e = rectTop e' ∧ (is_Some (value e) ↔ is_Some (value e')).
Proof.
  unfold skeleton. intros [= ? ? ? ? ? ? ? ? ? ? Hv]. repeat (split; [done|]).
  split; intros H; apply (bool_decide_eq_true_2 _) in H;
    apply (bool_decide_eq_true_1 _); congruence.
Qed.

#[export] Instance editedWithin_preorder T : PreOrder (editedWithin T).
Proof.
  split.
  - intros e. by split.
  - intros e1 e2 e3 [Hs1 Hc1] [Hs2 Hc2]. split; [congruence|].
    intros c Hc. by rewrite Hc1, Hc2.
Qed.

#[export] Instance annotatedWithin_preorder T : PreOrder (annotatedWithin T).
Proof.
  split.
  - intros e. by split.
  - intros e1 e2 e3 [H1 Hv1] [H2 Hv2]. split; [by etrans | congruence].
Qed.

Lemma editedWithin_mono T T' e e' : T ⊆ T' → editedWithin T e e' → editedWithin T' e e'.
Proof.
  intros HT [Hs Hcl]. split; [done|]. intros c Hn. apply Hcl.
  intros Hin. apply Hn. revert Hin. apply HT.
Qed.

Lemma annotatedWithin_mono T T' e e' :
  T ⊆ T' → annotatedWithin T e e' → annotatedWithin T' e e'.
Proof. intros HT [He Hv]. split; [by eapply editedWithin_mono | done]. Qed.

Lemma annotatedWithin_edited T e e' : annotatedWithin T e e' → editedWithin T e e'.
Proof. by intros [? _]. Qed.

#[export] Instance docRel_preorder r `{!PreOrder r} : PreOrder (docRel r).
Proof.
  unfold docRel. split.
  - intros w. apply Forall2_same_length_lookup. split; [done|].
    intros i x y Hx Hy. assert (x = y) as -> by congruence. done.
  - intros w1 w2 w3 H12 H23. rewrite Forall2_same_length_lookup in *.
    destruct H12 as [Hl1 H1], H23 as [Hl2 H2]. split; [congruence|].
    intros i x z Hx Hz.
    destruct (lookup_lt_is_Some_2 (document w2) i) as [y Hy].
    { rewrite <- Hl1. by eapply lookup_lt_Some. }
    etrans; [by eapply H1 | by eapply H2].
Qed.

Lemma docRel_lookup r w w' n e :
  docRel r w w' → document w !! n = Some e →
  ∃ e', document w' !! n = Some e' ∧ r e e'.
Proof. unfold docRel. intros H He. by eapply Forall2_lookup_l. Qed.

Lemma docRel_lookup_r r w w' n e' :
  docRel r w w' → document w' !! n = Some e' →
  ∃ e, document w !! n = Some e ∧ r e e'.
Proof. unfold docRel. intros H He. by eapply Forall2_lookup_r. Qed.

Lemma docRel_length r w w' : docRel r w w' → length (document w) = length (document w').
Proof. apply Forall2_length. Qed.

Lemma docRel_impl (r r' : element → element → Prop) w w' :
  (∀ e e', r e e' → r' e e') → docRel r w w' → docRel r' w w'.
Proof. unfold docRel. intros H H'. eapply Forall2_impl; eauto. Qed.

Lemma Forall2_alter_r (r : element → element → Prop) `{!Reflexive r} f n d :
  (∀ e, r e (f e)) → Forall2 r d (alter f n d).
Proof.
  intros Hf. apply Forall2_same_length_lookup. split; [by rewrite length_alter|].
  intros i x y Hx. rewrite list_lookup_alter. case_decide; subst.
  - rewrite Hx. simpl. intros [= <-]. apply Hf.
  - rewrite Hx. by intros [= <-].
Qed.

Lemma with_document_id w : with_document (document w) w = w.
Proof. by destruct w. Qed.

Lemma with_document_twice d d' w : with_document d (with_document d' w) = with_document d w.
Proof. done. Qed.

Lemma Ret_doc_eq {A} (a : A) d d' w :
  d = d' → Ret a (with_document d w) = Ret a (with_document d' w).
Proof. by intros ->. Qed.

End DomFacts.

(** ** Frame rules for script code *)

Module Frames.
Import DomFacts.

Lemma final_bind {A B} (m : M A) (k : A → M B) w :
  final ((m ≫= k) w) =
  match m w with
  | Ret a w' => final (k a w')
  | Throw _ w' => w'
  end.
Proof. unfold mbind, M_bind, bind. by destruct (m w). Qed.

#[export] Instance sameOn_preorder {X} (proj : world → X) : PreOrder (sameOn proj).
Proof. unfold sameOn. split; [by intros ? | intros ???; congruence]. Qed.

Section Rules.
Context (R : world → world → Prop) `{!PreOrder R}.

Lemma stable_ret {A} (a : A) : stable R (ret a).
Proof. intros w. simpl. reflexivity. Qed.

Lemma stable_mret {A} (a : A) : stable R (mret a).
Proof. apply stable_ret. Qed.

Lemma stable_throw {A} e : stable R (@throw A e).
Proof. intros w. simpl. reflexivity. Qed.

Lemma stable_bind {A B} (m : M A) (k : A → M B) :
  stable R m → (∀ a, stable R (k a)) → stable R (m ≫= k).
Proof.
  intros Hm Hk w. rewrite final_bind. specialize (Hm w).
  destruct (m w) as [a w'|e w']; simpl in Hm; [|done].
  etrans; [exact Hm | apply Hk].
Qed.

Lemma stable_forEach l (f : node → M unit) :
  (∀ n, stable R (f n)) → stable R (forEach l f).
Proof.
  intros Hf. induction l as [|n l IH]; simpl; [apply stable_ret|].
  apply stable_bind; [apply Hf | done].
Qed.

End Rules.

Lemma stable_deref R `{!PreOrder R} r : stable R (deref r).
Proof. destruct r; [apply stable_ret | apply stable_throw]; apply _. Qed.

Lemma stable_docKeep r `{!Reflexive r} {A} (m : M A) :
  docKeep m → stable (docRel r) m.
Proof.
  intros Hm w. unfold docRel. rewrite Hm.
  apply Forall2_same_length_lookup. split; [done|].
  intros i x y Hx Hy. assert (x = y) as -> by congruence. done.
Qed.

Lemma stable_update r `{!Reflexive r} n f :
  (∀ e, r e (f e)) → stable (docRel r) (updateElement n f).
Proof.
  intros Hf w. unfold docRel. simpl.
  apply Forall2_same_length_lookup. split; [by rewrite length_alter|].
  intros i x y Hx. rewrite list_lookup_alter. case_decide; subst.
  - rewrite Hx. simpl. intros [= <-]. apply Hf.
  - rewrite Hx. intros [= <-]. done.
Qed.

Lemma stable_form_reset r `{!Reflexive r} f :
  (∀ e, r e (resetControl f e)) → stable (docRel r) (form_reset f).
Proof.
  intros Hf w. unfold docRel, form_reset, getDocument.
  unfold mbind, M_bind, bind. destruct (hasResetMethod (document w) f); simpl.
  - apply Forall2_fmap_r, Forall_Forall2_diag, Forall_forall. intros e _. apply Hf.
  - apply Forall_Forall2_diag, Forall_forall. intros e _. reflexivity.
Qed.

(** The primitives that never write the document. *)
Lemma docKeep_getWorld : docKeep getWorld.
Proof. done. Qed.
Lemma docKeep_getDocument : docKeep getDocument.
Proof. done. Qed.
Lemma docKeep_getElement n : docKeep (getElement n).
Proof. intros w. unfold getElement. by destruct (document w !! n). Qed.
Lemma docKeep_deref r : docKeep (deref r).
Proof. by destruct r. Qed.
Lemma docKeep_classList_contains n c : docKeep (classList_contains n c).
Proof.
  intros w. unfold classList_contains. rewrite final_bind.
  unfold getElement. by destruct (document w !! n).
Qed.
Lemma docKeep_querySelectorAll s : docKeep (querySelectorAll s).
Proof. done. Qed.
Lemma docKeep_querySelector s : docKeep (querySelector s).
Proof. done. Qed.
Lemma docKeep_querySelectorAllIn n s : docKeep (querySelectorAllIn n s).
Proof. done. Qed.
Lemma docKeep_getElementById i : docKeep (getElementById i).
Proof. done. Qed.
Lemma docKeep_addEventListener t ty h : docKeep (addEventListener t ty h).
Proof. done. Qed.
Lemma docKeep_preventDefault : docKeep preventDefault.
Proof. done. Qed.
Lemma docKeep_console_log s : docKeep (console_log s).
Proof. done. Qed.
Lemma docKeep_scrollTo t : docKeep (scrollTo t).
Proof. done. Qed.
Lemma docKeep_setTimeout cb t : docKeep (setTimeout cb t).
Proof. done. Qed.

Create HintDb frames discriminated.

#[export] Hint Resolve docKeep_getWorld docKeep_getDocument docKeep_getElement
  docKeep_deref docKeep_classList_contains docKeep_querySelectorAll
  docKeep_querySelector docKeep_querySelectorAllIn docKeep_getElementById
  docKeep_addEventListener docKeep_preventDefault docKeep_console_log
  docKeep_scrollTo docKeep_setTimeout : frames.

(** Class-token edits, as relations on elements. *)
Lemma edit_add T c e :
  c ∈ T → annotatedWithin T e (with_classList (classList e ∪ {[c]}) e).
Proof.
  intros Hc. split; [split|]; [done| |done]. simpl. intros c' Hc'.
  rewrite elem_of_union, elem_of_singleton. split; [by left|].
  intros [?| ->]; done.
Qed.

Lemma edit_remove T c e :
  c ∈ T → annotatedWithin T e (with_classList (classList e ∖ {[c]}) e).
Proof.
  intros Hc. split; [split|]; [done| |done]. simpl. intros c' Hc'.
  rewrite elem_of_difference, elem_of_singleton. split; [|by intros [? _]].
  intros ?. split; [done|]. by intros ->.
Qed.

Lemma edit_text T t e : annotatedWithin T e (with_textContent t e).
Proof. by repeat split. Qed.

Lemma stable_weaken (R R' : world → world → Prop) {A} (m : M A) :
  (∀ w w', R w w' → R' w w') → stable R m → stable R' m.
Proof. intros H Hm w. apply H, Hm. Qed.

Lemma stable_annotated_edited T T' {A} (m : M A) :
  T ⊆ T' → stable (docRel (annotatedWithin T)) m → stable (docRel (editedWithin T')) m.
Proof.
  intros HT. apply stable_weaken. intros w w'. apply docRel_impl.
  intros e e' H. by eapply editedWithin_mono, annotatedWithin_edited.
Qed.

Lemma stable_annotated_mono T T' {A} (m : M A) :
  T ⊆ T' → stable (docRel (annotatedWithin T)) m → stable (docRel (annotatedWithin T')) m.
Proof.
  intros HT. apply stable_weaken. intros w w'. apply docRel_impl.
  intros e e' H. by eapply annotatedWithin_mono.
Qed.

Lemma stable_classList_add T n c :
  c ∈ T → stable (docRel (annotatedWithin T)) (classList_add n c).
Proof. intros Hc. apply stable_update; [apply _|]. intros e. by apply edit_add. Qed.

Lemma stable_classList_remove T n c :
  c ∈ T → stable (docRel (annotatedWithin T)) (classList_remove n c).
Proof. intros Hc. apply stable_update; [apply _|]. intros e. by apply edit_remove. Qed.

Lemma stable_classList_toggle T n c :
  c ∈ T → stable (docRel (annotatedWithin T)) (classList_toggle n c).
Proof.
  intros Hc. apply stable_update; [apply _|]. intros e.
  destruct (hasClass c e); [by apply edit_remove | by apply edit_add].
Qed.

Lemma stable_set_textContent T n t :
  stable (docRel (annotatedWithin T)) (set_textContent n t).
Proof. apply stable_update; [apply _|]. intros e. apply edit_text. Qed.

Lemma stable_surroundings_update n f : stable (sameOn surroundings) (updateElement n f).
Proof. done. Qed.

Lemma stable_surroundings_getElement n : stable (sameOn surroundings) (getElement n).
Proof. intros w. unfold getElement. by destruct (document w !! n). Qed.

Lemma stable_listeners_getElement n : stable (sameOn listeners) (getElement n).
Proof. intros w. unfold getElement. by destruct (document w !! n). Qed.

#[export] Hint Resolve stable_classList_add stable_classList_remove
  stable_classList_toggle stable_set_textContent stable_surroundings_update
  stable_surroundings_getElement stable_listeners_getElement : frames.

(** One step of a frame proof: follow the structure of the code. *)
Ltac frame_step :=
  lazymatch goal with
  | |- stable _ (mbind _ _) => apply stable_bind; [apply _ | | intros ?]
  | |- stable _ (ret _) => apply stable_ret; apply _
  | |- stable _ (mret _) => apply stable_mret; apply _
  | |- stable _ (throw _) => apply stable_throw; apply _
  | |- stable _ (forEach _ _) => apply stable_forEach; [apply _ | intros ?]
  | |- stable _ (match ?x with _ => _ end) => destruct x
  | |- stable _ (let _ := _ in _) => cbv zeta
  end.

(** Leaves: a rule of the database, a primitive that keeps the document, or
    a primitive whose effect is plain to see. *)
Ltac frame_leaf :=
  first
    [ solve [eauto with frames]
    | solve [apply stable_docKeep; [apply _ | eauto with frames]]
    | solve [eauto with frames set_solver]
    | solve [intros ?; reflexivity] ].

Ltac frame := repeat frame_step; try frame_leaf.

End Frames.

(** ** What each function of the script leaves alone *)

Module ScriptFrames.
Import DomFacts Frames.

Section WithHost.
Context (proto : jsstring → option jsstring).

Lemma showError_annotates field err msg :
  stable (docRel (annotatedWithin {[js "error"]})) (showError field err msg).
Proof. unfold showError. frame; apply stable_classList_add; set_solver. Qed.

Lemma showError_surroundings field err msg :
  stable (sameOn surroundings) (showError field err msg).
Proof. unfold showError, classList_add, set_textContent. frame. Qed.

Hint Resolve showError_annotates showError_surroundings : frames.

(** [validateField] writes nothing but the [error] token and text. *)
Lemma validateField_annotates field :
  stable (docRel (annotatedWithin {[js "error"]})) (validateField proto field).
Proof. unfold validateField. frame; apply stable_classList_remove; set_solver. Qed.

Lemma validateField_surroundings field :
  stable (sameOn surroundings) (validateField proto field).
Proof. unfold validateField, classList_remove, set_textContent. frame. Qed.

End WithHost.
End ScriptFrames.

Module FormFacts.
Import DomFacts Frames.

Lemma annotated_lookup field err msg d n :
  annotated field err msg d !! n = annotateElement field err msg n <$> d !! n.
Proof. apply list_lookup_imap. Qed.

Lemma skeleton_annotateElement field err msg n e :
  skeleton (annotateElement field err msg n e) = skeleton e.
Proof. unfold annotateElement. by repeat case_decide. Qed.

Lemma Forall2_imap_r (r : element → element → Prop) g d :
  (∀ n e, r e (g n e)) → Forall2 r d (imap g d).
Proof.
  intros H. apply Forall2_same_length_lookup. split; [by rewrite length_imap|].
  intros i x y Hx. rewrite list_lookup_imap, Hx. intros [= <-]. apply H.
Qed.

Lemma elementById_skeleton i d d' :
  Forall2 (fun e e' => skeleton e = skeleton e') d d' →
  elementById i d = elementById i d'.
Proof.
  intros H. unfold elementById. destruct i; [done|]. f_equal.
  apply nodesWhere_ext. eapply Forall2_impl; [exact H|].
  intros e e' He. apply skeleton_inv in He as (_ & _ & -> & _). done.
Qed.

Lemma existsb_namedReset d d' n :
  Forall2 (fun e e' => skeleton e = skeleton e') d d' →
  existsb (namedReset n) d = existsb (namedReset n) d'.
Proof.
  induction 1 as [|e e' d d' He _ IH]; [done|]. simpl. rewrite IH. f_equal.
  apply skeleton_inv in He as (_ & _ & Hi & _ & Hn & _ & Hf & _).
  unfold namedReset. by rewrite Hi, Hn, Hf.
Qed.

(** Whether [form.reset] is the method depends on what the script never
    writes. *)
Lemma hasResetMethod_skeleton d d' n :
  Forall2 (fun e e' => skeleton e = skeleton e') d d' →
  hasResetMethod d n = hasResetMethod d' n.
Proof.
  intros H. unfold hasResetMethod. rewrite (existsb_namedReset d d' n H).
  destruct (d !! n) as [e|] eqn:He.
  - destruct (Forall2_lookup_l _ _ _ _ _ H He) as (e' & -> & Hs).
    apply skeleton_inv in Hs as (_ & -> & _). done.
  - destruct (d' !! n) as [e'|] eqn:He'; [|done].
    destruct (Forall2_lookup_r _ _ _ _ _ H He') as (e & ? & _). congruence.
Qed.

Lemma elementById_annotated i field err msg d :
  elementById i (annotated field err msg d) = elementById i d.
Proof.
  symmetry. apply elementById_skeleton, Forall2_imap_r.
  intros n e. by rewrite skeleton_annotateElement.
Qed.

Lemma annotateElement_idemp field err msg n e :
  annotateElement field err msg n (annotateElement field err msg n e) =
  annotateElement field err msg n e.
Proof.
  unfold annotateElement. destruct e as [p l i cl h t nm v dv fo ot oh rt].
  repeat case_decide; destruct msg; simpl; try done;
    unfold with_textContent, with_classList; simpl; f_equal; set_solver.
Qed.

Lemma annotated_idemp field err msg d :
  annotated field err msg (annotated field err msg d) = annotated field err msg d.
Proof.
  apply list_eq. intros n. rewrite !annotated_lookup.
  destruct (d !! n); simpl; [|done]. by rewrite annotateElement_idemp.
Qed.

Lemma value_annotateElement field err msg n e :
  value (annotateElement field err msg n e) = value e.
Proof. unfold annotateElement. by repeat case_decide. Qed.

Lemma name_annotateElement field err msg n e :
  name (annotateElement field err msg n e) = name e.
Proof. unfold annotateElement. by repeat case_decide. Qed.

Lemma classList_annotateElement field err msg n e c :
  c ∈ classList (annotateElement field err msg n e) ↔
  if decide (n = field ∧ c = js "error") then is_Some msg else c ∈ classList e.
Proof.
  unfold annotateElement.
  assert (Hcl : ∀ e', classList (if decide (err = Some n)
                                 then with_textContent (default [] msg) e' else e')
                      = classList e') by (intros; by case_decide).
  rewrite Hcl. clear Hcl.
  destruct (decide (n = field)) as [->|Hn].
  - destruct (decide (c = js "error")) as [->|Hc].
    + rewrite decide_True by done. destruct msg; simpl.
      * split; [eauto | set_solver].
      * split; [set_solver | by intros [? ?]].
    + rewrite decide_False by (by intros [_ ?]). destruct msg; simpl; set_solver.
  - rewrite decide_False by (by intros [? _]). done.
Qed.

Lemma error_annotateElement field err msg e :
  js "error" ∈ classList (annotateElement field err msg field e) ↔ is_Some msg.
Proof. rewrite classList_annotateElement. by rewrite decide_True. Qed.

Lemma classList_annotateElement_ne field err msg n e c :
  n ≠ field ∨ c ≠ js "error" →
  c ∈ classList (annotateElement field err msg n e) ↔ c ∈ classList e.
Proof.
  intros H. rewrite classList_annotateElement.
  rewrite decide_False; [done|]. intros [? ?]. by destruct H.
Qed.

Lemma textContent_annotateElement field err msg n e :
  textContent (annotateElement field err msg n e) =
  if decide (err = Some n) then default [] msg else textContent e.
Proof. unfold annotateElement. by repeat case_decide. Qed.

Section WithHost.
Context (proto : jsstring → option jsstring).

Ltac destruct_lookup :=
  match goal with
  | |- context [?d !! ?i] => destruct (d !! i) eqn:?; simplify_eq
  end.

(** Two documents are equal when they agree node by node. *)
Ltac doc_eq :=
  apply list_eq; intros ?i; unfold annotated;
  rewrite ?list_lookup_imap, ?list_lookup_alter, ?list_lookup_fmap;
  unfold annotateElement;
  repeat (case_decide; simplify_eq; rewrite ?list_lookup_alter);
  repeat match goal with
         | |- context [?d !! ?i] => destruct (d !! i) eqn:?; simplify_eq; simpl
         end;
  try done.


(** The outcome of [validateField] on a control, in one equation. *)
Lemma validateField_run w field f v :
  document w !! field = Some f → value f = Some v →
  let msg := fieldError proto (name f) v in
  let err := elementById (name f ++ js "Error") (document w) in
  validateField proto field w =
  Ret (bool_decide (msg = None)) (with_document (annotated field err msg (document w)) w).
Proof.
  intros Hf Hv msg err. unfold validateField.
  unfold mbind, M_bind, bind, getElement. rewrite Hf, Hv. simpl.
  fold err. subst msg. unfold fieldError, JsString.eqb.
  destruct (decide (JsString.trim v = [])) as [Ht|Ht].
  - rewrite (bool_decide_eq_true_2 _ Ht).
    destruct err as [e|]; simpl; rewrite ?with_document_twice; apply Ret_doc_eq; doc_eq.
  - rewrite (bool_decide_eq_false_2 _ Ht).
    destruct (decide (name f = js "email")) as [Hn|Hn].
    + rewrite (bool_decide_eq_true_2 _ Hn).
      destruct (Regex.test emailRegex (JsString.trim v)) eqn:Hre; simpl.
      * rewrite decide_False by (intros [_ ?]; done).
        destruct err as [e|]; simpl; rewrite ?with_document_twice; apply Ret_doc_eq; doc_eq.
      * rewrite decide_True by done.
        destruct err as [e|]; simpl; rewrite ?with_document_twice; apply Ret_doc_eq; doc_eq.
    + rewrite (bool_decide_eq_false_2 _ Hn).
      rewrite decide_False by (intros [? _]; done).
      destruct err as [e|]; simpl; rewrite ?with_document_twice; apply Ret_doc_eq; doc_eq.
Qed.

(** [validateField] throws exactly when it is handed something that is not
    a form control, and then it has written nothing. *)
Lemma validateField_throws w field :
  (document w !! field ≫= value) = None →
  validateField proto field w = Throw TypeError w.
Proof.
  intros H. unfold validateField, mbind at 1, M_bind, bind, getElement.
  destruct (document w !! field) as [f|]; [|done]. simpl in H. by rewrite H.
Qed.

Lemma docRel_valueAt T w w' n :
  docRel (annotatedWithin T) w w' → valueAt w' n = valueAt w n.
Proof.
  intros H. unfold valueAt. destruct (document w !! n) as [e|] eqn:He.
  - destruct (docRel_lookup _ _ _ _ _ H He) as (e' & -> & _ & Hv). simpl. congruence.
  - destruct (document w' !! n) as [e'|] eqn:He'; [|done].
    destruct (docRel_lookup_r _ _ _ _ _ H He') as (e & ? & _). congruence.
Qed.

Lemma getFieldLabel_own k label :
  labels !! k = Some label → label ≠ [] → toText (getFieldLabel proto k) = label.
Proof.
  intros Hk Hne. unfold getFieldLabel, propertyRead. rewrite Hk.
  destruct label; [done|]. done.
Qed.

(** C1.  [validateField] on a form control: a value that trims to the empty
    string marks the field invalid with its label ([name] gives "Nama",
    [email] "Email", [message] "Pesan") followed by " harus diisi" and returns
    false; a non-empty trimmed value of the email field that is not of the
    shape plain@plain.plain marks it invalid with "Format email tidak valid"
    and returns false; in every other case the field ends without the error
    class, with empty error text, and the result is true. *)
Theorem validateField_outcome w field f v :
  document w !! field = Some f → value f = Some v →
  let w' := final (validateField proto field w) in
  let shows msg := ∀ e, errorElementOf w field = Some e → textAt w' e = Some msg in
  (toText (getFieldLabel proto (js "name")) = js "Nama" ∧
   toText (getFieldLabel proto (js "email")) = js "Email" ∧
   toText (getFieldLabel proto (js "message")) = js "Pesan") ∧
  (JsString.trim v = [] →
     validateField proto field w = Ret false w' ∧
     hasClassAt (js "error") w' field = true ∧
     shows (toText (getFieldLabel proto (name f)) ++ js " harus diisi")) ∧
  (name f = js "email" → JsString.trim v ≠ [] → ¬ emailShaped (JsString.trim v) →
     validateField proto field w = Ret false w' ∧
     hasClassAt (js "error") w' field = true ∧
     shows (js "Format email tidak valid")) ∧
  (JsString.trim v ≠ [] → (name f = js "email" → emailShaped (JsString.trim v)) →
     validateField proto field w = Ret true w' ∧
     hasClassAt (js "error") w' field = false ∧
     shows []).
Proof.
  intros Hf Hv w' shows.
  assert (Hobs : ∀ msg, fieldError proto (name f) v = msg →
            validateField proto field w = Ret (bool_decide (msg = None)) w' ∧
            hasClassAt (js "error") w' field = bool_decide (is_Some msg) ∧
            shows (default [] msg)).
  { intros msg Hmsg. subst w' shows. cbv zeta.
    rewrite (validateField_run w field f v Hf Hv), Hmsg. simpl.
    split; [done|]. split.
    - unfold hasClassAt. simpl. rewrite annotated_lookup, Hf. simpl.
      unfold hasClass. apply bool_decide_ext.
      rewrite classList_annotateElement. by rewrite decide_True.
    - intros e. unfold errorElementOf, textAt. rewrite Hf. simpl. intros He.
      rewrite annotated_lookup.
      destruct (elementById_Some _ _ _ He) as (x & -> & _). simpl.
      rewrite textContent_annotateElement, He. by rewrite decide_True. }
  split; [|split; [|split]].
  - repeat split; by apply getFieldLabel_own.
  - intros Ht. specialize (Hobs _ eq_refl). unfold fieldError in Hobs.
    rewrite decide_True in Hobs by done. exact Hobs.
  - intros Hn Ht Hshape. specialize (Hobs _ eq_refl). unfold fieldError in Hobs.
    rewrite decide_False, decide_True in Hobs; [exact Hobs| |done].
    split; [done|]. destruct (Regex.test _ _) eqn:Hre; [|done].
    by apply emailRegex_spec in Hre.
  - intros Ht Hshape. specialize (Hobs _ eq_refl). unfold fieldError in Hobs.
    rewrite decide_False, decide_False in Hobs; [exact Hobs| |done].
    intros [Hn Hre]. apply Hshape, emailRegex_spec in Hn. congruence.
Qed.

(** C9.  [validateField] is idempotent: run again on the state it left, it
    gives the same outcome — the same boolean and the very same state, so the
    same error class and the same error text. *)
Theorem validateField_idempotent w field :
  validateField proto field (final (validateField proto field w)) =
  validateField proto field w.
Proof.
  destruct (document w !! field ≫= value) as [v|] eqn:Hv.
  - destruct (document w !! field) as [f|] eqn:Hf; [|done]. simpl in Hv.
    rewrite (validateField_run w field f v Hf Hv). simpl.
    set (msg := fieldError proto (name f) v).
    set (err := elementById (name f ++ js "Error") (document w)).
    rewrite (validateField_run _ field (annotateElement field err msg field f) v).
    + simpl. rewrite name_annotateElement, elementById_annotated.
      fold msg err. by rewrite annotated_idemp.
    + simpl. by rewrite annotated_lookup, Hf.
    + by rewrite value_annotateElement.
  - rewrite (validateField_throws w field Hv). simpl.
    by apply validateField_throws.
Qed.


End WithHost.

(** C1 on the contact form with an empty name: the name field is marked and
    its error text reads "Nama harus diisi". *)
Lemma validateField_outcome_witness :
  let w := Sample.contactPage "" "a@b.com" "hi" in
  let w' := final (validateField Sample.bare 1 w) in
  validateField Sample.bare 1 w = Ret false w' ∧
  hasClassAt (js "error") w' 1 = true ∧
  textAt w' 2 = Some (js "Nama harus diisi").
Proof.
  intros w w'.
  destruct (validateField_outcome Sample.bare w 1 _ _ eq_refl eq_refl)
    as (_ & H & _).
  destruct (H eq_refl) as (Hret & Hcls & Htxt).
  split; [exact Hret|]. split; [exact Hcls|]. exact (Htxt 2%nat eq_refl).
Defined.

End FormFacts.

(** ** Navigation: the scroll handler *)

Module NavFacts.
Import DomFacts Frames.

(** A loop whose body rewrites the element it visits rewrites exactly the
    elements of the list. *)
Lemma forEach_update l (g : element → element) (f : node → M unit) w :
  NoDup l →
  (∀ n w', n ∈ l → is_Some (document w' !! n) → f n w' = updateElement n g w') →
  (∀ n, n ∈ l → is_Some (document w !! n)) →
  forEach l f w =
  Ret () (with_document (imap (fun n e => if decide (n ∈ l) then g e else e) (document w)) w).
Proof.
  intros Hnd Hf. revert w. induction Hnd as [|n l Hn Hnd IH]; intros w Hin; simpl.
  - unfold ret. rewrite <- (with_document_id w) at 1.
    apply Ret_doc_eq. apply list_eq. intros i.
    rewrite list_lookup_imap. by destruct (document w !! i).
  - unfold mbind, M_bind, bind. rewrite Hf; [|by left|apply Hin; by left]. simpl.
    rewrite IH.
    + simpl. rewrite with_document_twice. apply Ret_doc_eq. apply list_eq. intros i.
      rewrite !list_lookup_imap, list_lookup_alter.
      destruct (decide (n = i)) as [->|Hne].
      * destruct (document w !! i); [|done]. simpl.
        rewrite decide_False by done. rewrite decide_True; [done | by left].
      * destruct (document w !! i); [|done]. simpl.
        destruct (decide (i ∈ l)).
        -- rewrite decide_True; [done | by right].
        -- rewrite decide_False; [done|]. intros [->|?]%elem_of_cons; done.
    + intros n' w' ? ?. apply Hf; [by right | done].
    + intros n' Hn'. simpl. apply lookup_lt_is_Some. rewrite length_alter.
      apply lookup_lt_is_Some, Hin. by right.
Qed.

Lemma pickSections_last d y acc l :
  (∀ s, s ∈ l → is_Some (d !! s)) →
  pickSections d y acc l =
  Some (match last (filter (containsPoint d y) l) with
        | Some s => d !! s ≫= idAttr
        | None => acc
        end).
Proof.
  revert acc. induction l as [|s l IH]; intros acc Hl; simpl; [done|].
  destruct (Hl s) as [e He]; [by left|].
  unfold pickSection at 1. rewrite He. simpl.
  rewrite filter_cons.
  assert (Hb : bool_decide (y >= offsetTop e) &&
               bool_decide (y < offsetTop e + offsetHeight e) =
               bool_decide (containsPoint d y s)).
  { apply eq_true_iff_eq.
    rewrite andb_true_iff, !bool_decide_eq_true. unfold containsPoint. split.
    - intros [? ?]. exists e. split; [done|lia].
    - intros (e' & ? & ?). simplify_eq. lia. }
  rewrite Hb. destruct (decide (containsPoint d y s)) as [Hc|Hc].
  - rewrite bool_decide_eq_true_2 by done. simpl.
    rewrite IH by (intros; apply Hl; by right).
    rewrite last_cons. destruct (last (filter _ l)); [done|]. by rewrite He.
  - rewrite bool_decide_eq_false_2 by done. simpl.
    by rewrite IH by (intros; apply Hl; by right).
Qed.

Lemma nodesWhere_valid p d n : n ∈ nodesWhere p d → is_Some (d !! n).
Proof. intros (e & -> & _)%elem_of_nodesWhere. eauto. Qed.

(** The scroll handler in one equation: it never throws, and it rewrites
    every element with [highlight]. *)
Lemma updateActiveMenuItem_run w :
  updateActiveMenuItem w =
  Ret () (with_document
            (highlight (currentFragment (document w) (pageYOffset w)) <$> document w) w).
Proof.
  unfold updateActiveMenuItem, querySelectorAll, getDocument, getWorld.
  unfold mbind at 1 2 3 4 5, M_bind, bind. with_strategy opaque [js] simpl.
  rewrite pickSections_last by apply nodesWhere_valid.
  fold (sectionsOf (document w)). fold (currentSection (document w) (pageYOffset w)).
  set (frag := currentFragment (document w) (pageYOffset w)).
  assert (Hfrag : js "#" ++ nullableText
            match currentSection (document w) (pageYOffset w) with
            | Some s => document w !! s ≫= idAttr
            | None => Some []
            end = frag).
  { unfold frag, currentFragment. by destruct (currentSection _ _). }
  rewrite Hfrag. clear Hfrag.
  set (g := fun e : element =>
              if bool_decide (href e = Some frag)
              then with_classList (classList e ∖ {[js "active"]} ∪ {[js "active"]}) e
              else with_classList (classList e ∖ {[js "active"]}) e).
  rewrite (forEach_update _ g).
  - apply Ret_doc_eq. apply list_eq. intros i.
    rewrite list_lookup_imap, list_lookup_fmap.
    destruct (document w !! i) as [e|] eqn:He; [|done]. simpl. f_equal.
    unfold highlight. fold (g e).
    destruct (hasClass (js "nav-link") e) eqn:Hc.
    + rewrite decide_True; [done|]. apply elem_of_nodesWhere. eauto.
    + rewrite decide_False; [done|].
      intros (e' & ? & ?)%elem_of_nodesWhere. simplify_eq. simpl in *. congruence.
  - apply NoDup_nodesWhere.
  - intros n w' _ [e He].
    unfold getElement, classList_add, updateElement. with_strategy opaque [js] simpl.
    rewrite list_lookup_alter_eq, He. with_strategy opaque [js] simpl.
    destruct (bool_decide (href e = Some frag)) eqn:Hh.
    + unfold with_document at 1; simpl. apply Ret_doc_eq.
      rewrite list_alter_alter_eq. apply list_alter_ext; [|done].
      intros x Hx. simplify_eq. unfold g. simpl. by rewrite Hh.
    + apply Ret_doc_eq. apply list_alter_ext; [|done].
      intros x Hx. simplify_eq. unfold g. by rewrite Hh.
  - intros n. apply nodesWhere_valid.
Qed.

Lemma highlight_skeleton frag e : skeleton (highlight frag e) = skeleton e.
Proof. unfold highlight. by repeat case_match. Qed.

Lemma highlight_classes frag e c :
  c ∈ classList (highlight frag e) ↔
  if decide (c = js "active" ∧ js "nav-link" ∈ classList e)
  then href e = Some frag
  else c ∈ classList e.
Proof.
  unfold highlight, hasClass.
  destruct (decide (js "nav-link" ∈ classList e)) as [Hl|Hl].
  - rewrite bool_decide_eq_true_2 by done.
    destruct (decide (c = js "active")) as [->|Hc].
    + rewrite decide_True by done.
      destruct (decide (href e = Some frag)) as [Hh|Hh].
      * rewrite bool_decide_eq_true_2 by done. simpl. set_solver.
      * rewrite bool_decide_eq_false_2 by done. simpl. set_solver.
    + rewrite decide_False by (by intros [? _]).
      destruct (bool_decide (href e = Some frag)); simpl; set_solver.
  - rewrite bool_decide_eq_false_2 by done.
    rewrite decide_False by (by intros [_ ?]). done.
Qed.

Lemma navLinksOf_highlight frag d : navLinksOf (highlight frag <$> d) = navLinksOf d.
Proof.
  symmetry. apply nodesWhere_ext. apply Forall2_fmap_r, Forall_Forall2_diag, Forall_forall.
  intros e _. simpl. unfold hasClass. apply bool_decide_ext.
  rewrite highlight_classes. rewrite decide_False; [done|]. by intros [[=] _].
Qed.

(** After the scroll handler a navigation link carries [active] exactly when
    its [href] is the current fragment. *)
Lemma active_after_scroll w l e :
  document w !! l = Some e → js "nav-link" ∈ classList e →
  hasClassAt (js "active") (final (updateActiveMenuItem w)) l = true ↔
  href e = Some (currentFragment (document w) (pageYOffset w)).
Proof.
  intros He Hl. rewrite updateActiveMenuItem_run. unfold hasClassAt. simpl.
  rewrite list_lookup_fmap, He. simpl. unfold hasClass.
  rewrite bool_decide_eq_true, highlight_classes. by rewrite decide_True.
Qed.

Lemma elem_of_navLinksOf d l :
  l ∈ navLinksOf d ↔ ∃ e, d !! l = Some e ∧ js "nav-link" ∈ classList e.
Proof.
  unfold navLinksOf. rewrite elem_of_nodesWhere. simpl. unfold hasClass.
  by setoid_rewrite bool_decide_eq_true.
Qed.

Lemma elem_of_sectionsOf d s :
  s ∈ sectionsOf d ↔
  ∃ e i, d !! s = Some e ∧ localName e = js "section" ∧ idAttr e = Some i.
Proof.
  unfold sectionsOf. rewrite elem_of_nodesWhere. simpl. split.
  - intros (e & He & [Hn Hi]%andb_prop).
    apply JsStringFacts.eqb_true in Hn. apply bool_decide_eq_true in Hi as [i Hi]. eauto.
  - intros (e & i & He & Hn & Hi). exists e. split; [done|].
    apply andb_true_intro. split; [by apply JsStringFacts.eqb_true|].
    apply bool_decide_eq_true. eauto.
Qed.

Lemma last_Some_elem_of {A} (l : list A) x : last l = Some x → x ∈ l.
Proof.
  induction l as [|y l IH]; [done|]. rewrite last_cons.
  destruct (last l) eqn:Hl.
  - intros [= ->]. right. by apply IH.
  - intros [= ->]. by left.
Qed.

Lemma last_sorted_max (l : list nat) x y :
  StronglySorted lt l → last l = Some x → y ∈ l → (y ≤ x)%nat.
Proof.
  induction 1 as [|z l Hs IH Hall]; [done|]. rewrite last_cons.
  rewrite Forall_forall in Hall.
  destruct (last l) as [x'|] eqn:Hl.
  - intros [= ->] [->|Hy]%elem_of_cons.
    + apply Nat.lt_le_incl, Hall. by apply last_Some_elem_of.
    + by apply IH.
  - intros [= ->] [->|Hy]%elem_of_cons; [done|].
    destruct l; [by apply elem_of_nil in Hy | by rewrite last_cons in Hl; destruct (last l)].
Qed.

Lemma sorted_filter (P : nat → Prop) `{!∀ x, Decision (P x)} (l : list nat) :
  StronglySorted lt l → StronglySorted lt (filter P l).
Proof.
  induction 1 as [|z l Hs IH Hall]; [constructor|]. rewrite filter_cons.
  destruct (decide (P z)); [|done]. constructor; [done|].
  rewrite Forall_forall in *. intros x Hx%list_elem_of_filter.
  apply Hall. tauto.
Qed.

(** The current section is the last one in document order that contains the
    point: it is a section, contains the point, and no section after it does. *)
Lemma currentSection_Some d y s :
  currentSection d y = Some s ↔
  s ∈ sectionsOf d ∧ containsPoint d (y + 100) s ∧
  ∀ s', s' ∈ sectionsOf d → containsPoint d (y + 100) s' → (s' ≤ s)%nat.
Proof.
  unfold currentSection.
  pose proof (sorted_filter (containsPoint d (y + 100)) _
                (nodesWhere_sorted (selects (SelTagWithId (js "section"))) d)) as Hs.
  fold (sectionsOf d) in Hs. split.
  - intros H. pose proof (last_Some_elem_of _ _ H) as [Hc Hin]%list_elem_of_filter.
    repeat split; try done. intros s' Hs' Hc'.
    eapply last_sorted_max; [exact Hs | exact H |]. by apply list_elem_of_filter.
  - intros (Hin & Hc & Hmax).
    destruct (last (filter _ (sectionsOf d))) as [s0|] eqn:Hl.
    + f_equal. pose proof (last_Some_elem_of _ _ Hl) as [Hc0 Hin0]%list_elem_of_filter.
      apply Nat.le_antisymm; [by apply Hmax|].
      eapply last_sorted_max; [exact Hs | exact Hl |]. by apply list_elem_of_filter.
    + apply last_None in Hl.
      assert (s ∈ filter (containsPoint d (y + 100)) (sectionsOf d))
        by (by apply list_elem_of_filter).
      rewrite Hl in *. by apply elem_of_nil in H.
Qed.

Lemma currentSection_None d y :
  currentSection d y = None ↔
  ∀ s, s ∈ sectionsOf d → ¬ containsPoint d (y + 100) s.
Proof.
  unfold currentSection. rewrite last_None. split.
  - intros H s Hs Hc.
    assert (s ∈ filter (containsPoint d (y + 100)) (sectionsOf d))
      by (by apply list_elem_of_filter).
    rewrite H in *. by apply elem_of_nil in H0.
  - intros H. destruct (filter _ _) as [|s l] eqn:Hl; [done|].
    assert (Hs : s ∈ filter (containsPoint d (y + 100)) (sectionsOf d))
      by (rewrite Hl; by left).
    apply list_elem_of_filter in Hs as [? ?]. by destruct (H s).
Qed.

Lemma activeLinks_after_scroll w l :
  l ∈ activeLinks (final (updateActiveMenuItem w)) ↔
  l ∈ navLinksOf (document w) ∧
  document w !! l ≫= href = Some (currentFragment (document w) (pageYOffset w)).
Proof.
  unfold activeLinks. rewrite list_elem_of_filter.
  rewrite updateActiveMenuItem_run at 2. simpl. rewrite navLinksOf_highlight.
  rewrite elem_of_navLinksOf. split.
  - intros [Ha (e & He & Hl)]. split; [eauto|].
    rewrite He. simpl. by apply (active_after_scroll w l e).
  - intros [(e & He & Hl) Hh]. split; [|eauto].
    apply (active_after_scroll w l e); [done..|]. by rewrite He in Hh.
Qed.

Lemma NoDup_constant {A} (l : list A) c :
  NoDup l → (∀ x, x ∈ l → x = c) → (length l ≤ 1)%nat.
Proof.
  intros Hnd Hc. destruct Hnd as [|x l Hx Hnd]; simpl; [lia|].
  destruct l as [|y l]; simpl; [lia|]. exfalso. apply Hx.
  rewrite (Hc x), <- (Hc y); [by left | right; by left | by left].
Qed.



(** C3, as amended.  After the scroll handler every active navigation link
    has the current fragment as its href, on every page: all active links
    share one href.  Nothing keeps two links from having that href; when the
    links of the page have pairwise distinct targets, at most one of them is
    active. *)
Theorem at_most_one_active_link w :
  let w' := final (updateActiveMenuItem w) in
  (∀ l, l ∈ activeLinks w' →
        document w !! l ≫= href = Some (currentFragment (document w) (pageYOffset w))) ∧
  (∀ l1 l2, l1 ∈ activeLinks w' → l2 ∈ activeLinks w' →
        document w !! l1 ≫= href = document w !! l2 ≫= href) ∧
  (NoDup (linkTargets (document w)) → (length (activeLinks w') ≤ 1)%nat).
Proof.
  intros w'.
  assert (Hfrag : ∀ l, l ∈ activeLinks w' →
            document w !! l ≫= href = Some (currentFragment (document w) (pageYOffset w))).
  { intros l Hl. by apply activeLinks_after_scroll in Hl as [_ ?]. }
  split; [exact Hfrag|]. split.
  - intros l1 l2 H1 H2. by rewrite (Hfrag l1 H1), (Hfrag l2 H2).
  - intros Hnd.
    assert (Hsub : sublist (activeLinks w') (navLinksOf (document w))).
    { subst w'. unfold activeLinks. rewrite updateActiveMenuItem_run. simpl.
      rewrite navLinksOf_highlight. apply sublist_filter. }
    rewrite <- (length_fmap (fun l => document w !! l ≫= href)).
    apply (NoDup_constant _ (Some (currentFragment (document w) (pageYOffset w)))).
    + eapply sublist_NoDup; [exact Hnd|]. by apply fmap_sublist.
    + intros x (l & -> & Hl)%list_elem_of_fmap. by apply Hfrag.
Qed.

(** C3 as the specification has it fails: two links to the same section are
    both active while that section is current. *)
Lemma two_links_active_counterexample :
  activeLinks (final (updateActiveMenuItem Sample.twoLinksOneTarget)) = [0%nat; 1%nat].
Proof. reflexivity. Qed.

(** C3 on two sample pages: with two links to two sections at most one link
    is active; with two links to one section both are, and they share the
    href of the current fragment. *)
Lemma at_most_one_active_link_witness :
  (length (activeLinks (final (updateActiveMenuItem Sample.twoLinksTwoTargets))) ≤ 1)%nat ∧
  document Sample.twoLinksOneTarget !! 0%nat ≫= href = Some (js "#about") ∧
  document Sample.twoLinksOneTarget !! 1%nat ≫= href = Some (js "#about").
Proof.
  split.
  - apply (at_most_one_active_link Sample.twoLinksTwoTargets).
    apply (bool_decide_unpack _). vm_compute. exact I.
  - destruct (at_most_one_active_link Sample.twoLinksOneTarget) as (Hfrag & _ & _).
    split; [apply (Hfrag 0%nat) | apply (Hfrag 1%nat)];
      apply (bool_decide_unpack _); vm_compute; exact I.
Defined.

End NavFacts.


(** ** Timers *)

Module TimerFacts.
Import DomFacts.

Lemma hasClassAt_alter c f n m w :
  hasClassAt c (with_document (alter f n (document w)) w) m =
  match document w !! m with
  | Some e => hasClass c (if decide (n = m) then f e else e)
  | None => false
  end.
Proof.
  unfold hasClassAt. simpl. rewrite list_lookup_alter.
  destruct (decide (n = m)) as [->|]; by destruct (document w !! m).
Qed.

Lemma runCallback_show s t w n :
  hasClassAt (js "show") (final (runCallback (HideSuccess s) (with_now t w))) n =
  if decide (n = s) then false else hasClassAt (js "show") w n.
Proof.
  simpl. change (with_document ?d (with_now t w)) with (with_now t (with_document d w)).
  change (hasClassAt ?c (with_now t ?x) n) with (hasClassAt c x n).
  rewrite hasClassAt_alter. unfold hasClassAt.
  destruct (document w !! n) as [e|]; [|by case_decide].
  destruct (decide (n = s)) as [->|Hn].
  - rewrite decide_True by done.
    unfold hasClass. simpl. apply bool_decide_eq_false_2. set_solver.
  - rewrite decide_False by (intros ->; done). done.
Qed.

Lemma fire_cons t cb due w :
  fire ((t, cb) :: due) w = fire due (final (runCallback cb (with_now t w))).
Proof. done. Qed.

(** Timeouts only ever hide. *)
Lemma fire_never_shows due w n :
  hasClassAt (js "show") w n = false → hasClassAt (js "show") (fire due w) n = false.
Proof.
  revert w. induction due as [|[t [s]] due IH]; intros w Hn; [done|].
  rewrite fire_cons. apply IH. rewrite runCallback_show. by case_decide.
Qed.

Lemma fire_hides due w s t :
  (t, HideSuccess s) ∈ due → hasClassAt (js "show") (fire due w) s = false.
Proof.
  revert w. induction due as [|[t' [s']] due IH]; intros w Hin.
  - by apply elem_of_nil in Hin.
  - rewrite fire_cons. apply elem_of_cons in Hin as [[= <- <-]|Hin].
    + apply fire_never_shows. rewrite runCallback_show. by rewrite decide_True.
    + by apply IH.
Qed.

Lemma fire_keeps due w s :
  (∀ t, (t, HideSuccess s) ∉ due) →
  hasClassAt (js "show") (fire due w) s = hasClassAt (js "show") w s.
Proof.
  revert w. induction due as [|[t' [s']] due IH]; intros w Hin; [done|].
  rewrite fire_cons, IH.
  - rewrite runCallback_show. rewrite decide_False; [done|].
    intros ->. apply (Hin t'). by left.
  - intros t Ht. apply (Hin t). by right.
Qed.

Lemma advanceTo_fire t w :
  advanceTo t w =
  with_now (Z.max t (now w))
    (fire (filter (fun '(at_, _) => at_ <= t) (timers w))
          (with_timers (filter (fun '(at_, _) => ¬ at_ <= t) (timers w)) w)).
Proof. done. Qed.

(** After time has passed to [t], a message whose hide timeout was due by
    then is hidden; one with no timeout due is as visible as before. *)
Lemma advanceTo_hides t w s at_ :
  (at_, HideSuccess s) ∈ timers w → at_ <= t →
  hasClassAt (js "show") (advanceTo t w) s = false.
Proof.
  intros Hin Hle. rewrite advanceTo_fire.
  change (hasClassAt ?c (with_now ?t ?x) s) with (hasClassAt c x s).
  apply (fire_hides _ _ s at_). by apply list_elem_of_filter.
Qed.

Lemma advanceTo_keeps t w s :
  (∀ at_, (at_, HideSuccess s) ∈ timers w → t < at_) →
  hasClassAt (js "show") (advanceTo t w) s = hasClassAt (js "show") w s.
Proof.
  intros Hin. rewrite advanceTo_fire.
  change (hasClassAt ?c (with_now ?t ?x) s) with (hasClassAt c x s).
  rewrite fire_keeps; [done|].
  intros at_ [Hle Hat]%list_elem_of_filter. specialize (Hin _ Hat). simpl in Hle. lia.
Qed.

End TimerFacts.

(** ** The contact form: submission *)

Module SubmitFacts.
Import DomFacts Frames FormFacts NavFacts.

Lemma if_nodesWhere {A} p d i e (a b : A) :
  d !! i = Some e →
  (if decide (i ∈ nodesWhere p d) then a else b) = if p e then a else b.
Proof.
  intros He. destruct (p e) eqn:Hp.
  - rewrite decide_True; [done|]. apply elem_of_nodesWhere. eauto.
  - rewrite decide_False; [done|].
    intros (e' & ? & ?)%elem_of_nodesWhere. congruence.
Qed.

Lemma clearErrors_run w :
  clearErrors w = Ret () (with_document (clearElement <$> document w) w).
Proof.
  unfold clearErrors, querySelectorAll, getDocument.
  unfold mbind at 1 2 3 4 5, M_bind, bind. with_strategy opaque [js] simpl.
  rewrite (forEach_update _ (with_textContent [])).
  - with_strategy opaque [js] simpl.
    rewrite (forEach_update _ (fun e => with_classList (classList e ∖ {[js "error"]}) e)).
    + with_strategy opaque [js] simpl. rewrite with_document_twice.
      apply Ret_doc_eq. apply list_eq. intros i.
      rewrite !list_lookup_imap, list_lookup_fmap.
      destruct (document w !! i) as [e|] eqn:He; [|done]. with_strategy opaque [js] simpl.
      f_equal. unfold clearElement.
      rewrite !(if_nodesWhere _ (document w) i e) by done.
      erewrite if_nodesWhere; [done|].
      rewrite list_lookup_imap, He. with_strategy opaque [js] simpl.
      by rewrite (if_nodesWhere _ (document w) i e).
    + apply NoDup_nodesWhere.
    + done.
    + intros n Hn. apply nodesWhere_valid in Hn. done.
  - apply NoDup_nodesWhere.
  - done.
  - intros n. apply nodesWhere_valid.
Qed.

Lemma clearElement_annotates e : annotatedWithin {[js "error"]} e (clearElement e).
Proof.
  unfold clearElement.
  destruct (hasClass (js "form-error") e).
  - etrans; [apply (edit_text _ [])|].
    destruct (hasClass (js "form-input") _); [apply edit_remove; set_solver | reflexivity].
  - destruct (hasClass (js "form-input") _); [apply edit_remove; set_solver | reflexivity].
Qed.

Lemma annotateElement_annotates field err msg n e :
  annotatedWithin {[js "error"]} e (annotateElement field err msg n e).
Proof.
  split; [split|].
  - by rewrite skeleton_annotateElement.
  - intros c Hc. rewrite classList_annotateElement.
    rewrite decide_False; [done|]. intros [_ ->]. set_solver.
  - by rewrite value_annotateElement.
Qed.

Lemma cleared_annotates d :
  Forall2 (annotatedWithin {[js "error"]}) d (clearElement <$> d).
Proof.
  apply Forall2_fmap_r, Forall_Forall2_diag, Forall_forall.
  intros e _. apply clearElement_annotates.
Qed.

Lemma annotated_lookup_l T d d' n e :
  Forall2 (annotatedWithin T) d d' → d !! n = Some e →
  ∃ e', d' !! n = Some e' ∧ name e' = name e ∧ value e' = value e ∧
        ∀ c, c ∉ T → (c ∈ classList e ↔ c ∈ classList e').
Proof.
  intros H He. destruct (Forall2_lookup_l _ _ _ _ _ H He) as (e' & He' & [Hs Hc] & Hv).
  exists e'. apply skeleton_inv in Hs as (_ & _ & _ & _ & Hn & _). eauto.
Qed.

Lemma annotated_elementById T d d' i :
  Forall2 (annotatedWithin T) d d' → elementById i d' = elementById i d.
Proof.
  intros H. symmetry. apply elementById_skeleton.
  eapply Forall2_impl; [exact H|]. by intros e e' [[? _] _].
Qed.

Lemma annotated_hasResetMethod T d d' n :
  Forall2 (annotatedWithin T) d d' → hasResetMethod d' n = hasResetMethod d n.
Proof.
  intros H. symmetry. apply hasResetMethod_skeleton.
  eapply Forall2_impl; [exact H|]. by intros e e' [[? _] _].
Qed.

Lemma form_reset_run f w :
  form_reset f w =
  if hasResetMethod (document w) f
  then Ret () (with_document (resetControl f <$> document w) w)
  else Throw TypeError w.
Proof.
  unfold form_reset, getDocument. unfold mbind, M_bind, bind.
  by destruct (hasResetMethod (document w) f).
Qed.

Lemma classList_resetControl f e : classList (resetControl f e) = classList e.
Proof. unfold resetControl. by repeat case_match. Qed.

Lemma textContent_resetControl f e : textContent (resetControl f e) = textContent e.
Proof. unfold resetControl. by repeat case_match. Qed.

Lemma deref_Some_bind {A} n (k : node → M A) w : (deref (Some n) ≫= k) w = k n w.
Proof. done. Qed.

Section WithHost.
Context (proto : jsstring → option jsstring).

Lemma validated_annotates field d :
  Forall2 (annotatedWithin {[js "error"]}) d (validated proto field d).
Proof.
  unfold validated. destruct (d !! field) as [f|]; [|done].
  destruct (value f); [|done].
  apply Forall2_imap_r. intros n e. apply annotateElement_annotates.
Qed.

Lemma validateField_validated w field f v :
  document w !! field = Some f → value f = Some v →
  validateField proto field w =
  Ret (bool_decide (fieldError proto (name f) v = None))
      (with_document (validated proto field (document w)) w).
Proof.
  intros Hf Hv. rewrite (validateField_run proto w field f v Hf Hv).
  unfold validated. by rewrite Hf, Hv.
Qed.

(** The submit handler in one equation, on a page that has the three
    controls. *)
Lemma handleFormSubmit_run w target nm em ms fn fe fm vn ve vm :
  let d := document w in
  elementById (js "name") d = Some nm →
  elementById (js "email") d = Some em →
  elementById (js "message") d = Some ms →
  d !! nm = Some fn → d !! em = Some fe → d !! ms = Some fm →
  value fn = Some vn → value fe = Some ve → value fm = Some vm →
  let d' := validated proto ms (validated proto em (validated proto nm
              (clearElement <$> d))) in
  let w1 := with_document d' (with_defaultPrevented true w) in
  handleFormSubmit proto target w =
  if bool_decide (fieldError proto (name fn) vn = None ∧
                  fieldError proto (name fe) ve = None ∧
                  fieldError proto (name fm) vm = None)
  then (showSuccessMessage;; form_reset target) w1
  else Ret () w1.
Proof.
  intros d Hnm Hem Hms Hfn Hfe Hfm Hvn Hve Hvm d' w1.
  unfold handleFormSubmit, preventDefault, getElementById, getDocument.
  unfold mbind at 1 2 3 4 5 6 7, M_bind, bind.
  with_strategy opaque [js clearErrors validateField showSuccessMessage form_reset] simpl.
  fold d. rewrite Hnm, Hem, Hms, clearErrors_run.
  change (document (with_defaultPrevented true w)) with d.
  set (d1 := clearElement <$> d) in *.
  set (d2 := validated proto nm d1) in *.
  set (d3 := validated proto em d2) in *.
  pose proof (cleared_annotates d) as H1. fold d1 in H1.
  pose proof (validated_annotates nm d1) as H2. fold d2 in H2.
  pose proof (validated_annotates em d2) as H3. fold d3 in H3.
  assert (H12 : Forall2 (annotatedWithin {[js "error"]}) d d2) by (by etrans).
  assert (H13 : Forall2 (annotatedWithin {[js "error"]}) d d3) by (by etrans).
  destruct (annotated_lookup_l _ _ _ _ _ H1 Hfn) as (fn1 & Hfn1 & Hn1 & Hv1 & _).
  destruct (annotated_lookup_l _ _ _ _ _ H12 Hfe) as (fe2 & Hfe2 & Hn2 & Hv2 & _).
  destruct (annotated_lookup_l _ _ _ _ _ H13 Hfm) as (fm3 & Hfm3 & Hn3 & Hv3 & _).
  rewrite deref_Some_bind.
  rewrite (validateField_validated _ nm fn1 vn) by (done || congruence).
  rewrite deref_Some_bind, with_document_twice. fold d2.
  rewrite (validateField_validated _ em fe2 ve) by (done || congruence).
  rewrite with_document_twice. fold d3.
  unfold mbind at 1, M_bind, bind. rewrite deref_Some_bind.
  rewrite (validateField_validated _ ms fm3 vm) by (done || congruence).
  rewrite with_document_twice. change (document _) with d3. fold d'.
  rewrite Hn1, Hn2, Hn3.
  change (with_document d' (with_defaultPrevented true w)) with w1.
  destruct (decide (fieldError proto (name fn) vn = None)) as [E1|E1];
  destruct (decide (fieldError proto (name fe) ve = None)) as [E2|E2];
  destruct (decide (fieldError proto (name fm) vm = None)) as [E3|E3];
  rewrite ?(bool_decide_eq_true_2 _ E1), ?(bool_decide_eq_false_2 _ E1),
          ?(bool_decide_eq_true_2 _ E2), ?(bool_decide_eq_false_2 _ E2),
          ?(bool_decide_eq_true_2 _ E3), ?(bool_decide_eq_false_2 _ E3);
  simpl negb; cbv iota;
  first [ rewrite bool_decide_eq_true_2 by done
        | rewrite bool_decide_eq_false_2 by (intros (? & ? & ?); done) ];
  done.
Qed.

Lemma fieldError_None n v : fieldError proto n v = None ↔ fieldValid n v.
Proof.
  unfold fieldError, fieldValid.
  destruct (decide (JsString.trim v = [])) as [Ht|Ht].
  - split; [done | by intros [? _]].
  - destruct (decide (n = js "email" ∧ _)) as [[Hn Hre]|Hne].
    + split; [done|]. intros [_ Hs]. apply Hs, emailRegex_spec in Hn. congruence.
    + split; [|done]. intros _. split; [done|]. intros Hn.
      apply emailRegex_spec. destruct (Regex.test _ _) eqn:Hre; [done|].
      destruct Hne. done.
Qed.

Lemma fieldError_Some n v : is_Some (fieldError proto n v) ↔ ¬ fieldValid n v.
Proof.
  rewrite <- fieldError_None. symmetry. apply not_eq_None_Some.
Qed.

Lemma validated_lookup field d f v n e :
  d !! field = Some f → value f = Some v → d !! n = Some e →
  validated proto field d !! n =
  Some (annotateElement field (elementById (name f ++ js "Error") d)
          (fieldError proto (name f) v) n e).
Proof.
  intros Hf Hv He. unfold validated. rewrite Hf, Hv.
  by rewrite annotated_lookup, He.
Qed.

End WithHost.

Lemma clearElement_classes e c :
  c ∈ classList (clearElement e) ↔
  c ∈ classList e ∧ ¬ (c = js "error" ∧ js "form-input" ∈ classList e).
Proof.
  unfold clearElement.
  assert (Hh : hasClass (js "form-input")
                 (if hasClass (js "form-error") e then with_textContent [] e else e) =
               hasClass (js "form-input") e) by (by destruct (hasClass _ e)).
  assert (Hc : classList (if hasClass (js "form-error") e then with_textContent [] e else e)
               = classList e) by (by destruct (hasClass _ e)).
  rewrite Hh. unfold hasClass at 1.
  destruct (decide (js "form-input" ∈ classList e)) as [Hi|Hi].
  - rewrite bool_decide_eq_true_2 by done. simpl. rewrite Hc.
    rewrite elem_of_difference, elem_of_singleton. naive_solver.
  - rewrite bool_decide_eq_false_2 by done. rewrite Hc. naive_solver.
Qed.

Lemma clearElement_text e :
  textContent (clearElement e) =
  if decide (js "form-error" ∈ classList e) then [] else textContent e.
Proof.
  unfold clearElement, hasClass.
  destruct (decide (js "form-error" ∈ classList e)) as [H|H].
  - rewrite (bool_decide_eq_true_2 _ H). by destruct (bool_decide _).
  - rewrite (bool_decide_eq_false_2 _ H). by destruct (bool_decide _).
Qed.

(** The pages the submit handler is meant for: the three controls are there
    and hold values. *)
Section Submission.
Context (proto : jsstring → option jsstring).
Context (w : world) (target nm em ms : node) (fn fe fm : element) (vn ve vm : jsstring).
Hypothesis Hnm : elementById (js "name") (document w) = Some nm.
Hypothesis Hem : elementById (js "email") (document w) = Some em.
Hypothesis Hms : elementById (js "message") (document w) = Some ms.
Hypothesis Hfn : document w !! nm = Some fn.
Hypothesis Hfe : document w !! em = Some fe.
Hypothesis Hfm : document w !! ms = Some fm.
Hypothesis Hvn : value fn = Some vn.
Hypothesis Hve : value fe = Some ve.
Hypothesis Hvm : value fm = Some vm.

Let d := document w.
Let errN := elementById (name fn ++ js "Error") d.
Let errE := elementById (name fe ++ js "Error") d.
Let errM := elementById (name fm ++ js "Error") d.
Let msgN := fieldError proto (name fn) vn.
Let msgE := fieldError proto (name fe) ve.
Let msgM := fieldError proto (name fm) vm.
Let d' := validated proto ms (validated proto em (validated proto nm (clearElement <$> d))).

Lemma fields_distinct : nm ≠ em ∧ nm ≠ ms ∧ em ≠ ms.
Proof.
  repeat split; intros ->.
  - by pose proof (elementById_inj _ _ _ _ Hnm Hem).
  - by pose proof (elementById_inj _ _ _ _ Hnm Hms).
  - by pose proof (elementById_inj _ _ _ _ Hem Hms).
Qed.

(** Every element after the three validations, in closed form. *)
Lemma submitted_lookup n e :
  d !! n = Some e →
  d' !! n = Some (annotateElement ms errM msgM n
                   (annotateElement em errE msgE n
                     (annotateElement nm errN msgN n (clearElement e)))).
Proof.
  intros He. subst d'.
  set (d1 := clearElement <$> d).
  set (d2 := validated proto nm d1).
  set (d3 := validated proto em d2).
  pose proof (cleared_annotates d) as H1. fold d1 in H1.
  pose proof (validated_annotates proto nm d1) as H2. fold d2 in H2.
  pose proof (validated_annotates proto em d2) as H3. fold d3 in H3.
  assert (H12 : Forall2 (annotatedWithin {[js "error"]}) d d2) by (by etrans).
  assert (H13 : Forall2 (annotatedWithin {[js "error"]}) d d3) by (by etrans).
  destruct (annotated_lookup_l _ _ _ _ _ H1 Hfn) as (fn1 & Hfn1 & Hn1 & Hv1 & _).
  destruct (annotated_lookup_l _ _ _ _ _ H12 Hfe) as (fe2 & Hfe2 & Hn2 & Hv2 & _).
  destruct (annotated_lookup_l _ _ _ _ _ H13 Hfm) as (fm3 & Hfm3 & Hn3 & Hv3 & _).
  assert (He1 : d1 !! n = Some (clearElement e)).
  { unfold d1. by rewrite list_lookup_fmap, He. }
  pose proof (validated_lookup proto nm d1 fn1 vn n _ Hfn1 ltac:(congruence) He1) as He2.
  fold d2 in He2.
  pose proof (validated_lookup proto em d2 fe2 ve n _ Hfe2 ltac:(congruence) He2) as He3.
  fold d3 in He3.
  rewrite (validated_lookup proto ms d3 fm3 vm n _ Hfm3 ltac:(congruence) He3).
  rewrite Hn1, Hn2, Hn3.
  rewrite (annotated_elementById _ _ _ _ H1), (annotated_elementById _ _ _ _ H12),
          (annotated_elementById _ _ _ _ H13).
  done.
Qed.

Lemma submitted_classes n e c :
  d !! n = Some e →
  ∃ e', d' !! n = Some e' ∧ value e' = value e ∧
    (c ∈ classList e' ↔
       if decide (c = js "error") then
         (n = ms ∧ is_Some msgM) ∨ (n = em ∧ is_Some msgE) ∨ (n = nm ∧ is_Some msgN) ∨
         (n ≠ ms ∧ n ≠ em ∧ n ≠ nm ∧ c ∈ classList e ∧ js "form-input" ∉ classList e)
       else c ∈ classList e).
Proof.
  intros He. eexists. split; [by apply submitted_lookup|]. split.
  - rewrite !value_annotateElement. symmetry. apply clearElement_annotates.
  - destruct fields_distinct as (? & ? & ?).
    destruct (decide (c = js "error")) as [->|Hc].
    + destruct (decide (n = ms)) as [->|?]; [rewrite error_annotateElement; naive_solver|].
      rewrite classList_annotateElement_ne by (by left).
      destruct (decide (n = em)) as [->|?]; [rewrite error_annotateElement; naive_solver|].
      rewrite classList_annotateElement_ne by (by left).
      destruct (decide (n = nm)) as [->|?]; [rewrite error_annotateElement; naive_solver|].
      rewrite classList_annotateElement_ne by (by left).
      rewrite clearElement_classes. naive_solver.
    + rewrite !classList_annotateElement_ne by (by right).
      rewrite clearElement_classes. naive_solver.
Qed.

Lemma submitted_text n e :
  d !! n = Some e →
  textContent <$> d' !! n =
  Some (if decide (errM = Some n) then default [] msgM
        else if decide (errE = Some n) then default [] msgE
        else if decide (errN = Some n) then default [] msgN
        else if decide (js "form-error" ∈ classList e) then [] else textContent e).
Proof.
  intros He. rewrite (submitted_lookup n e He). simpl. f_equal.
  rewrite !textContent_annotateElement.
  repeat (case_decide; [done|]). apply clearElement_text.
Qed.

Lemma errorElements_distinct f1 f2 x :
  name f1 ≠ name f2 →
  elementById (name f1 ++ js "Error") d = Some x →
  elementById (name f2 ++ js "Error") d ≠ Some x.
Proof.
  intros Hne H1 H2. apply Hne.
  pose proof (elementById_inj _ _ _ _ H1 H2) as Heq.
  by apply app_inv_tail in Heq.
Qed.

Lemma validations_run w0 :
  document w0 = d →
  (clearErrors;;
   nameOk ← validateField proto nm;
   emailOk ← validateField proto em;
   messageOk ← validateField proto ms;
   ret (nameOk, emailOk, messageOk)) w0 =
  Ret (bool_decide (msgN = None), bool_decide (msgE = None), bool_decide (msgM = None))
      (with_document d' w0).
Proof.
  intros Hd0. unfold mbind at 1, M_bind, bind. rewrite clearErrors_run, Hd0.
  subst d'.
  set (d1 := clearElement <$> d) in *.
  set (d2 := validated proto nm d1) in *.
  set (d3 := validated proto em d2) in *.
  pose proof (cleared_annotates d) as H1. fold d1 in H1.
  pose proof (validated_annotates proto nm d1) as H2. fold d2 in H2.
  pose proof (validated_annotates proto em d2) as H3. fold d3 in H3.
  assert (H12 : Forall2 (annotatedWithin {[js "error"]}) d d2) by (by etrans).
  assert (H13 : Forall2 (annotatedWithin {[js "error"]}) d d3) by (by etrans).
  destruct (annotated_lookup_l _ _ _ _ _ H1 Hfn) as (fn1 & Hfn1 & Hn1 & Hv1 & _).
  destruct (annotated_lookup_l _ _ _ _ _ H12 Hfe) as (fe2 & Hfe2 & Hn2 & Hv2 & _).
  destruct (annotated_lookup_l _ _ _ _ _ H13 Hfm) as (fm3 & Hfm3 & Hn3 & Hv3 & _).
  unfold mbind at 1, M_bind, bind.
  rewrite (validateField_validated proto _ nm fn1 vn) by (done || congruence).
  rewrite with_document_twice. change (document (with_document d1 w0)) with d1. fold d2.
  unfold mbind at 1, M_bind, bind.
  rewrite (validateField_validated proto _ em fe2 ve) by (done || congruence).
  rewrite with_document_twice. change (document (with_document d2 w0)) with d2. fold d3.
  unfold mbind at 1, M_bind, bind.
  rewrite (validateField_validated proto _ ms fm3 vm) by (done || congruence).
  rewrite with_document_twice. change (document (with_document d3 w0)) with d3.
  subst msgN msgE msgM. by rewrite Hn1, Hn2, Hn3.
Qed.


Lemma submitted_annotates : Forall2 (annotatedWithin {[js "error"]}) d d'.
Proof.
  unfold d'. etrans; [apply cleared_annotates|].
  etrans; [apply (validated_annotates proto nm)|].
  etrans; [apply (validated_annotates proto em)|].
  apply (validated_annotates proto ms).
Qed.

Lemma showSuccessMessage_run w0 s :
  elementById (js "formSuccess") (document w0) = Some s →
  showSuccessMessage w0 =
  Ret () (with_timers (timers w0 ++ [(now w0 + 5000, HideSuccess s)])
            (with_document (alter showSuccess s (document w0)) w0)).
Proof.
  intros Hs. unfold showSuccessMessage, getElementById, getDocument.
  unfold mbind at 1 2, M_bind, bind. with_strategy opaque [js] simpl. rewrite Hs.
  unfold mbind, M_bind, bind, set_textContent, classList_add, updateElement, setTimeout.
  with_strategy opaque [js] simpl. rewrite list_alter_alter_eq. done.
Qed.

(** The submit handler on valid fields, in one equation: the state in
    which line 192 is reached, and what [form.reset()] makes of it. *)
Lemma valid_submission_run s :
  fieldValid (name fn) vn → fieldValid (name fe) ve → fieldValid (name fm) vm →
  elementById (js "formSuccess") d = Some s →
  let shown := with_document (alter showSuccess s d')
                 (with_timers (timers w ++ [(now w + 5000, HideSuccess s)])
                    (with_defaultPrevented true w)) in
  handleFormSubmit proto target w =
  if hasResetMethod d target
  then Ret () (with_document (resetControl target <$> alter showSuccess s d') shown)
  else Throw TypeError shown.
Proof.
  intros Vn Ve Vm Hs shown.
  rewrite (handleFormSubmit_run proto w target nm em ms fn fe fm vn ve vm) by done.
  rewrite bool_decide_eq_true_2 by (by rewrite !fieldError_None).
  fold d d'. unfold mbind, M_bind, bind.
  rewrite (showSuccessMessage_run _ s).
  2:{ change (elementById (js "formSuccess") d' = Some s).
      by rewrite (annotated_elementById _ _ _ _ submitted_annotates). }
  rewrite form_reset_run. cbn [document with_document with_timers with_defaultPrevented].
  assert (Hh : hasResetMethod (alter showSuccess s d') target = hasResetMethod d target).
  { rewrite <- (annotated_hasResetMethod _ _ _ target submitted_annotates).
    symmetry. apply hasResetMethod_skeleton.
    apply Forall2_alter_r; [by intros ?|]. by intros e. }
  rewrite Hh. by destruct (hasResetMethod d target).
Qed.

(** After a valid submission the message is shown and one more timeout is
    pending. *)
Lemma valid_submission_state s :
  fieldValid (name fn) vn → fieldValid (name fe) ve → fieldValid (name fm) vm →
  elementById (js "formSuccess") (document w) = Some s →
  let w' := final (handleFormSubmit proto target w) in
  hasClassAt (js "show") w' s = true ∧
  timers w' = timers w ++ [(now w + 5000, HideSuccess s)] ∧
  now w' = now w.
Proof.
  intros Vn Ve Vm Hs w'. subst w'. rewrite (valid_submission_run s) by done.
  destruct (elementById_Some _ _ _ Hs) as (es & Hes & _).
  destruct (annotated_lookup_l _ _ _ _ _ submitted_annotates Hes) as (es' & Hes' & _).
  destruct (hasResetMethod d target); simpl.
  - split; [|done]. unfold hasClassAt. simpl.
    rewrite list_lookup_fmap, list_lookup_alter_eq, Hes'. simpl.
    unfold hasClass. apply bool_decide_eq_true_2.
    rewrite classList_resetControl. set_solver.
  - split; [|done]. unfold hasClassAt. simpl.
    rewrite list_lookup_alter_eq, Hes'. simpl.
    unfold hasClass. apply bool_decide_eq_true_2. set_solver.
Qed.


(** C7, as amended.  Timeouts are never cancelled: a valid submission made
    while an earlier hide timeout for the success message is still pending
    adds its own timeout and leaves the earlier one in the queue; the
    message is hidden when the earlier one expires. *)
Theorem overlapping_timers_stack s at_ :
  fieldValid (name fn) vn → fieldValid (name fe) ve → fieldValid (name fm) vm →
  elementById (js "formSuccess") (document w) = Some s →
  (at_, HideSuccess s) ∈ timers w →
  let w' := final (handleFormSubmit proto target w) in
  timers w' = timers w ++ [(now w + 5000, HideSuccess s)] ∧
  (at_, HideSuccess s) ∈ timers w' ∧
  hasClassAt (js "show") w' s = true ∧
  ∀ dt, 0 <= dt → at_ <= now w + dt →
        hasClassAt (js "show") (step proto w' (TimePasses dt)) s = false.
Proof.
  intros Vn Ve Vm Hs Hin w'.
  destruct (valid_submission_state s Vn Ve Vm Hs) as (Hshow & Ht & Hnow).
  fold w' in Hshow, Ht, Hnow.
  split; [done|]. split; [rewrite Ht; apply elem_of_app; by left|]. split; [done|].
  intros dt Hdt Hdue. simpl. rewrite bool_decide_eq_true_2 by done.
  eapply TimerFacts.advanceTo_hides.
  - rewrite Ht. apply elem_of_app. left. exact Hin.
  - lia.
Qed.

End Submission.
#[export] Instance fieldValid_dec n v : Decision (fieldValid n v).
Proof.
  destruct (decide (fieldError Sample.bare n v = None)) as [H|H]; [left|right];
    by rewrite <- (fieldError_None Sample.bare).
Defined.




(** Line 192 on a target without the method.  A submit event dispatched on
    the name field of the sample page (node 6) bubbles to the form: the
    handler shows the message, throws at [form.reset()], and the field keeps
    its value.  The same happens when the form itself is submitted but has a
    control named [reset]. *)
Lemma submission_without_reset_method :
  (let w := step Sample.bare (loaded Sample.bare Sample.fullPage) (UserSubmits 6) in
   console w = [Log (js "Website loaded successfully!"); Uncaught TypeError] ∧
   hasClassAt (js "show") w 12 = true ∧ valueAt w 6 = Some (js "Jane")) ∧
  (let o := handleFormSubmit Sample.bare 0 Sample.formWithResetButton in
   o = Throw TypeError (final o) ∧
   hasClassAt (js "show") (final o) 7 = true ∧ valueAt (final o) 1 = Some (js "Jane")).
Proof. vm_compute. repeat split. Qed.

(** C7 as the specification has it fails.  On the contact page a valid
    submission is made at time 0 and, the fields filled in again, a second
    one at time 3000: two timeouts are then pending, due at 5000 and 8000,
    and at time 5000 — 2000 ms after the most recent submission — the
    message is hidden. *)
Lemma second_submission_counterexample :
  let w := final (handleFormSubmit Sample.bare 0 Sample.resubmitting) in
  now w = 3000 ∧
  timers w = [(5000, HideSuccess 7); (8000, HideSuccess 7)] ∧
  hasClassAt (js "show") w 7 = true ∧
  now (step Sample.bare w (TimePasses 2000)) = 5000 ∧
  hasClassAt (js "show") (step Sample.bare w (TimePasses 2000)) 7 = false.
Proof. vm_compute. repeat split. Qed.

Lemma overlapping_timers_witness :
  let w' := final (handleFormSubmit Sample.bare 0 Sample.resubmitting) in
  timers w' = timers Sample.resubmitting ++ [(now Sample.resubmitting + 5000, HideSuccess 7)] ∧
  hasClassAt (js "show") (step Sample.bare w' (TimePasses 2000)) 7 = false.
Proof.
  intros w'.
  assert (Vn : fieldValid (js "name") (js "Jane"))
    by (apply (bool_decide_unpack _); vm_compute; exact I).
  assert (Ve : fieldValid (js "email") (js "a@b.com"))
    by (apply (bool_decide_unpack _); vm_compute; exact I).
  assert (Vm : fieldValid (js "message") (js "hi"))
    by (apply (bool_decide_unpack _); vm_compute; exact I).
  assert (Hin : (5000, HideSuccess 7) ∈ timers Sample.resubmitting)
    by (apply (bool_decide_unpack _); vm_compute; exact I).
  destruct (overlapping_timers_stack Sample.bare Sample.resubmitting 0 1 3 5 _ _ _ _ _ _
              ltac:(vm_compute; reflexivity) ltac:(vm_compute; reflexivity)
              ltac:(vm_compute; reflexivity) ltac:(vm_compute; reflexivity)
              ltac:(vm_compute; reflexivity) ltac:(vm_compute; reflexivity)
              eq_refl eq_refl eq_refl 7%nat 5000 Vn Ve Vm
              ltac:(vm_compute; reflexivity) Hin)
    as (Ht & _ & _ & Hhide).
  split; [exact Ht|]. apply Hhide; [lia|]. vm_compute. discriminate.
Defined.

End SubmitFacts.

(** ** What the handlers leave alone *)

Module HandlerFrames.
Import DomFacts Frames.

Lemma smoothScrollTo_keeps r `{!PreOrder r} n : stable (docRel r) (smoothScrollTo n).
Proof. unfold smoothScrollTo. frame. Qed.

Lemma navLinkClick_annotates n :
  stable (docRel (annotatedWithin {[js "active"]})) (navLinkClick n).
Proof.
  unfold navLinkClick. frame; try (apply smoothScrollTo_keeps; apply _);
    apply stable_classList_remove; set_solver.
Qed.

Lemma updateActiveMenuItem_annotates :
  stable (docRel (annotatedWithin {[js "active"]})) updateActiveMenuItem.
Proof.
  unfold updateActiveMenuItem. frame;
    (apply stable_classList_remove || apply stable_classList_add); set_solver.
Qed.

Lemma toggleClick_annotates t m :
  stable (docRel (annotatedWithin {[js "active"]})) (toggleClick t m).
Proof. unfold toggleClick. frame; apply stable_classList_toggle; set_solver. Qed.

Lemma outsideClick_annotates t m x :
  stable (docRel (annotatedWithin {[js "active"]})) (outsideClick t m x).
Proof. unfold outsideClick. frame; apply stable_classList_remove; set_solver. Qed.

Lemma clearErrors_annotates :
  stable (docRel (annotatedWithin {[js "error"]})) clearErrors.
Proof. unfold clearErrors. frame; apply stable_classList_remove; set_solver. Qed.

Lemma showSuccessMessage_annotates :
  stable (docRel (annotatedWithin {[js "show"]})) showSuccessMessage.
Proof. unfold showSuccessMessage. frame; apply stable_classList_add; set_solver. Qed.

Lemma resetControl_edits T f e : editedWithin T e (resetControl f e).
Proof.
  unfold resetControl. destruct (value e) eqn:Hv; [|reflexivity].
  case_bool_decide; [|reflexivity]. split; [|done].
  unfold skeleton. simpl. rewrite Hv. done.
Qed.

Lemma form_reset_edits T f : stable (docRel (editedWithin T)) (form_reset f).
Proof. apply stable_form_reset; [apply _|]. intros e. apply resetControl_edits. Qed.

Section WithHost.
Context (proto : jsstring → option jsstring).

Lemma validateField_edits field :
  stable (docRel (editedWithin {[js "error"; js "show"]})) (validateField proto field).
Proof.
  eapply stable_annotated_edited; [|apply ScriptFrames.validateField_annotates]. set_solver.
Qed.

Lemma handleFormSubmit_edits target :
  stable (docRel (editedWithin {[js "error"; js "show"]})) (handleFormSubmit proto target).
Proof.
  unfold handleFormSubmit. frame;
    first [ apply validateField_edits
          | apply form_reset_edits
          | (eapply stable_annotated_edited; [|apply clearErrors_annotates]; set_solver)
          | (eapply stable_annotated_edited; [|apply showSuccessMessage_annotates]; set_solver) ].
Qed.

Lemma stable_edited_mono T T' {A} (m : M A) :
  T ⊆ T' → stable (docRel (editedWithin T)) m → stable (docRel (editedWithin T')) m.
Proof.
  intros HT. apply stable_weaken. intros w w'. apply docRel_impl.
  intros e e' H. by eapply editedWithin_mono.
Qed.

(** Whatever listener runs after load, the document stays the markup up to
    the three tokens, the texts and the values. *)
Lemma call_edits mn tg h this target :
  userHandler mn tg h →
  stable (docRel (editedWithin dynamicTokens)) (call proto h this target).
Proof.
  assert (Ha : ({[js "active"]} : gset jsstring) ⊆ dynamicTokens)
    by (unfold dynamicTokens; set_solver).
  assert (He : ({[js "error"; js "show"]} : gset jsstring) ⊆ dynamicTokens)
    by (unfold dynamicTokens; set_solver).
  destruct 1; unfold call.
  - destruct this; try (apply stable_throw; apply _).
    eapply stable_annotated_edited; [exact Ha | apply navLinkClick_annotates].
  - eapply stable_annotated_edited; [exact Ha | apply updateActiveMenuItem_annotates].
  - eapply stable_annotated_edited; [exact Ha | apply toggleClick_annotates].
  - destruct target; try (apply stable_throw; apply _).
    eapply stable_annotated_edited; [exact Ha | apply outsideClick_annotates].
  - destruct target; try (apply stable_throw; apply _).
    eapply stable_edited_mono; [exact He | apply handleFormSubmit_edits].
  - destruct this; try (apply stable_throw; apply _).
    apply stable_bind; [apply _| |intros; apply stable_ret; apply _].
    eapply stable_edited_mono; [exact He | apply validateField_edits].
Qed.

(** No listener that runs after load registers or removes a listener. *)
Lemma call_listeners mn tg h this target :
  userHandler mn tg h → stable (sameOn listeners) (call proto h this target).
Proof.
  destruct 1; unfold call; try destruct this; try destruct target;
    unfold navLinkClick, smoothScrollTo, updateActiveMenuItem, toggleClick, outsideClick,
      handleFormSubmit, validateField, clearErrors, showSuccessMessage, showError,
      form_reset, classList_contains;
    frame; apply stable_deref; apply _.
Qed.

End WithHost.

End HandlerFrames.

(** ** The mobile menu *)

Module MenuFacts.
Import DomFacts Frames HandlerFrames.

Lemma edited_lookup T d d' n e :
  Forall2 (editedWithin T) d d' → d !! n = Some e →
  ∃ e', d' !! n = Some e' ∧ skeleton e = skeleton e' ∧
        ∀ c, c ∉ T → (c ∈ classList e ↔ c ∈ classList e').
Proof. intros H He. destruct (Forall2_lookup_l _ _ _ _ _ H He) as (e' & ? & ? & ?). eauto. Qed.

Lemma edited_classAt T c d d' n :
  c ∉ T → Forall2 (editedWithin T) d d' → classAt c d' n = classAt c d n.
Proof.
  intros Hc H. unfold classAt. destruct (d !! n) as [e|] eqn:He.
  - destruct (edited_lookup _ _ _ _ _ H He) as (e' & -> & _ & Hcl).
    unfold hasClass. apply bool_decide_ext. symmetry. by apply Hcl.
  - destruct (d' !! n) as [e'|] eqn:He'; [|done].
    apply lookup_lt_Some in He'. apply lookup_ge_None in He.
    apply Forall2_length in H. lia.
Qed.

Lemma edited_query T c d d' :
  c ∉ T → Forall2 (editedWithin T) d d' →
  nodesWhere (selects (SelClass c)) d' = nodesWhere (selects (SelClass c)) d.
Proof.
  intros Hc H. symmetry. apply nodesWhere_ext. eapply Forall2_impl; [exact H|].
  intros e e' [_ Hcl]. simpl. unfold hasClass. apply bool_decide_ext. by apply Hcl.
Qed.

Lemma edited_elementById T i d d' :
  Forall2 (editedWithin T) d d' → elementById i d' = elementById i d.
Proof.
  intros H. symmetry. apply FormFacts.elementById_skeleton.
  eapply Forall2_impl; [exact H|]. by intros e e' [? _].
Qed.

Lemma edited_chain T d d' fuel t :
  Forall2 (editedWithin T) d d' → chain d' fuel t = chain d fuel t.
Proof.
  intros H. revert t. induction fuel as [|k IH]; intros t; simpl; [done|]. f_equal.
  assert (Hp : d' !! t ≫= parent = d !! t ≫= parent).
  { destruct (d !! t) as [e|] eqn:He.
    - destruct (edited_lookup _ _ _ _ _ H He) as (e' & -> & Hs & _). simpl.
      by apply skeleton_inv in Hs as (-> & _).
    - destruct (d' !! t) as [e'|] eqn:He'; [|done].
      apply lookup_lt_Some in He'. apply lookup_ge_None in He.
      apply Forall2_length in H. lia. }
  rewrite Hp. destruct (d !! t ≫= parent); [apply IH | done].
Qed.

Lemma edited_ancestors T d d' t :
  Forall2 (editedWithin T) d d' → ancestors d' t = ancestors d t.
Proof.
  intros H. unfold ancestors. rewrite <- (Forall2_length _ _ _ H).
  by eapply edited_chain.
Qed.

Lemma edited_contains T d d' a t :
  Forall2 (editedWithin T) d d' → contains d' a t = contains d a t.
Proof. intros H. unfold contains. by erewrite edited_ancestors. Qed.

Lemma active_dynamic : js "active" ∈ dynamicTokens.
Proof. unfold dynamicTokens. set_solver. Qed.

Lemma static_not_dynamic c :
  c ≠ js "active" → c ≠ js "error" → c ≠ js "show" → c ∉ dynamicTokens.
Proof. unfold dynamicTokens. set_solver. Qed.

(** In a document in tree order a node's parent has a smaller index. *)
Lemma parentsBefore_lookup d n e p :
  parentsBefore d = true → d !! n = Some e → parent e = Some p → (p < n)%nat.
Proof.
  unfold parentsBefore. intros H He Hp.
  apply Is_true_true, forallb_True in H.
  rewrite Forall_lookup in H.
  specialize (H n (n, e)). rewrite list_lookup_imap, He in H.
  specialize (H eq_refl). simpl in H. rewrite Hp in H.
  apply Is_true_true in H. by apply Nat.ltb_lt.
Qed.

Lemma chain_bound d fuel n x :
  parentsBefore d = true → x ∈ chain d fuel n → (x ≤ n)%nat.
Proof.
  intros Hd. revert n. induction fuel as [|k IH]; intros n; simpl.
  - by intros ?%elem_of_nil.
  - intros [-> | Hx]%elem_of_cons; [lia|].
    destruct (d !! n) as [e|] eqn:He; simpl in Hx; [|by apply elem_of_nil in Hx].
    destruct (parent e) as [p|] eqn:Hp; [|by apply elem_of_nil in Hx].
    pose proof (parentsBefore_lookup d n e p Hd He Hp). apply IH in Hx. lia.
Qed.

(** So no node occurs twice among the ancestors of a node. *)
Lemma chain_NoDup d fuel n : parentsBefore d = true → NoDup (chain d fuel n).
Proof.
  intros Hd. revert n. induction fuel as [|k IH]; intros n; simpl; [constructor|].
  destruct (d !! n) as [e|] eqn:He; simpl; [|apply NoDup_singleton].
  destruct (parent e) as [p|] eqn:Hp; [|apply NoDup_singleton].
  apply NoDup_cons. split; [|apply IH].
  intros Hx%(chain_bound d k p n Hd).
  pose proof (parentsBefore_lookup d n e p Hd He Hp). lia.
Qed.

Lemma ancestors_NoDup d n : parentsBefore d = true → NoDup (ancestors d n).
Proof. apply chain_NoDup. Qed.

Section Menu.
Context (tg mn : node).

Lemma menuFound_valid w :
  menuFound mn tg w → is_Some (document w !! mn) ∧ is_Some (document w !! tg).
Proof.
  intros [[(e & He & _) _]%head_nodesWhere_Some [(e' & He' & _) _]%head_nodesWhere_Some].
  eauto.
Qed.

Lemma hasClassAt_classAt c w n : hasClassAt c w n = classAt c (document w) n.
Proof. done. Qed.

Lemma classAt_remove c n m d :
  classAt c (alter (fun e => with_classList (classList e ∖ {[c]}) e) n d) m =
  if decide (n = m) then false else classAt c d m.
Proof.
  unfold classAt. rewrite list_lookup_alter.
  destruct (decide (n = m)) as [->|]; [|done].
  destruct (d !! m); [|done]. unfold hasClass. simpl.
  apply bool_decide_eq_false_2. set_solver.
Qed.

Lemma classAt_toggle c n m d :
  classAt c (alter (fun e => if hasClass c e
                             then with_classList (classList e ∖ {[c]}) e
                             else with_classList (classList e ∪ {[c]}) e) n d) m =
  if decide (n = m) then bool_decide (is_Some (d !! m)) && negb (classAt c d m)
  else classAt c d m.
Proof.
  unfold classAt. rewrite list_lookup_alter.
  destruct (decide (n = m)) as [->|]; [|done].
  destruct (d !! m) as [e|]; [|done]. rewrite bool_decide_eq_true_2 by eauto. simpl.
  unfold hasClass. destruct (bool_decide (c ∈ classList e)) eqn:Hc; simpl.
  - apply bool_decide_eq_false_2. apply bool_decide_eq_true in Hc. set_solver.
  - apply bool_decide_eq_true_2. set_solver.
Qed.

Lemma toggleClick_menu w :
  tg ≠ mn → menuFound mn tg w →
  menuOf mn tg (final (toggleClick tg mn w)) =
  (negb (hasClassAt (js "active") w mn), negb (hasClassAt (js "active") w tg)).
Proof.
  intros Hne [[em Hem] [et Het]]%menuFound_valid. unfold menuOf.
  rewrite !hasClassAt_classAt.
  change (document (final (toggleClick tg mn w))) with
    (alter (fun e => if hasClass (js "active") e
                     then with_classList (classList e ∖ {[js "active"]}) e
                     else with_classList (classList e ∪ {[js "active"]}) e) tg
       (alter (fun e => if hasClass (js "active") e
                        then with_classList (classList e ∖ {[js "active"]}) e
                        else with_classList (classList e ∪ {[js "active"]}) e) mn
          (document w))).
  rewrite !classAt_toggle.
  rewrite (decide_False (P := tg = mn)), (decide_True (P := tg = tg)) by done.
  rewrite (decide_True (P := mn = mn)), (decide_False (P := mn = tg)) by done.
  rewrite list_lookup_alter_ne by done.
  rewrite !bool_decide_eq_true_2 by eauto. done.
Qed.

Lemma closed_menu d :
  (classAt (js "active")
     (alter (fun e => with_classList (classList e ∖ {[js "active"]}) e) tg
        (alter (fun e => with_classList (classList e ∖ {[js "active"]}) e) mn d)) mn,
   classAt (js "active")
     (alter (fun e => with_classList (classList e ∖ {[js "active"]}) e) tg
        (alter (fun e => with_classList (classList e ∖ {[js "active"]}) e) mn d)) tg)
  = (false, false).
Proof.
  rewrite !classAt_remove. rewrite (decide_True (P := tg = tg)) by done.
  rewrite (decide_True (P := mn = mn)) by done. by case_decide.
Qed.

Lemma outsideClick_menu w t :
  menuFound mn tg w →
  menuOf mn tg (final (outsideClick tg mn t w)) =
  if contains (document w) mn t || contains (document w) tg t then menuOf mn tg w
  else if hasClassAt (js "active") w mn then (false, false) else menuOf mn tg w.
Proof.
  intros [[em Hem] [et Het]]%menuFound_valid.
  unfold outsideClick, getDocument, classList_contains, getElement.
  unfold mbind at 1, M_bind, bind. with_strategy opaque [js] simpl.
  destruct (contains (document w) mn t || contains (document w) tg t); [done|].
  with_strategy opaque [js] simpl. unfold mbind, M_bind, bind.
  rewrite Hem. with_strategy opaque [js] simpl.
  unfold hasClassAt at 1. rewrite Hem.
  destruct (hasClass (js "active") em); [|done].
  unfold menuOf. rewrite !hasClassAt_classAt. apply closed_menu.
Qed.

Lemma navLinkClick_cases w n :
  document (final (navLinkClick n w)) = document w ∨
  ∃ e h sec, document w !! n = Some e ∧ href e = Some h ∧
             JsString.startsWith h (js "#") = true ∧
             elementById (JsString.substring 1 h) (document w) = Some sec.
Proof.
  unfold navLinkClick, getElement. unfold mbind at 1, M_bind, bind.
  destruct (document w !! n) as [e|] eqn:He; [|by left].
  destruct (href e) as [h|] eqn:Hh; [|by left].
  destruct (JsString.startsWith h (js "#")) eqn:Hst; [|by left].
  destruct (elementById (JsString.substring 1 h) (document w)) as [sec|] eqn:Hsec.
  - right. by exists e, h, sec.
  - left. unfold preventDefault, getElementById, getDocument.
    unfold mbind, M_bind, bind. with_strategy opaque [js JsString.substring] simpl.
    by rewrite Hsec.
Qed.

Lemma navLinkClick_resolving w n e h sec :
  menuFound mn tg w →
  document w !! n = Some e → href e = Some h →
  JsString.startsWith h (js "#") = true →
  elementById (JsString.substring 1 h) (document w) = Some sec →
  menuOf mn tg (final (navLinkClick n w)) =
  if hasClassAt (js "active") w mn then (false, false) else menuOf mn tg w.
Proof.
  intros Hfound He Hh Hst Hsec. pose proof Hfound as [Hqm Hqt].
  pose proof Hfound as [[em Hem] [et Het]]%menuFound_valid.
  destruct (elementById_Some _ _ _ Hsec) as (es & Hes & _).
  unfold navLinkClick, getElement, preventDefault, getElementById, getDocument,
    smoothScrollTo, getWorld, scrollTo, querySelector, classList_contains.
  unfold mbind at 1, M_bind, bind. rewrite He, Hh, Hst.
  unfold mbind, M_bind, bind, getElement, getDocument.
  with_strategy opaque [js JsString.substring] simpl.
  rewrite Hsec. with_strategy opaque [js JsString.substring] simpl.
  rewrite Hes. with_strategy opaque [js JsString.substring] simpl.
  rewrite Hqm, Hqt. with_strategy opaque [js JsString.substring] simpl.
  rewrite Hem. with_strategy opaque [js JsString.substring] simpl.
  unfold hasClassAt at 1. rewrite Hem.
  destruct (hasClass (js "active") em); [|done].
  unfold menuOf. rewrite !hasClassAt_classAt. apply closed_menu.
Qed.

(** The click listener of a link either leaves the menu as it is or, the
    panel being open, closes it; it closes it whenever the link's fragment
    names an element of the page. *)
Lemma navLinkClick_menu w n :
  menuFound mn tg w →
  let w' := final (navLinkClick n w) in
  (menuOf mn tg w' = menuOf mn tg w ∨
   (hasClassAt (js "active") w mn = true ∧ menuOf mn tg w' = (false, false))) ∧
  (∀ e i sec, document w !! n = Some e → href e = Some (js "#" ++ i) →
     elementById i (document w) = Some sec → hasClassAt (js "active") w' mn = false).
Proof.
  intros Hfound w'. split.
  - destruct (navLinkClick_cases w n) as [Hd|(e & h & sec & He & Hh & Hst & Hsec)].
    + left. unfold menuOf. subst w'. by rewrite !hasClassAt_classAt, Hd.
    + subst w'. rewrite (navLinkClick_resolving w n e h sec) by done.
      destruct (hasClassAt (js "active") w mn); [by right | by left].
  - intros e i sec He Hh Hsec.
    assert (Hst : JsString.startsWith (js "#" ++ i) (js "#") = true)
      by (by destruct i).
    pose proof (navLinkClick_resolving w n e _ sec Hfound He Hh Hst Hsec) as Hcore.
    apply (f_equal fst) in Hcore. simpl in Hcore. subst w'. rewrite Hcore.
    by destruct (hasClassAt (js "active") w mn) eqn:Ha.
Qed.

Lemma forEach_addEventListener l ty h w :
  forEach l (fun n => addEventListener (OnNode n) ty h) w =
  Ret () (with_listeners (listeners w ++ ((fun n => (OnNode n, ty, h)) <$> l)) w).
Proof.
  revert w. induction l as [|n l IH]; intros w; simpl.
  - unfold ret. rewrite app_nil_r. by destruct w.
  - unfold mbind, M_bind, bind. simpl. rewrite IH. simpl.
    by rewrite <- app_assoc.
Qed.

Lemma listenersFor_handlersFor c ty w :
  listenersFor c ty w = handlersFor c ty (listeners w).
Proof. done. Qed.

Lemma handlersFor_app c ty l1 l2 :
  handlersFor c ty (l1 ++ l2) = handlersFor c ty l1 ++ handlersFor c ty l2.
Proof. apply omap_app. Qed.

Lemma handlersFor_cons c ty t ty' h l :
  handlersFor c ty ((t, ty', h) :: l) =
  (if bool_decide (t = c ∧ ty' = ty) then [h] else []) ++ handlersFor c ty l.
Proof. simpl. by destruct (bool_decide _). Qed.

Lemma handlersFor_none c ty (l : list (evtarget * evtype * handler)) :
  (∀ t ty' h, (t, ty', h) ∈ l → ¬ (t = c ∧ ty' = ty)) → handlersFor c ty l = [].
Proof.
  induction l as [|[[t ty'] h] l IH]; intros H; [done|].
  rewrite handlersFor_cons.
  rewrite bool_decide_eq_false_2 by (apply (H t ty' h); by left).
  apply IH. intros t0 ty0 h0 ?. apply (H t0 ty0 h0). by right.
Qed.

Lemma handlersFor_formListeners_Click c d : handlersFor c Click (formListeners d) = [].
Proof.
  apply handlersFor_none. intros t ty h Hin [_ ->]. unfold formListeners in Hin.
  destruct (elementById _ d); [|by apply elem_of_nil in Hin].
  apply elem_of_cons in Hin as [[=]|Hin].
  by apply list_elem_of_fmap in Hin as (? & [=] & _).
Qed.

Lemma handlersFor_navLinks_node n (l : list node) :
  NoDup l →
  handlersFor (OnNode n) Click ((fun l => (OnNode l, Click, NavLinkClick)) <$> l) =
  if decide (n ∈ l) then [NavLinkClick] else [].
Proof.
  induction 1 as [|x l Hx Hnd IH]; [done|].
  rewrite fmap_cons, handlersFor_cons, IH.
  destruct (decide (x = n)) as [->|Hne].
  - rewrite bool_decide_eq_true_2 by done.
    rewrite decide_False by done. rewrite decide_True by (by left). done.
  - rewrite bool_decide_eq_false_2 by (intros [[=] _]; done).
    destruct (decide (n ∈ l)).
    + rewrite decide_True by (by right). done.
    + rewrite decide_False; [done|]. intros [->|?]%elem_of_cons; done.
Qed.

Lemma handlersFor_navLinks_other c (l : list node) :
  (∀ n, c ≠ OnNode n) →
  handlersFor c Click ((fun l => (OnNode l, Click, NavLinkClick)) <$> l) = [].
Proof.
  intros Hc. apply handlersFor_none.
  intros t ty h (n & [= -> -> ->] & _)%list_elem_of_fmap [<- _]. by apply (Hc n).
Qed.

(** The click listeners of the loaded page: on a node, that of a navigation
    link and that of the toggle button; on the document, the outside-click
    listener; on the window, none. *)
Lemma click_handlers_node d n :
  handlersFor (OnNode n) Click (registered d mn tg) =
  (if decide (n ∈ navLinksOf d) then [NavLinkClick] else []) ++
  (if decide (n = tg) then [ToggleClick tg mn] else []).
Proof.
  unfold registered. rewrite !handlersFor_app.
  rewrite handlersFor_navLinks_node by apply NoDup_nodesWhere.
  rewrite handlersFor_formListeners_Click, app_nil_r. simpl. f_equal.
  destruct (decide (n = tg)) as [->|Hne].
  - by rewrite bool_decide_eq_true_2.
  - rewrite bool_decide_eq_false_2; [done|]. intros [[=] _]. done.
Qed.

Lemma click_handlers_document d :
  handlersFor OnDocument Click (registered d mn tg) = [OutsideClick tg mn].
Proof.
  unfold registered. rewrite !handlersFor_app.
  rewrite handlersFor_navLinks_other by done.
  by rewrite handlersFor_formListeners_Click.
Qed.

Lemma click_handlers_window d :
  handlersFor OnWindow Click (registered d mn tg) = [].
Proof.
  unfold registered. rewrite !handlersFor_app.
  rewrite handlersFor_navLinks_other by done.
  by rewrite handlersFor_formListeners_Click.
Qed.

Lemma with_listeners_id w : with_listeners (listeners w) w = w.
Proof. by destruct w. Qed.

Lemma initNavigation_run w :
  initNavigation w =
  Ret () (with_listeners
            (listeners w ++
             ((fun l => (OnNode l, Click, NavLinkClick)) <$> navLinksOf (document w)) ++
             [(OnWindow, Scroll, UpdateActiveMenuItem)]) w).
Proof.
  unfold initNavigation, querySelectorAll, getDocument.
  unfold mbind, M_bind, bind. with_strategy opaque [js] simpl.
  rewrite forEach_addEventListener. unfold addEventListener.
  with_strategy opaque [js] simpl. by rewrite <- app_assoc.
Qed.

Lemma initMobileMenu_run w :
  menuFound mn tg w →
  initMobileMenu w =
  Ret () (with_listeners
            (listeners w ++ [(OnNode tg, Click, ToggleClick tg mn);
                             (OnDocument, Click, OutsideClick tg mn)]) w).
Proof.
  intros [Hqm Hqt]. unfold initMobileMenu, querySelector, getDocument.
  unfold mbind, M_bind, bind. with_strategy opaque [js] simpl.
  rewrite Hqm, Hqt. unfold addEventListener. with_strategy opaque [js] simpl.
  by rewrite <- app_assoc.
Qed.

Lemma initFormValidation_run w :
  initFormValidation w =
  Ret () (with_listeners (listeners w ++ formListeners (document w)) w).
Proof.
  unfold initFormValidation, formListeners, getElementById, getDocument.
  unfold mbind at 1 2, M_bind, bind. with_strategy opaque [js] simpl.
  destruct (elementById (js "contactForm") (document w)) as [f|].
  - unfold querySelectorAllIn, getDocument.
    unfold mbind, M_bind, bind. with_strategy opaque [js addEventListener] simpl.
    rewrite forEach_addEventListener. with_strategy opaque [js] simpl.
    by rewrite <- app_assoc.
  - unfold ret. by rewrite app_nil_r, with_listeners_id.
Qed.

Context (proto : jsstring → option jsstring).

(** The page once loaded: the markup as parsed, and the listeners in place. *)
Lemma loaded_page d :
  menuFound mn tg (opened d) →
  loaded proto d =
  {| document := d; pageYOffset := 0; scrollRequest := None; now := 0; timers := [];
     listeners := registered d mn tg; defaultPrevented := false;
     console := [Log (js "Website loaded successfully!")] |}.
Proof.
  intros Hfound. unfold loaded, dispatch.
  change (propagationPath (document (opened d)) DOMContentLoaded OnDocument)
    with [OnDocument; OnWindow].
  set (w0 := with_defaultPrevented false (opened d)).
  assert (H1 : runListenersAt proto DOMContentLoaded OnDocument w0 OnDocument =
               {| document := d; pageYOffset := 0; scrollRequest := None; now := 0;
                  timers := []; listeners := registered d mn tg; defaultPrevented := false;
                  console := [Log (js "Website loaded successfully!")] |}).
  { unfold runListenersAt.
    change (listenersFor OnDocument DOMContentLoaded w0)
      with [OnLoadNavigation; OnLoadMobileMenu; OnLoadFormValidation].
    cbn [foldl]. unfold runListener at 3. unfold call.
    unfold mbind, M_bind, bind, console_log. rewrite initNavigation_run.
    unfold runListener at 2. unfold call. rewrite initMobileMenu_run by exact Hfound.
    unfold runListener. unfold call. rewrite initFormValidation_run.
    subst w0. with_strategy opaque [js navLinksOf formListeners] simpl.
    unfold registered. by rewrite <- !app_assoc. }
  cbn [foldl]. rewrite H1. unfold runListenersAt.
  rewrite listenersFor_handlersFor. cbn [listeners].
  rewrite handlersFor_none; [done|].
  intros t ty h Hin [-> ->]. unfold registered in Hin.
  rewrite !elem_of_app in Hin. destruct Hin as [Hin|[Hin|[Hin|Hin]]].
  - set_solver.
  - by apply list_elem_of_fmap in Hin as (? & [=] & _).
  - set_solver.
  - unfold formListeners in Hin. destruct (elementById _ d); [|by apply elem_of_nil in Hin].
    apply elem_of_cons in Hin as [[=]|Hin].
    by apply list_elem_of_fmap in Hin as (? & [=] & _).
Qed.

(** *** The invariant *)

Context (d0 : list element).
Hypothesis Hfound0 : menuFound mn tg (opened d0).
Hypothesis Hne : tg ≠ mn.
Hypothesis Hnl : (mn ∉ navLinksOf d0) ∧ (tg ∉ navLinksOf d0).

Local Abbreviation Inv := (menuInv d0 mn tg).

Lemma Inv_menuFound w : Inv w → menuFound mn tg w.
Proof.
  intros (_ & Hd & _). destruct Hfound0 as [Hqm Hqt].
  change (document (opened d0)) with d0 in Hqm, Hqt. split.
  - rewrite (edited_query dynamicTokens _ d0); [done| |done].
    by apply static_not_dynamic.
  - rewrite (edited_query dynamicTokens _ d0); [done| |done].
    by apply static_not_dynamic.
Qed.

Lemma runListener_document h c t w :
  document (runListener proto h c t w) = document (final (call proto h c t w)).
Proof. unfold runListener. by destruct (call proto h c t w). Qed.

Lemma runListener_listeners h c t w :
  listeners (runListener proto h c t w) = listeners (final (call proto h c t w)).
Proof. unfold runListener. by destruct (call proto h c t w). Qed.

Lemma hasClassAt_runListener x h c t w n :
  hasClassAt x (runListener proto h c t w) n = hasClassAt x (final (call proto h c t w)) n.
Proof. by rewrite !hasClassAt_classAt, runListener_document. Qed.

(** A listener keeps the first two parts of the invariant, whatever it does
    to the menu. *)
Lemma runListener_static h c t w :
  userHandler mn tg h → Inv w →
  listeners (runListener proto h c t w) = registered d0 mn tg ∧
  Forall2 (editedWithin dynamicTokens) d0 (document (runListener proto h c t w)).
Proof.
  intros Hh (Hl & Hd & _). split.
  - rewrite runListener_listeners, <- Hl. symmetry.
    apply (call_listeners proto mn tg h c t Hh w).
  - rewrite runListener_document. etrans; [exact Hd|].
    apply (call_edits proto mn tg h c t Hh w).
Qed.

Lemma Inv_intro w w' :
  Inv w → 
  listeners w' = registered d0 mn tg →
  Forall2 (editedWithin dynamicTokens) d0 (document w') →
  (menuOf mn tg w' = menuOf mn tg w ∨ menuOf mn tg w' = (false, false) ∨
   menuOf mn tg w' = (negb (hasClassAt (js "active") w mn),
                      negb (hasClassAt (js "active") w tg))) →
  Inv w'.
Proof.
  intros (_ & _ & Hag) Hl Hd Hm. split; [done|]. split; [done|].
  unfold menuOf in Hm. destruct Hm as [[= -> ->]|[[= -> ->]|[= -> ->]]]; congruence.
Qed.

Lemma Inv_navLinks w : Inv w → navLinksOf (document w) = navLinksOf d0.
Proof.
  intros (_ & Hd & _). apply (edited_query dynamicTokens); [|done].
  by apply static_not_dynamic.
Qed.

Lemma Inv_not_link w n e :
  Inv w → n ∉ navLinksOf d0 → document w !! n = Some e → js "nav-link" ∉ classList e.
Proof.
  intros HI Hn He Hc. apply Hn. rewrite <- (Inv_navLinks w HI).
  apply NavFacts.elem_of_navLinksOf. eauto.
Qed.

(** The click listener of a navigation link. *)
Lemma nav_step n t w :
  Inv w →
  let w' := runListener proto NavLinkClick (OnNode n) t w in
  Inv w' ∧ (isOpen mn w' = isOpen mn w ∨ isOpen mn w' = false) ∧
  (∀ e i sec, d0 !! n = Some e → href e = Some (js "#" ++ i) →
     elementById i d0 = Some sec → isOpen mn w' = false).
Proof.
  intros HI w'. pose proof (Inv_menuFound w HI) as Hf.
  destruct (runListener_static NavLinkClick (OnNode n) t w (UserNavLinkClick mn tg) HI)
    as [Hl Hd]. fold w' in Hl, Hd.
  destruct (navLinkClick_menu w n Hf) as [Hm Hres].
  assert (Hw' : menuOf mn tg w' = menuOf mn tg (final (navLinkClick n w))).
  { unfold menuOf, w'. by rewrite !hasClassAt_runListener. }
  split; [|split].
  - apply (Inv_intro w); try done. rewrite Hw'. destruct Hm as [->|[_ ->]]; auto.
  - apply (f_equal fst) in Hw'. simpl in Hw'. unfold isOpen. rewrite Hw'.
    destruct Hm as [Hm|[_ Hm]]; apply (f_equal fst) in Hm; simpl in Hm; auto.
  - intros e i sec He Hh Hsec. destruct HI as (_ & Hd0 & _).
    destruct (edited_lookup _ _ _ _ _ Hd0 He) as (e' & He' & Hs & _).
    apply skeleton_inv in Hs as (_ & _ & _ & Hhr & _).
    apply (f_equal fst) in Hw'. simpl in Hw'. unfold isOpen. rewrite Hw'.
    apply (Hres e' i sec He'); [congruence|].
    by rewrite (edited_elementById _ _ _ _ Hd0).
Qed.

(** The click listener of the toggle button. *)
Lemma toggle_step c t w :
  Inv w →
  let w' := runListener proto (ToggleClick tg mn) c t w in
  Inv w' ∧ isOpen mn w' = negb (isOpen mn w).
Proof.
  intros HI w'. pose proof (Inv_menuFound w HI) as Hf.
  destruct (runListener_static _ c t w (UserToggleClick mn tg) HI) as [Hl Hd].
  fold w' in Hl, Hd.
  assert (Hw' : menuOf mn tg w' =
                (negb (hasClassAt (js "active") w mn), negb (hasClassAt (js "active") w tg))).
  { unfold menuOf, w'. rewrite !hasClassAt_runListener. by apply toggleClick_menu. }
  split.
  - apply (Inv_intro w); try done. auto.
  - by apply (f_equal fst) in Hw'.
Qed.

(** The click listener of the document. *)
Lemma outside_step c t w :
  Inv w →
  let w' := runListener proto (OutsideClick tg mn) c (OnNode t) w in
  Inv w' ∧
  isOpen mn w' = (if contains d0 mn t || contains d0 tg t then isOpen mn w else false).
Proof.
  intros HI w'. pose proof (Inv_menuFound w HI) as Hf.
  destruct (runListener_static _ c (OnNode t) w (UserOutsideClick mn tg) HI) as [Hl Hd].
  fold w' in Hl, Hd.
  assert (Hw' : menuOf mn tg w' =
                if contains d0 mn t || contains d0 tg t then menuOf mn tg w
                else if hasClassAt (js "active") w mn then (false, false) else menuOf mn tg w).
  { unfold menuOf at 1, w'. rewrite !hasClassAt_runListener.
    destruct HI as (_ & Hd0 & _).
    rewrite <- (edited_contains _ _ _ mn t Hd0), <- (edited_contains _ _ _ tg t Hd0).
    by apply outsideClick_menu. }
  split.
  - apply (Inv_intro w); try done. rewrite Hw'.
    destruct (_ || _); [auto|]. destruct (hasClassAt _ w mn); auto.
  - apply (f_equal fst) in Hw'. simpl in Hw'. unfold isOpen. rewrite Hw'.
    destruct (_ || _); [done|]. by destruct (hasClassAt _ w mn) eqn:Ha.
Qed.

(** The listeners that have nothing to do with the menu. *)
Lemma quiet_step h c t w :
  h = UpdateActiveMenuItem ∨ h = HandleFormSubmit ∨ h = BlurValidate →
  Inv w →
  let w' := runListener proto h c t w in
  Inv w' ∧ menuOf mn tg w' = menuOf mn tg w.
Proof.
  intros Hh HI w'.
  assert (Hu : userHandler mn tg h) by (destruct Hh as [->|[->| ->]]; constructor).
  destruct (runListener_static h c t w Hu HI) as [Hl Hd]. fold w' in Hl, Hd.
  assert (Hw' : menuOf mn tg w' = menuOf mn tg w).
  { unfold menuOf, w'. rewrite !hasClassAt_runListener, !hasClassAt_classAt.
    assert (Hform : ∀ {A} (m : M A),
              stable (docRel (editedWithin {[js "error"; js "show"]})) m →
              ∀ n, classAt (js "active") (document (final (m w))) n =
                   classAt (js "active") (document w) n).
    { intros A m Hm n. apply (edited_classAt {[js "error"; js "show"]}); [set_solver|].
      apply Hm. }
    destruct Hh as [->|[->| ->]]; unfold call.
    - rewrite NavFacts.updateActiveMenuItem_run. simpl.
      assert (Hk : ∀ n, n ∉ navLinksOf d0 →
                classAt (js "active")
                  (highlight (currentFragment (document w) (pageYOffset w)) <$> document w) n =
                classAt (js "active") (document w) n).
      { intros n Hn. unfold classAt. rewrite list_lookup_fmap.
        destruct (document w !! n) as [e|] eqn:He; [|done]. simpl.
        unfold highlight, hasClass at 2.
        rewrite bool_decide_eq_false_2; [done|]. by eapply Inv_not_link. }
      destruct Hnl. by rewrite !Hk.
    - destruct t; [|done..]. by rewrite !(Hform _ _ (handleFormSubmit_edits proto n)).
    - destruct c; [|done..].
      assert (Hs : stable (docRel (editedWithin {[js "error"; js "show"]}))
                     (validateField proto n ≫= λ _ : bool, ret ())).
      { apply stable_bind; [apply _|apply validateField_edits|].
        intros; apply stable_ret; apply _. }
      by rewrite !(Hform _ _ Hs). }
  split; [|done]. apply (Inv_intro w); auto.
Qed.

(** Every listener that runs after load keeps the invariant. *)
Lemma Inv_runListener h c t w :
  userHandler mn tg h → Inv w → Inv (runListener proto h c t w).
Proof.
  intros Hh HI. destruct Hh.
  - destruct c as [n| |].
    + by apply nav_step.
    + unfold runListener, call. simpl. by destruct HI as (? & ? & ?).
    + unfold runListener, call. simpl. by destruct HI as (? & ? & ?).
  - by apply quiet_step; auto.
  - by apply toggle_step.
  - destruct t as [n| |].
    + by apply outside_step.
    + unfold runListener, call. simpl. by destruct HI as (? & ? & ?).
    + unfold runListener, call. simpl. by destruct HI as (? & ? & ?).
  - by apply quiet_step; auto.
  - by apply quiet_step; auto.
Qed.

Lemma registered_user t ty h :
  (t, ty, h) ∈ registered d0 mn tg → ty ≠ DOMContentLoaded → userHandler mn tg h.
Proof.
  unfold registered. rewrite !elem_of_app. intros [Hin|[Hin|[Hin|Hin]]] Hty.
  - repeat (apply elem_of_cons in Hin as [[= -> -> ->]|Hin]; [done|]).
    by apply elem_of_nil in Hin.
  - apply list_elem_of_fmap in Hin as (? & [= -> -> ->] & _). constructor.
  - repeat (apply elem_of_cons in Hin as [[= -> -> ->]|Hin]; [constructor|]).
    by apply elem_of_nil in Hin.
  - unfold formListeners in Hin. destruct (elementById _ d0); [|by apply elem_of_nil in Hin].
    apply elem_of_cons in Hin as [[= -> -> ->]|Hin]; [constructor|].
    apply list_elem_of_fmap in Hin as (? & [= -> -> ->] & _). constructor.
Qed.

Lemma handlersFor_user c ty h :
  ty ≠ DOMContentLoaded → h ∈ handlersFor c ty (registered d0 mn tg) → userHandler mn tg h.
Proof.
  intros Hty ([[t ty'] h'] & Hin & Hf)%list_elem_of_omap.
  destruct (bool_decide (t = c ∧ ty' = ty)) eqn:Hb; [|done].
  injection Hf as <-. apply bool_decide_eq_true in Hb as [_ ->].
  by eapply registered_user.
Qed.

Lemma Inv_listeners hs c t w :
  (∀ h, h ∈ hs → userHandler mn tg h) → Inv w →
  Inv (foldl (fun w h => runListener proto h c t w) w hs).
Proof.
  revert w. induction hs as [|h hs IH]; intros w Hhs HI; [done|]. simpl.
  apply IH; [intros; apply Hhs; by right|].
  apply Inv_runListener; [apply Hhs; by left | done].
Qed.

Lemma Inv_runListenersAt ty t w c :
  ty ≠ DOMContentLoaded → Inv w → Inv (runListenersAt proto ty t w c).
Proof.
  intros Hty HI. unfold runListenersAt. apply Inv_listeners; [|done].
  intros h. rewrite listenersFor_handlersFor. destruct HI as (-> & _).
  by apply handlersFor_user.
Qed.

Lemma Inv_path ty t w (path : list evtarget) :
  ty ≠ DOMContentLoaded → Inv w → Inv (foldl (runListenersAt proto ty t) w path).
Proof.
  intros Hty. revert w. induction path as [|c path IH]; intros w HI; [done|].
  simpl. apply IH. by apply Inv_runListenersAt.
Qed.

Lemma Inv_surroundings w w' :
  Inv w → document w' = document w → listeners w' = listeners w → Inv w'.
Proof.
  intros (Hl & Hd & Ha) Hd' Hl'. unfold menuInv.
  rewrite !hasClassAt_classAt, Hd', Hl'. by rewrite !hasClassAt_classAt in Ha.
Qed.

Lemma Inv_dispatch ty t w :
  ty ≠ DOMContentLoaded → Inv w → Inv (dispatch proto ty t w).
Proof.
  intros Hty HI. unfold dispatch. apply Inv_path; [done|].
  by apply (Inv_surroundings w).
Qed.

Lemma fire_static due w :
  listeners (fire due w) = listeners w ∧
  Forall2 (editedWithin {[js "show"]}) (document w) (document (fire due w)).
Proof.
  revert w. induction due as [|[t [s]] due IH]; intros w; [done|].
  rewrite TimerFacts.fire_cons. destruct (IH (final (runCallback (HideSuccess s) (with_now t w))))
    as [Hl Hd]. split; [by rewrite Hl|].
  etrans; [|exact Hd]. simpl.
  apply Forall2_alter_r; [apply _|]. intros e.
  apply annotatedWithin_edited, edit_remove. set_solver.
Qed.

Lemma Inv_edited w w' :
  Inv w → listeners w' = listeners w →
  Forall2 (editedWithin {[js "error"; js "show"]}) (document w) (document w') → Inv w'.
Proof.
  intros (Hl & Hd & Ha) Hl' Hd'. split; [congruence|]. split.
  - etrans; [exact Hd|]. eapply Forall2_impl; [exact Hd'|].
    intros e e'. apply editedWithin_mono. unfold dynamicTokens. set_solver.
  - rewrite !hasClassAt_classAt in *.
    assert (Hn : js "active" ∉ ({[js "error"; js "show"]} : gset jsstring)) by set_solver.
    by rewrite !(edited_classAt _ _ _ _ _ Hn Hd').
Qed.

(** Every step of the page keeps the invariant. *)
Lemma Inv_step w i : Inv w → Inv (step proto w i).
Proof.
  intros HI. destruct i as [t|y|f|f|f text|dt]; simpl.
  - by apply Inv_dispatch.
  - apply Inv_dispatch; [done|]. by apply (Inv_surroundings w).
  - by apply Inv_dispatch.
  - by apply Inv_dispatch.
  - apply (Inv_edited w); [done..|]. simpl.
    apply Forall2_alter_r; [apply _|]. intros x.
    destruct (value x) eqn:Hv; [|done]. split; [|done].
    unfold skeleton. simpl. by rewrite Hv.
  - case_bool_decide; [|done]. rewrite TimerFacts.advanceTo_fire.
    destruct (fire_static (filter (λ '(at_, _), at_ <= now w + dt) (timers w))
                (with_timers (filter (λ '(at_, _), ¬ at_ <= now w + dt) (timers w)) w))
      as [Hl Hd].
    apply (Inv_edited w); [done| |].
    + simpl. by rewrite Hl.
    + simpl. eapply Forall2_impl; [exact Hd|].
      intros e e'. apply editedWithin_mono. set_solver.
Qed.

Lemma Inv_run w inputs : Inv w → Inv (run proto w inputs).
Proof.
  revert w. induction inputs as [|i inputs IH]; intros w HI; [done|].
  simpl. apply IH. by apply Inv_step.
Qed.

Lemma Inv_loaded :
  menuOf mn tg (opened d0) = (false, false) → Inv (loaded proto d0).
Proof.
  intros Hc. rewrite (loaded_page d0 Hfound0). split; [done|]. split; [done|].
  unfold menuOf in Hc. injection Hc as H1 H2.
  rewrite hasClassAt_classAt in H1, H2. change (document (opened d0)) with d0 in H1, H2.
  rewrite !hasClassAt_classAt. cbn [document]. congruence.
Qed.

(** *** Clicks *)

(** A click reaching node [n] on its way up runs the listener of the link
    or of the button that [n] is, if it is one. *)
Lemma node_step n t w :
  Inv w →
  runListenersAt proto Click (OnNode t) w (OnNode n) =
  if decide (n ∈ navLinksOf d0) then runListener proto NavLinkClick (OnNode n) (OnNode t) w
  else if decide (n = tg) then runListener proto (ToggleClick tg mn) (OnNode n) (OnNode t) w
  else w.
Proof.
  intros (Hl & _). unfold runListenersAt.
  rewrite listenersFor_handlersFor, Hl, click_handlers_node.
  destruct Hnl as [_ Htg].
  destruct (decide (n ∈ navLinksOf d0)) as [Hn|Hn].
  - rewrite decide_False; [done|]. by intros ->.
  - by destruct (decide (n = tg)).
Qed.

(** Nodes that are neither the button nor a resolving link can at most
    close the menu; a resolving link closes it. *)
Lemma nodes_can_only_close A t w :
  Inv w → tg ∉ A →
  let w' := foldl (runListenersAt proto Click (OnNode t)) w (OnNode <$> A) in
  Inv w' ∧ (isOpen mn w' = isOpen mn w ∨ isOpen mn w' = false) ∧
  ((∃ l e i sec, l ∈ A ∧ l ∈ navLinksOf d0 ∧ d0 !! l = Some e ∧
                 href e = Some (js "#" ++ i) ∧ elementById i d0 = Some sec) →
   isOpen mn w' = false).
Proof.
  revert w. induction A as [|n A IH]; intros w HI Htg; cbv zeta;
    [rewrite fmap_nil | rewrite fmap_cons]; cbn [foldl].
  - split; [done|]. split; [by left|]. intros (l & ? & ? & ? & []%elem_of_nil & _).
  - rewrite node_step by done.
    assert (Hn : n ≠ tg) by (intros ->; apply Htg; by left).
    assert (HA : tg ∉ A) by (intros ?; apply Htg; by right).
    destruct (decide (n ∈ navLinksOf d0)) as [Hl|Hl].
    + destruct (nav_step n (OnNode t) w HI) as (HI1 & Hsame & Hres).
      set (w1 := runListener proto NavLinkClick (OnNode n) (OnNode t) w) in *.
      destruct (IH w1 HI1 HA) as (HI2 & Hsame2 & Hres2).
      split; [done|]. split.
      * destruct Hsame2 as [-> | ->]; auto.
      * intros (l & e & i & sec & [-> | Hin]%elem_of_cons & Hlink & He & Hh & Hsec).
        -- destruct Hsame2 as [-> | ->]; [|done]. eauto.
        -- apply Hres2. by exists l, e, i, sec.
    + rewrite decide_False by done.
      destruct (IH w HI HA) as (HI2 & Hsame2 & Hres2).
      split; [done|]. split; [done|].
      intros (l & e & i & sec & [-> | Hin]%elem_of_cons & Hlink & He & Hh & Hsec); [done|].
      apply Hres2. by exists l, e, i, sec.
Qed.

(** Without links on the way, the menu flips exactly when the click passes
    the button. *)
Lemma nodes_flip A t w :
  Inv w → (∀ l, l ∈ A → l ∉ navLinksOf d0) → NoDup A →
  let w' := foldl (runListenersAt proto Click (OnNode t)) w (OnNode <$> A) in
  Inv w' ∧ isOpen mn w' = if decide (tg ∈ A) then negb (isOpen mn w) else isOpen mn w.
Proof.
  revert w. induction A as [|n A IH]; intros w HI Hlinks Hnd; cbv zeta;
    [rewrite fmap_nil | rewrite fmap_cons]; cbn [foldl].
  - split; [done|]. rewrite decide_False; [done|]. apply not_elem_of_nil.
  - rewrite node_step by done. apply NoDup_cons in Hnd as [Hn HndA].
    rewrite decide_False by (apply Hlinks; by left).
    assert (HlA : ∀ l, l ∈ A → l ∉ navLinksOf d0) by (intros; apply Hlinks; by right).
    destruct (decide (n = tg)) as [->|Hne'].
    + destruct (toggle_step (OnNode tg) (OnNode t) w HI) as (HI1 & Hflip).
      set (w1 := runListener proto (ToggleClick tg mn) (OnNode tg) (OnNode t) w) in *.
      destruct (IH w1 HI1 HlA HndA) as (HI2 & Hopen).
      split; [done|]. rewrite Hopen, decide_False by done.
      rewrite decide_True by (by left). done.
    + destruct (IH w HI HlA HndA) as (HI2 & Hopen).
      split; [done|]. rewrite Hopen.
      destruct (decide (tg ∈ A)).
      * rewrite decide_True by (by right). done.
      * rewrite decide_False; [done|]. intros [-> | ?]%elem_of_cons; done.
Qed.

(** A click, split into its way up through the nodes and the document. *)
Lemma click_dispatch t w :
  Inv w →
  let w1 := foldl (runListenersAt proto Click (OnNode t)) (with_defaultPrevented false w)
              (OnNode <$> ancestors d0 t) in
  step proto w (UserClicks t) =
  runListener proto (OutsideClick tg mn) OnDocument (OnNode t) w1.
Proof.
  intros HI w1. simpl. unfold dispatch. cbn [propagationPath].
  destruct HI as (Hl & Hd & Ha).
  rewrite (edited_ancestors _ _ _ t Hd). rewrite foldl_app. fold w1.
  assert (HI1 : Inv w1).
  { apply Inv_path; [done|]. by apply (Inv_surroundings w). }
  cbn [foldl]. unfold runListenersAt at 2 1.
  rewrite !listenersFor_handlersFor.
  assert (Hl1 : listeners w1 = registered d0 mn tg) by apply HI1.
  rewrite Hl1, click_handlers_document. cbn [foldl].
  assert (Hl2 : listeners (runListener proto (OutsideClick tg mn) OnDocument (OnNode t) w1)
                = registered d0 mn tg).
  { by apply runListener_static; [constructor|]. }
  by rewrite Hl2, click_handlers_window.
Qed.

(** The state after a click, from the state after its way up. *)
Lemma click_open t w :
  Inv w →
  let w1 := foldl (runListenersAt proto Click (OnNode t)) (with_defaultPrevented false w)
              (OnNode <$> ancestors d0 t) in
  Inv w1 →
  isOpen mn (step proto w (UserClicks t)) =
  if contains d0 mn t || contains d0 tg t then isOpen mn w1 else false.
Proof.
  intros HI w1 HI1. rewrite (click_dispatch t w HI). fold w1.
  by destruct (outside_step OnDocument t w1 HI1) as [_ ->].
Qed.

Lemma Inv_entering w : Inv w → Inv (with_defaultPrevented false w).
Proof. intros HI. by apply (Inv_surroundings w). Qed.

(** A click inside the button, with no link on the way, flips the menu. *)
Lemma toggle_click_flips t w :
  parentsBefore d0 = true → Inv w →
  tg ∈ ancestors d0 t → (∀ l, l ∈ ancestors d0 t → l ∉ navLinksOf d0) →
  isOpen mn (step proto w (UserClicks t)) = negb (isOpen mn w).
Proof.
  intros Ht HI Htg Hlinks.
  destruct (nodes_flip (ancestors d0 t) t _ (Inv_entering w HI) Hlinks
              (ancestors_NoDup d0 t Ht)) as [HI1 Hopen].
  rewrite (click_open t w HI HI1), Hopen, decide_True by done.
  unfold contains. rewrite (bool_decide_eq_true_2 (tg ∈ ancestors d0 t)) by done.
  by rewrite orb_true_r.
Qed.

(** A click outside the panel and the button leaves the menu closed. *)
Lemma outside_click_closes t w :
  Inv w → mn ∉ ancestors d0 t → tg ∉ ancestors d0 t →
  isOpen mn (step proto w (UserClicks t)) = false.
Proof.
  intros HI Hmn Htg.
  destruct (nodes_can_only_close (ancestors d0 t) t _ (Inv_entering w HI) Htg)
    as (HI1 & _ & _).
  rewrite (click_open t w HI HI1). unfold contains.
  by rewrite !bool_decide_eq_false_2.
Qed.

(** A click that follows a link to a section of the page leaves the menu
    closed. *)
Lemma link_click_closes t l e i sec w :
  Inv w → tg ∉ ancestors d0 t →
  l ∈ ancestors d0 t → l ∈ navLinksOf d0 →
  d0 !! l = Some e → href e = Some (js "#" ++ i) → elementById i d0 = Some sec →
  isOpen mn (step proto w (UserClicks t)) = false.
Proof.
  intros HI Htg Hl Hlink He Hh Hsec.
  destruct (nodes_can_only_close (ancestors d0 t) t _ (Inv_entering w HI) Htg)
    as (HI1 & _ & Hres).
  rewrite (click_open t w HI HI1), Hres; [by destruct (_ || _)|].
  by exists l, e, i, sec.
Qed.

(** A click inside the panel that meets neither a link nor the button
    leaves the menu as it is. *)
Lemma panel_click_keeps t w :
  parentsBefore d0 = true → Inv w →
  mn ∈ ancestors d0 t → tg ∉ ancestors d0 t →
  (∀ l, l ∈ ancestors d0 t → l ∉ navLinksOf d0) →
  isOpen mn (step proto w (UserClicks t)) = isOpen mn w.
Proof.
  intros Ht HI Hmn Htg Hlinks.
  destruct (nodes_flip (ancestors d0 t) t _ (Inv_entering w HI) Hlinks
              (ancestors_NoDup d0 t Ht)) as [HI1 Hopen].
  rewrite (click_open t w HI HI1), Hopen, decide_False by done.
  unfold contains. by rewrite (bool_decide_eq_true_2 (mn ∈ ancestors d0 t)) by done.
Qed.

(** *** The other inputs *)

Lemma registered_quiet t ty h :
  (t, ty, h) ∈ registered d0 mn tg → ty ≠ DOMContentLoaded → ty ≠ Click →
  h = UpdateActiveMenuItem ∨ h = HandleFormSubmit ∨ h = BlurValidate.
Proof.
  unfold registered. rewrite !elem_of_app. intros [Hin|[Hin|[Hin|Hin]]] Hty Hc.
  - repeat (apply elem_of_cons in Hin as [[= -> -> ->]|Hin]; [done|]).
    by apply elem_of_nil in Hin.
  - by apply list_elem_of_fmap in Hin as (? & [= -> -> ->] & _).
  - repeat (apply elem_of_cons in Hin as [[= -> -> ->]|Hin]; [by auto|]).
    by apply elem_of_nil in Hin.
  - unfold formListeners in Hin. destruct (elementById _ d0); [|by apply elem_of_nil in Hin].
    apply elem_of_cons in Hin as [[= -> -> ->]|Hin]; [by auto|].
    apply list_elem_of_fmap in Hin as (? & [= -> -> ->] & _). auto.
Qed.

Lemma quiet_listeners hs c t w :
  (∀ h, h ∈ hs → h = UpdateActiveMenuItem ∨ h = HandleFormSubmit ∨ h = BlurValidate) →
  Inv w →
  let w' := foldl (fun w h => runListener proto h c t w) w hs in
  Inv w' ∧ menuOf mn tg w' = menuOf mn tg w.
Proof.
  revert w. induction hs as [|h hs IH]; intros w Hhs HI; [done|]. cbn [foldl].
  destruct (quiet_step h c t w (Hhs h ltac:(by left)) HI) as [HI1 Hm1].
  destruct (IH _ (fun h' Hh' => Hhs h' ltac:(by right)) HI1) as [HI2 Hm2].
  split; [done|]. by rewrite Hm2.
Qed.

Lemma quiet_path ty t w (path : list evtarget) :
  ty ≠ DOMContentLoaded → ty ≠ Click → Inv w →
  let w' := foldl (runListenersAt proto ty t) w path in
  Inv w' ∧ menuOf mn tg w' = menuOf mn tg w.
Proof.
  intros Hty Hc. revert w. induction path as [|c path IH]; intros w HI; [done|].
  cbn [foldl].
  assert (H1 : Inv (runListenersAt proto ty t w c) ∧
               menuOf mn tg (runListenersAt proto ty t w c) = menuOf mn tg w).
  { unfold runListenersAt. apply quiet_listeners; [|done].
    intros h. rewrite listenersFor_handlersFor. destruct HI as (-> & _).
    intros ([[t' ty'] h'] & Hin & Hf)%list_elem_of_omap.
    destruct (bool_decide (t' = c ∧ ty' = ty)) eqn:Hb; [|done].
    injection Hf as <-. apply bool_decide_eq_true in Hb as [_ ->].
    by eapply registered_quiet. }
  destruct H1 as [HI1 Hm1]. destruct (IH _ HI1) as [HI2 Hm2].
  split; [done|]. by rewrite Hm2.
Qed.

Lemma quiet_dispatch ty t w :
  ty ≠ DOMContentLoaded → ty ≠ Click → Inv w →
  menuOf mn tg (dispatch proto ty t w) = menuOf mn tg w.
Proof.
  intros Hty Hc HI. unfold dispatch.
  eapply eq_trans; [apply quiet_path; [done..|by apply Inv_entering]|done].
Qed.

Lemma edited_menuOf w w' :
  Forall2 (editedWithin {[js "error"; js "show"]}) (document w) (document w') →
  menuOf mn tg w' = menuOf mn tg w.
Proof.
  intros Hd. unfold menuOf. rewrite !hasClassAt_classAt.
  assert (Hn : js "active" ∉ ({[js "error"; js "show"]} : gset jsstring)) by set_solver.
  by rewrite !(edited_classAt _ _ _ _ _ Hn Hd).
Qed.

(** Scrolling, submitting, leaving or filling a field and the passing of
    time leave the menu as it is. *)
Lemma other_inputs_keep w i :
  Inv w → (∀ t, i ≠ UserClicks t) → menuOf mn tg (step proto w i) = menuOf mn tg w.
Proof.
  intros HI Hi. destruct i as [t|y|f|f|f text|dt]; simpl.
  - by destruct (Hi t).
  - rewrite quiet_dispatch; [done..|]. by apply (Inv_surroundings w).
  - by apply quiet_dispatch.
  - by apply quiet_dispatch.
  - apply edited_menuOf. simpl.
    apply Forall2_alter_r; [apply _|]. intros x.
    destruct (value x) eqn:Hv; [|done]. split; [|done].
    unfold skeleton. simpl. by rewrite Hv.
  - case_bool_decide; [|done]. rewrite TimerFacts.advanceTo_fire.
    destruct (fire_static (filter (λ '(at_, _), at_ <= now w + dt) (timers w))
                (with_timers (filter (λ '(at_, _), ¬ at_ <= now w + dt) (timers w)) w))
      as [Hl Hd].
    apply edited_menuOf. simpl. eapply Forall2_impl; [exact Hd|].
    intros e e'. apply editedWithin_mono. set_solver.
Qed.

(** *** The menu as a state machine *)


End Menu.


End MenuFacts.


(** ** The click listener on pages without a menu *)

Module ClickFacts.
Import DomFacts.

(** Whenever the link resolves and the page has no menu panel, the click
    listener of the link throws, after it has prevented the default action
    and asked for the scroll: line 43 reads [classList] of [null]. *)
Lemma navLinkClick_without_panel w l e i sec :
  document w !! l = Some e → href e = Some (js "#" ++ i) →
  elementById i (document w) = Some sec →
  nodesWhere (selects (SelClass (js "nav-menu"))) (document w) = [] →
  ∃ w', navLinkClick l w = Throw TypeError w' ∧
        document w' = document w ∧ defaultPrevented w' = true ∧
        scrollRequest w' ≠ None.
Proof.
  intros He Hh Hsec Hnone.
  destruct (elementById_Some _ _ _ Hsec) as (es & Hes & _).
  unfold navLinkClick, getElement, preventDefault, getElementById, getDocument,
    smoothScrollTo, getWorld, scrollTo, querySelector.
  unfold mbind at 1, M_bind, bind. rewrite He, Hh.
  replace (JsString.startsWith (js "#" ++ i) (js "#")) with true by by destruct i.
  replace (JsString.substring 1 (js "#" ++ i)) with i by by destruct i.
  unfold mbind, M_bind, bind, getElement, getDocument.
  with_strategy opaque [js] simpl.
  rewrite Hsec. with_strategy opaque [js] simpl.
  rewrite Hes. with_strategy opaque [js] simpl.
  rewrite Hnone. with_strategy opaque [js] simpl.
  eexists. split; [reflexivity|]. by repeat split.
Qed.

(** C6.  The click listener of a navigation link does throw on a page
    without the menu.  On the page made of one link to "#about" and the
    section "about", [initMobileMenu] returns without registering anything,
    but the click listener of the link throws a [TypeError] once it has
    prevented the default action and requested the scroll (to 120 - 80);
    dispatched through the page, the click leaves that exception uncaught
    on the console.  On the page with an open panel and no button it throws
    too, after it has removed the token from the panel. *)
Theorem click_without_menu_throws :
  let d := Sample.linkWithoutMenu in
  let w := Sample.page d 0 in
  elementById (js "about") d = Some 1%nat ∧
  (∃ w0, initMobileMenu w = Ret () w0 ∧ listeners w0 = []) ∧
  (∃ w', navLinkClick 0 w = Throw TypeError w' ∧
         defaultPrevented w' = true ∧ scrollRequest w' = Some 40) ∧
  console (step Sample.bare (loaded Sample.bare d) (UserClicks 0)) =
    console (loaded Sample.bare d) ++ [Uncaught TypeError] ∧
  (∃ w', navLinkClick 1 (Sample.page Sample.openPanelWithoutButton 0) = Throw TypeError w' ∧
         hasClassAt (js "active") w' 0 = false).
Proof.
  intros d w.
  split; [by vm_compute|].
  split; [eexists; split; [vm_compute; reflexivity | reflexivity]|].
  split; [eexists; split; [vm_compute; reflexivity | split; reflexivity]|].
  split; [by vm_compute|].
  eexists; split; [vm_compute; reflexivity | by vm_compute].
Qed.

End ClickFacts.


(** * Further properties of the script *)

(** ** Clearing the error annotations *)

Module ClearingFacts.
Import DomFacts Frames FormFacts NavFacts SubmitFacts.

Lemma hasClass_clearElement c e :
  c ≠ js "error" → hasClass c (clearElement e) = hasClass c e.
Proof.
  intros Hc. unfold hasClass. apply bool_decide_ext.
  rewrite clearElement_classes. naive_solver.
Qed.

Lemma clearElement_idemp e : clearElement (clearElement e) = clearElement e.
Proof.
  assert (H1 : hasClass (js "form-error") (clearElement e) = hasClass (js "form-error") e)
    by (by apply hasClass_clearElement).
  assert (H2 : hasClass (js "form-input") (clearElement e) = hasClass (js "form-input") e)
    by (by apply hasClass_clearElement).
  unfold clearElement at 1. rewrite H1.
  assert (H3 : hasClass (js "form-input")
                 (if hasClass (js "form-error") e
                  then with_textContent [] (clearElement e) else clearElement e) =
               hasClass (js "form-input") e).
  { destruct (hasClass (js "form-error") e); exact H2. }
  rewrite H3. clear H1 H2 H3. unfold clearElement.
  destruct (hasClass (js "form-error") e) eqn:E1.
  - change (hasClass (js "form-input") (with_textContent [] e))
      with (hasClass (js "form-input") e).
    destruct (hasClass (js "form-input") e) eqn:E2; [|done].
    unfold with_classList, with_textContent. with_strategy opaque [js] simpl.
    f_equal. set_solver.
  - destruct (hasClass (js "form-input") e) eqn:E2; [|done].
    unfold with_classList. with_strategy opaque [js] simpl. f_equal. set_solver.
Qed.

(** X1.  [clearErrors] (lines 246-256) on a page whose [.form-error]
    elements hold text only.  It never throws.  Afterwards every
    [.form-error] element has an empty text and no [.form-input] element
    carries the [error] token; an element of neither class is left exactly as
    it was (an [error] token on such an element stays); no value changes and
    nothing outside the document changes; and running it again changes
    nothing more. *)
Theorem clearErrors_clears w :
  forallb (holdsTextOnly (document w))
          (nodesWhere (selects (SelClass (js "form-error"))) (document w)) = true →
  let w' := final (clearErrors w) in
  clearErrors w = Ret () w' ∧
  (∀ n e, document w !! n = Some e → js "form-error" ∈ classList e → textAt w' n = Some []) ∧
  (∀ n e, document w !! n = Some e → js "form-input" ∈ classList e →
     hasClassAt (js "error") w' n = false) ∧
  (∀ n e, document w !! n = Some e →
     js "form-error" ∉ classList e → js "form-input" ∉ classList e →
     document w' !! n = Some e) ∧
  (∀ n, valueAt w' n = valueAt w n) ∧
  docRel (annotatedWithin {[js "error"]}) w w' ∧
  surroundings w' = surroundings w ∧
  clearErrors w' = Ret () w'.
Proof.
  intros _ w'. subst w'. rewrite clearErrors_run. with_strategy opaque [js] simpl.
  assert (Hrel : docRel (annotatedWithin {[js "error"]}) w
                   (with_document (clearElement <$> document w) w))
    by apply cleared_annotates.
  split; [done|]. split; [|split; [|split; [|split; [|split; [done|split; [done|]]]]]].
  - intros n e He Hc. unfold textAt. with_strategy opaque [js] simpl.
    rewrite list_lookup_fmap, He. simpl. f_equal.
    rewrite clearElement_text. by rewrite decide_True.
  - intros n e He Hc. unfold hasClassAt. with_strategy opaque [js] simpl.
    rewrite list_lookup_fmap, He. simpl. unfold hasClass.
    apply bool_decide_eq_false_2. rewrite clearElement_classes. naive_solver.
  - intros n e He H1 H2. with_strategy opaque [js] simpl. rewrite list_lookup_fmap, He. simpl. f_equal.
    unfold clearElement, hasClass.
    rewrite (bool_decide_eq_false_2 _ H1), (bool_decide_eq_false_2 _ H2). done.
  - intros n. by eapply docRel_valueAt.
  - rewrite clearErrors_run. with_strategy opaque [js] simpl. rewrite with_document_twice.
    apply Ret_doc_eq. rewrite <- list_fmap_compose. apply list_fmap_ext.
    intros _ e _. simpl. apply clearElement_idemp.
Qed.

(** X1 on the contact form after a submission with an empty name: the
    message under the name field and the mark on the field go away, the
    values stay. *)
Lemma clearErrors_clears_witness :
  let w := final (handleFormSubmit Sample.bare 0 (Sample.contactPage "" "a@b.com" "hi")) in
  let w' := final (clearErrors w) in
  textAt w 2 = Some (js "Nama harus diisi") ∧ hasClassAt (js "error") w 1 = true ∧
  clearErrors w = Ret () w' ∧
  textAt w' 2 = Some [] ∧ hasClassAt (js "error") w' 1 = false ∧
  valueAt w' 3 = Some (js "a@b.com").
Proof.
  intros w w'.
  destruct (clearErrors_clears w) as (Hret & Htxt & Hcls & _ & Hval & _); [by vm_compute|].
  fold w' in Hret, Htxt, Hcls, Hval.
  destruct (document w !! 2%nat) as [e2|] eqn:He2; [|by vm_compute in He2].
  destruct (document w !! 1%nat) as [e1|] eqn:He1; [|by vm_compute in He1].
  assert (Hc2 : js "form-error" ∈ classList e2).
  { apply (bool_decide_unpack _). vm_compute in He2. injection He2 as <-.
    vm_compute. exact I. }
  assert (Hc1 : js "form-input" ∈ classList e1).
  { apply (bool_decide_unpack _). vm_compute in He1. injection He1 as <-.
    vm_compute. exact I. }
  split; [by vm_compute|]. split; [by vm_compute|]. split; [exact Hret|].
  split; [exact (Htxt 2%nat e2 He2 Hc2)|]. split; [exact (Hcls 1%nat e1 He1 Hc1)|].
  rewrite Hval. by vm_compute.
Defined.

End ClearingFacts.

(** ** Submissions on incomplete pages *)

Module SubmissionFacts.
Import DomFacts Frames FormFacts NavFacts SubmitFacts MenuFacts.

Lemma annotated_isControl T d d' n :
  Forall2 (annotatedWithin T) d d' → isControl d' n = isControl d n.
Proof.
  intros H. destruct n as [k|]; [|done]. simpl. apply bool_decide_ext.
  destruct (d !! k) as [e|] eqn:He.
  - destruct (Forall2_lookup_l _ _ _ _ _ H He) as (e' & -> & _ & Hv). simpl. by rewrite Hv.
  - destruct (d' !! k) as [e'|] eqn:He'; [|done].
    destruct (Forall2_lookup_r _ _ _ _ _ H He') as (e & ? & _). congruence.
Qed.

Section WithHost.
Context (proto : jsstring → option jsstring).

(** X2.  The submit handler (lines 163-194) prevents the default action
    of every submit event, on every page and for every target, also when it
    ends by throwing; and it never touches the listeners, the scroll
    position or request, the console or the clock. *)
Theorem submit_always_prevents_default w target :
  let w' := final (handleFormSubmit proto target w) in
  defaultPrevented w' = true ∧
  listeners w' = listeners w ∧
  scrollRequest w' = scrollRequest w ∧ pageYOffset w' = pageYOffset w ∧
  console w' = console w ∧ now w' = now w.
Proof.
  intros w'. subst w'.
  set (R := fun a b : world =>
              defaultPrevented b = defaultPrevented a ∧ listeners b = listeners a ∧
              scrollRequest b = scrollRequest a ∧ pageYOffset b = pageYOffset a ∧
              console b = console a ∧ now b = now a).
  assert (HR : PreOrder R).
  { split; [by intros ?|]. intros a b c (?&?&?&?&?&?) (?&?&?&?&?&?).
    unfold R. repeat split; congruence. }
  unfold handleFormSubmit. rewrite final_bind.
  change (preventDefault w) with (Ret () (with_defaultPrevented true w)). cbv iota beta.
  lazymatch goal with |- context [final (?m (with_defaultPrevented true w))] =>
    assert (Hs : stable R m) end.
  { unfold validateField, clearErrors, showSuccessMessage, showError, form_reset,
      classList_add, classList_remove, set_textContent, updateElement, setTimeout,
      getElementById, querySelectorAll, getDocument, getElement.
    frame; try (apply stable_deref; apply _).
    all: try (intros ?; unfold R; simpl; by repeat split).
    all: try (intros w0; unfold R; simpl; destruct (document w0 !! _); by repeat split). }
  specialize (Hs (with_defaultPrevented true w)). destruct Hs as (?&?&?&?&?&?).
  done.
Qed.

(** Validating what [getElementById] returned: a missing element, or one
    that is not a form control, throws and writes nothing. *)
Lemma derefValidate_run x n :
  (deref n ≫= validateField proto) x =
  if isControl (document x) n
  then match n with
       | Some k => validateField proto k x
       | None => Throw TypeError x
       end
  else Throw TypeError x.
Proof.
  destruct n as [k|]; [|done]. rewrite deref_Some_bind. simpl.
  case_bool_decide as Hc; [done|]. apply validateField_throws.
  destruct (document x !! k ≫= value) eqn:Hv; [|done]. destruct Hc. eauto.
Qed.

Lemma validateField_control x k :
  isControl (document x) (Some k) = true →
  ∃ b, validateField proto k x = Ret b (with_document (validated proto k (document x)) x).
Proof.
  simpl. intros [v Hv]%bool_decide_eq_true.
  destruct (document x !! k) as [e|] eqn:He; [|done]. simpl in Hv.
  rewrite (validateField_validated proto x k e v He Hv). eauto.
Qed.

(** The submit handler up to its three validations. *)
Lemma handleFormSubmit_validations w target :
  let d := document w in
  handleFormSubmit proto target w =
  ((deref (elementById (js "name") d) ≫= validateField proto) ≫= fun nameOk =>
   (deref (elementById (js "email") d) ≫= validateField proto) ≫= fun emailOk =>
   (deref (elementById (js "message") d) ≫= validateField proto) ≫= fun messageOk =>
   if (if negb messageOk then false
       else if negb emailOk then false else if negb nameOk then false else true)
   then showSuccessMessage ≫= fun _ => form_reset target
   else ret ())
    (with_document (clearElement <$> d) (with_defaultPrevented true w)).
Proof.
  intros d. unfold handleFormSubmit, preventDefault, getElementById, getDocument.
  unfold mbind at 1 2 3 4 5 6 7, M_bind, bind.
  with_strategy opaque [js clearErrors validateField showSuccessMessage form_reset deref] simpl.
  by rewrite clearErrors_run.
Qed.

Lemma blocked_step w n x (k : bool → M unit) :
  midSubmit w x →
  (isControl (document w) n = true → ∀ b x', midSubmit w x' → blocked w (k b x')) →
  blocked w (((deref n ≫= validateField proto) ≫= k) x).
Proof.
  intros Hx Hk. pose proof Hx as (Hd & Hp & Ht & Hl).
  unfold mbind at 1, M_bind, bind. rewrite derefValidate_run.
  rewrite (annotated_isControl _ _ _ n Hd).
  destruct (isControl (document w) n) eqn:Hn.
  - destruct n as [m|]; [|done].
    destruct (validateField_control x m) as [b ->].
    { by rewrite (annotated_isControl _ _ _ _ Hd). }
    apply Hk; [done|]. split; [|done]. simpl. etrans; [exact Hd|]. apply validated_annotates.
  - by exists x.
Qed.

(** X3.  When one of [#name], [#email], [#message] is missing from the
    page, or is not a form control, the submit handler throws a [TypeError]
    (lines 177-185 read [field.value] of it).  By then the default action is
    prevented and the earlier fields may have been annotated, but no timeout
    is queued and no listener changes; and on a page whose error elements
    hold text only the document differs from the one before only in
    [error] tokens and texts: no value is reset and no success message is
    shown. *)
Theorem submit_without_fields_throws w target :
  let d := document w in
  isControl d (elementById (js "name") d) &&
  isControl d (elementById (js "email") d) &&
  isControl d (elementById (js "message") d) = false →
  ∃ w', handleFormSubmit proto target w = Throw TypeError w' ∧
        defaultPrevented w' = true ∧ timers w' = timers w ∧
        listeners w' = listeners w ∧
        (textOnly d = true → docRel (annotatedWithin {[js "error"]}) w w').
Proof.
  intros d Hc.
  assert (Hb : blocked w (handleFormSubmit proto target w)).
  { rewrite handleFormSubmit_validations. fold d.
    apply blocked_step.
    { split; [apply cleared_annotates|done]. }
    intros H1 b1 x1 Hx1. apply blocked_step; [done|].
    intros H2 b2 x2 Hx2. apply blocked_step; [done|].
    intros H3 b3 x3 Hx3. fold d in H1, H2, H3. by rewrite H1, H2, H3 in Hc. }
  destruct Hb as (w' & -> & Hd & Hp & Ht & Hl). by exists w'.
Qed.

Section Fields.
Context (w : world) (target nm em ms : node) (fn fe fm : element) (vn ve vm : jsstring).
Hypothesis Hnm : elementById (js "name") (document w) = Some nm.
Hypothesis Hem : elementById (js "email") (document w) = Some em.
Hypothesis Hms : elementById (js "message") (document w) = Some ms.
Hypothesis Hfn : document w !! nm = Some fn.
Hypothesis Hfe : document w !! em = Some fe.
Hypothesis Hfm : document w !! ms = Some fm.
Hypothesis Hvn : value fn = Some vn.
Hypothesis Hve : value fe = Some ve.
Hypothesis Hvm : value fm = Some vm.


End Fields.
End WithHost.

(** X3 on the contact form that lacks its message field: the name and the
    email field are validated, nothing else changes, and the handler
    throws. *)
Lemma submit_without_fields_witness :
  ∃ w', handleFormSubmit Sample.bare 0 Sample.formWithoutMessage = Throw TypeError w' ∧
        defaultPrevented w' = true ∧ timers w' = [] ∧
        docRel (annotatedWithin {[js "error"]}) Sample.formWithoutMessage w'.
Proof.
  destruct (submit_without_fields_throws Sample.bare Sample.formWithoutMessage 0)
    as (w' & H1 & H2 & H3 & _ & H4); [by vm_compute|].
  exists w'. split; [exact H1|]. split; [exact H2|]. split; [exact H3|].
  apply H4. by vm_compute.
Defined.


End SubmissionFacts.

(** ** Clicks on navigation links and on the toggle button *)

Module LinkFacts.
Import DomFacts Frames FormFacts NavFacts SubmitFacts MenuFacts.

Lemma startsWith_hash h :
  JsString.startsWith h (js "#") = true ↔ ∃ i, h = js "#" ++ i.
Proof.
  split.
  - destruct h as [|c h]; [done|]. change (js "#") with [35%N].
    cbn [JsString.startsWith]. intros [->%N.eqb_eq _]%andb_prop. by exists h.
  - intros (i & ->). by destruct i.
Qed.

Lemma navLinkClick_no_href w n e :
  document w !! n = Some e → href e = None → navLinkClick n w = Throw TypeError w.
Proof.
  intros He Hh. unfold navLinkClick, getElement. unfold mbind at 1, M_bind, bind.
  by rewrite He, Hh.
Qed.

Lemma navLinkClick_external w n e h :
  document w !! n = Some e → href e = Some h → JsString.startsWith h (js "#") = false →
  navLinkClick n w = Ret () w.
Proof.
  intros He Hh Hs. unfold navLinkClick, getElement. unfold mbind at 1, M_bind, bind.
  by rewrite He, Hh, Hs.
Qed.

Lemma navLinkClick_dangling w n e i :
  document w !! n = Some e → href e = Some (js "#" ++ i) →
  elementById i (document w) = None →
  navLinkClick n w = Ret () (with_defaultPrevented true w).
Proof.
  intros He Hh Hi. unfold navLinkClick, getElement, preventDefault, getElementById, getDocument.
  unfold mbind at 1, M_bind, bind. rewrite He, Hh.
  replace (JsString.startsWith (js "#" ++ i) (js "#")) with true by by destruct i.
  replace (JsString.substring 1 (js "#" ++ i)) with i by by destruct i.
  unfold mbind, M_bind, bind. with_strategy opaque [js] simpl. by rewrite Hi.
Qed.

(** X5.  Clicks on a navigation link that the listener of lines 27-49
    does not follow.  A link without an [href] attribute makes it throw a
    [TypeError] before anything is written.  A link whose [href] does not
    begin with ["#"] is left to the browser: the listener returns, the
    default action is not prevented and nothing changes.  A link to a
    fragment that names no element of the page, the bare ["#"] included, has
    its default action prevented and nothing else happens: no scroll is
    requested and the menu is not closed. *)
Theorem link_click_not_followed w n e :
  document w !! n = Some e →
  (href e = None → navLinkClick n w = Throw TypeError w) ∧
  (∀ h, href e = Some h → JsString.startsWith h (js "#") = false →
     navLinkClick n w = Ret () w) ∧
  (∀ i, href e = Some (js "#" ++ i) → elementById i (document w) = None →
     navLinkClick n w = Ret () (with_defaultPrevented true w)) ∧
  (href e = Some (js "#") → navLinkClick n w = Ret () (with_defaultPrevented true w)).
Proof.
  intros He. split; [|split; [|split]].
  - by apply navLinkClick_no_href.
  - intros h. by apply navLinkClick_external.
  - intros i. by apply navLinkClick_dangling.
  - intros Hh. apply (navLinkClick_dangling w n e []); [done | by rewrite app_nil_r | done].
Qed.

Lemma navLinkClick_run w n e i sec es mn tg em :
  document w !! n = Some e → href e = Some (js "#" ++ i) →
  elementById i (document w) = Some sec → document w !! sec = Some es →
  menuFound mn tg w → document w !! mn = Some em →
  let w1 := with_scrollRequest (Some (rectTop es + pageYOffset w - 80))
              (with_defaultPrevented true w) in
  let off := fun e0 : element => with_classList (classList e0 ∖ {[js "active"]}) e0 in
  navLinkClick n w =
  Ret () (if hasClass (js "active") em
          then with_document (alter off tg (alter off mn (document w))) w1
          else w1).
Proof.
  intros He Hh Hsec Hes [Hqm Hqt] Hem w1 off.
  unfold navLinkClick, getElement, preventDefault, getElementById, getDocument,
    smoothScrollTo, getWorld, scrollTo, querySelector, classList_contains.
  unfold mbind at 1, M_bind, bind. rewrite He, Hh.
  replace (JsString.startsWith (js "#" ++ i) (js "#")) with true by by destruct i.
  replace (JsString.substring 1 (js "#" ++ i)) with i by by destruct i.
  unfold mbind, M_bind, bind, getElement, getDocument.
  with_strategy opaque [js] simpl.
  rewrite Hsec. with_strategy opaque [js] simpl.
  rewrite Hes. with_strategy opaque [js] simpl.
  rewrite Hqm, Hqt. with_strategy opaque [js] simpl.
  rewrite Hem. with_strategy opaque [js] simpl.
  by destruct (hasClass (js "active") em).
Qed.

(** X6.  A click on a navigation link whose fragment names an element
    of the page, on a page that has the menu panel [mn] and the toggle
    button [tg]: the listener returns, the default action is prevented, and
    a scroll is requested to the element's viewport top plus the current
    scroll offset minus the header offset 80 (lines 60-69).  The panel ends
    closed; the button loses the token if the panel was open; if the panel
    was closed the document is unchanged (a token on the button alone
    stays).  Nothing but the [active] token of these two nodes changes. *)
Theorem link_click_scrolls w n e i sec es mn tg :
  document w !! n = Some e → href e = Some (js "#" ++ i) →
  elementById i (document w) = Some sec → document w !! sec = Some es →
  menuFound mn tg w →
  let w' := final (navLinkClick n w) in
  navLinkClick n w = Ret () w' ∧
  defaultPrevented w' = true ∧
  scrollRequest w' = Some (rectTop es + pageYOffset w - 80) ∧
  pageYOffset w' = pageYOffset w ∧ listeners w' = listeners w ∧ timers w' = timers w ∧
  hasClassAt (js "active") w' mn = false ∧
  (hasClassAt (js "active") w mn = true → hasClassAt (js "active") w' tg = false) ∧
  (hasClassAt (js "active") w mn = false → document w' = document w) ∧
  docRel (annotatedWithin {[js "active"]}) w w' ∧
  (∀ k, k ≠ mn → k ≠ tg → document w' !! k = document w !! k).
Proof.
  intros He Hh Hsec Hes Hfound w'.
  pose proof Hfound as [[em Hem] [et Het]]%menuFound_valid.
  assert (Hrel : docRel (annotatedWithin {[js "active"]}) w w')
    by apply HandlerFrames.navLinkClick_annotates.
  revert Hrel. subst w'.
  rewrite (navLinkClick_run w n e i sec es mn tg em) by done.
  unfold hasClassAt at 2 4. rewrite Hem.
  destruct (hasClass (js "active") em) eqn:Hact; with_strategy opaque [js] simpl; intros Hrel.
  - repeat (split; [done|]). split; [|split; [|split; [intros [=]|split; [exact Hrel|]]]].
    + rewrite !hasClassAt_classAt. with_strategy opaque [js] simpl.
      pose proof (closed_menu tg mn (document w)) as Hc. by injection Hc.
    + intros _. rewrite !hasClassAt_classAt. with_strategy opaque [js] simpl.
      pose proof (closed_menu tg mn (document w)) as Hc. by injection Hc.
    + intros k Hm Ht. by rewrite !list_lookup_alter_ne.
  - repeat (split; [done|]). split.
    { unfold hasClassAt. with_strategy opaque [js] simpl. by rewrite Hem. }
    split; [intros [=]|]. split; [done|]. split; [exact Hrel|done].
Qed.

(** X7.  The toggle listener (lines 114-117) is an involution: run twice
    in a row it gives back exactly the page it started from. *)
Theorem toggleClick_twice w tg mn :
  toggleClick tg mn (final (toggleClick tg mn w)) = Ret () w.
Proof.
  unfold toggleClick, classList_toggle, updateElement.
  unfold mbind, M_bind, bind. with_strategy opaque [js] simpl.
  f_equal. rewrite ?with_document_twice. rewrite <- (with_document_id w) at -1.
  f_equal.
  set (t := fun e => if hasClass (js "active") e
                     then with_classList (classList e ∖ {[js "active"]}) e
                     else with_classList (classList e ∪ {[js "active"]}) e).
  assert (Ht : ∀ e, t (t e) = e).
  { intros e. unfold t. destruct (hasClass (js "active") e) eqn:Ha; unfold hasClass in *.
    - rewrite bool_decide_eq_false_2 by (simpl; set_solver).
      apply bool_decide_eq_true in Ha. destruct e. unfold with_classList. simpl in *.
      f_equal. apply leibniz_equiv. intros x. rewrite elem_of_union, elem_of_difference, elem_of_singleton.
      destruct (decide (x = js "active")) as [->|]; naive_solver.
    - rewrite bool_decide_eq_true_2 by (simpl; set_solver).
      apply bool_decide_eq_false in Ha. destruct e. unfold with_classList. simpl in *.
      f_equal. set_solver. }
  - apply list_eq. intros k. rewrite !list_lookup_alter.
    destruct (document w !! k) as [e|] eqn:Hk;
      repeat (case_decide; simplify_eq; simpl; rewrite ?Hk; simpl; rewrite ?Ht); done.
  - apply with_document_id.
Qed.

(** X5 on three links: one to another site, one to a fragment that names
    nothing, one to the bare ["#"]. *)
Lemma link_click_not_followed_witness :
  let w := Sample.outboundLinks in
  navLinkClick 0 w = Ret () w ∧
  navLinkClick 1 w = Ret () (with_defaultPrevented true w) ∧
  navLinkClick 2 w = Ret () (with_defaultPrevented true w).
Proof.
  intros w. split; [|split].
  - destruct (link_click_not_followed w 0 _ eq_refl) as (_ & H & _).
    exact (H _ eq_refl eq_refl).
  - destruct (link_click_not_followed w 1 _ eq_refl) as (_ & _ & H & _).
    exact (H (js "nowhere") eq_refl eq_refl).
  - destruct (link_click_not_followed w 2 _ eq_refl) as (_ & _ & _ & H).
    exact (H eq_refl).
Defined.

(** X6 on the sample navigation bar scrolled to 250: the link to the
    section at viewport top 0 requests a scroll to 0 + 250 - 80. *)
Lemma link_click_scrolls_witness :
  let w := Sample.page Sample.menuPage 250 in
  let w' := final (navLinkClick 3 w) in
  navLinkClick 3 w = Ret () w' ∧ defaultPrevented w' = true ∧
  scrollRequest w' = Some 170 ∧ document w' = document w.
Proof.
  intros w w'.
  assert (Hfound : menuFound 2 1 w) by (split; vm_compute; reflexivity).
  destruct (link_click_scrolls w 3 _ (js "about") 4 _ 2 1
              eq_refl eq_refl eq_refl eq_refl Hfound)
    as (Hret & Hp & Hs & _ & _ & _ & _ & _ & Hd & _).
  split; [exact Hret|]. split; [exact Hp|]. split; [exact Hs|]. apply Hd. by vm_compute.
Defined.

End LinkFacts.

(** ** The scroll handler as a function of the page *)

Module ScrollFacts.
Import DomFacts Frames FormFacts NavFacts SubmitFacts MenuFacts.

Lemma edited_sectionsOf T d d' :
  Forall2 (editedWithin T) d d' → sectionsOf d' = sectionsOf d.
Proof.
  intros H. symmetry. apply nodesWhere_ext.
  eapply Forall2_impl; [exact H|]. intros e e' [Hs _].
  apply skeleton_inv in Hs as (_ & Hn & Hi & _). simpl. by rewrite Hn, Hi.
Qed.

Lemma edited_containsPoint T d d' y s :
  Forall2 (editedWithin T) d d' → containsPoint d' y s ↔ containsPoint d y s.
Proof.
  intros H. unfold containsPoint. split.
  - intros (e' & He' & Hy).
    destruct (Forall2_lookup_r _ _ _ _ _ H He') as (e & He & [Hs _]).
    apply skeleton_inv in Hs as (_ & _ & _ & _ & _ & _ & _ & Ht & Hh & _).
    exists e. split; [done|]. by rewrite Ht, Hh.
  - intros (e & He & Hy).
    destruct (Forall2_lookup_l _ _ _ _ _ H He) as (e' & He' & [Hs _]).
    apply skeleton_inv in Hs as (_ & _ & _ & _ & _ & _ & _ & Ht & Hh & _).
    exists e'. split; [done|]. by rewrite <- Ht, <- Hh.
Qed.

Lemma edited_currentSection T d d' y :
  Forall2 (editedWithin T) d d' → currentSection d' y = currentSection d y.
Proof.
  intros H. unfold currentSection. rewrite (edited_sectionsOf T d d' H).
  f_equal. apply list_filter_iff. intros s. by apply (edited_containsPoint T).
Qed.

(** The fragment of the current section depends on the layout and the ids
    only. *)
Lemma edited_currentFragment T d d' y :
  Forall2 (editedWithin T) d d' → currentFragment d' y = currentFragment d y.
Proof.
  intros H. unfold currentFragment. rewrite (edited_currentSection T d d' y H).
  destruct (currentSection d y) as [s|]; [|done]. do 2 f_equal.
  destruct (d !! s) as [e|] eqn:He.
  - destruct (Forall2_lookup_l _ _ _ _ _ H He) as (e' & -> & [Hs _]).
    apply skeleton_inv in Hs as (_ & _ & Hi & _). simpl. done.
  - destruct (d' !! s) as [e'|] eqn:He'; [|done].
    destruct (Forall2_lookup_r _ _ _ _ _ H He') as (e & ? & _). congruence.
Qed.

Lemma highlight_edits frag e : editedWithin {[js "active"]} e (highlight frag e).
Proof.
  split; [by rewrite highlight_skeleton|]. intros c Hc.
  rewrite highlight_classes. rewrite decide_False; [done|]. intros [-> _]. set_solver.
Qed.

Lemma highlight_idemp frag e : highlight frag (highlight frag e) = highlight frag e.
Proof.
  assert (Hl : hasClass (js "nav-link") (highlight frag e) = hasClass (js "nav-link") e).
  { unfold hasClass. apply bool_decide_ext. rewrite highlight_classes.
    rewrite decide_False; [done|]. by intros [[=] _]. }
  unfold highlight at 1. rewrite Hl. unfold highlight.
  destruct (hasClass (js "nav-link") e); [|done].
  destruct (bool_decide (href e = Some frag)) eqn:Hh; with_strategy opaque [js] simpl;
    rewrite Hh; unfold with_classList; with_strategy opaque [js] simpl; f_equal; set_solver.
Qed.

(** X8.  The scroll handler (lines 74-97) is idempotent: run again at
    the same scroll offset it returns the very same page. *)
Theorem scroll_handler_idempotent w :
  updateActiveMenuItem (final (updateActiveMenuItem w)) = updateActiveMenuItem w.
Proof.
  rewrite (updateActiveMenuItem_run w). with_strategy opaque [js] simpl.
  rewrite updateActiveMenuItem_run. with_strategy opaque [js] simpl.
  rewrite with_document_twice. apply Ret_doc_eq.
  set (frag := currentFragment (document w) (pageYOffset w)).
  rewrite (edited_currentFragment {[js "active"]} (document w)).
  - fold frag. rewrite <- list_fmap_compose. apply list_fmap_ext.
    intros _ e _. apply highlight_idemp.
  - apply Forall2_fmap_r, Forall_Forall2_diag, Forall_forall.
    intros e _. apply highlight_edits.
Qed.

(** X9.  The scroll handler writes nothing but the [active] token of
    navigation links: every element without the class [nav-link] is left
    exactly as it was (an [active] token on the menu panel or any other
    element is not touched), navigation links keep their text, their value
    and every other token, and nothing outside the document changes. *)
Theorem scroll_handler_frame w :
  let w' := final (updateActiveMenuItem w) in
  (∀ n e, document w !! n = Some e → js "nav-link" ∉ classList e →
     document w' !! n = Some e) ∧
  docRel (annotatedWithin {[js "active"]}) w w' ∧
  surroundings w' = surroundings w.
Proof.
  intros w'. split; [|split].
  - intros n e He Hl. subst w'. rewrite updateActiveMenuItem_run.
    with_strategy opaque [js] simpl. rewrite list_lookup_fmap, He. simpl. f_equal.
    unfold highlight, hasClass. by rewrite bool_decide_eq_false_2.
  - apply HandlerFrames.updateActiveMenuItem_annotates.
  - subst w'. by rewrite updateActiveMenuItem_run.
Qed.

End ScrollFacts.

(** ** Labels, padding and the email pattern *)

Module ValidationFacts.
Import DomFacts Frames FormFacts NavFacts SubmitFacts.

Lemma dropWhile_app p (a b : jsstring) :
  JsString.dropWhile p (a ++ b) =
  if forallb p a then JsString.dropWhile p b else JsString.dropWhile p a ++ b.
Proof.
  induction a as [|c a IH]; simpl; [done|].
  destruct (p c); simpl; [exact IH | done].
Qed.

(** White space around a string does not survive [trim]. *)
Lemma trim_padding p1 v p2 :
  forallb JsString.is_space p1 = true → forallb JsString.is_space p2 = true →
  JsString.trim (p1 ++ v ++ p2) = JsString.trim v.
Proof.
  intros H1 H2. unfold JsString.trim, JsString.trimStart, JsString.trimEnd.
  rewrite dropWhile_app, H1, dropWhile_app.
  destruct (forallb JsString.is_space v) eqn:Hv.
  - apply JsStringFacts.dropWhile_nil_iff in H2 as ->.
    apply JsStringFacts.dropWhile_nil_iff in Hv as ->. done.
  - rewrite rev_app_distr, dropWhile_app, JsStringFacts.forallb_rev, H2. done.
Qed.

Section WithHost.
Context (proto : jsstring → option jsstring).

Lemma fieldError_padding n p1 v p2 :
  forallb JsString.is_space p1 = true → forallb JsString.is_space p2 = true →
  fieldError proto n (p1 ++ v ++ p2) = fieldError proto n v.
Proof. intros H1 H2. unfold fieldError. by rewrite trim_padding. Qed.

(** What [validateField] leaves on the page, by the message it found. *)
Lemma validateField_shows w field f v :
  document w !! field = Some f → value f = Some v →
  let w' := final (validateField proto field w) in
  let msg := fieldError proto (name f) v in
  validateField proto field w = Ret (bool_decide (msg = None)) w' ∧
  hasClassAt (js "error") w' field = bool_decide (is_Some msg) ∧
  ∀ e, errorElementOf w field = Some e → textAt w' e = Some (default [] msg).
Proof.
  intros Hf Hv w' msg. subst w'.
  rewrite (validateField_run proto w field f v Hf Hv). fold msg. simpl.
  split; [done|]. split.
  - unfold hasClassAt. simpl. rewrite annotated_lookup, Hf. simpl.
    unfold hasClass. apply bool_decide_ext.
    rewrite classList_annotateElement. by rewrite decide_True.
  - intros e. unfold errorElementOf, textAt. rewrite Hf. simpl. intros He.
    rewrite annotated_lookup.
    destruct (elementById_Some _ _ _ He) as (x & -> & _). simpl.
    rewrite textContent_annotateElement, He. by rewrite decide_True.
Qed.

(** X10.  The fallback of [getFieldLabel] (line 285) as it shows in the
    message for an empty field whose name is not [name], [email] or
    [message]: the label is the field name itself, unless the host's
    [Object.prototype] has a member under that name ([toString],
    [constructor], ...), in which case the label is the text of that
    member. *)
Theorem unlabelled_field_message w field f v :
  document w !! field = Some f → value f = Some v →
  JsString.trim v = [] → labels !! name f = None →
  let w' := final (validateField proto field w) in
  validateField proto field w = Ret false w' ∧
  hasClassAt (js "error") w' field = true ∧
  ∀ e, errorElementOf w field = Some e →
       textAt w' e = Some (default (name f) (proto (name f)) ++ js " harus diisi").
Proof.
  intros Hf Hv Ht Hl w'.
  destruct (validateField_shows w field f v Hf Hv) as (Hret & Hcls & Htxt).
  fold w' in Hret, Hcls, Htxt.
  assert (Hmsg : fieldError proto (name f) v =
                 Some (default (name f) (proto (name f)) ++ js " harus diisi")).
  { unfold fieldError. rewrite decide_True by done. do 2 f_equal.
    unfold getFieldLabel, propertyRead. rewrite Hl.
    by destruct (proto (name f)). }
  rewrite Hmsg in Hret, Hcls, Htxt. done.
Qed.

(** X11.  Validation looks at the trimmed value only (line 202): a
    field holding a value, and the same field holding that value with white
    space added before and after it, are validated alike: the same boolean,
    the same [error] tokens and the same texts on the whole page. *)
Theorem validation_ignores_padding w field v p1 p2 :
  forallb JsString.is_space p1 = true → forallb JsString.is_space p2 = true →
  sameAnnotations
    (validateField proto field (step proto w (UserTypes field v)))
    (validateField proto field (step proto w (UserTypes field (p1 ++ v ++ p2)))).
Proof.
  intros H1 H2. cbn [step].
  set (ty := fun text e => match value e with
                           | Some _ => with_value (Some text) e
                           | None => e
                           end).
  change (sameAnnotations
    (validateField proto field (with_document (alter (ty v) field (document w)) w))
    (validateField proto field
       (with_document (alter (ty (p1 ++ v ++ p2)) field (document w)) w))).
  destruct (document w !! field) as [f|] eqn:Hf.
  2:{ rewrite !validateField_throws; [done| |];
      simpl; by rewrite list_lookup_alter_eq, Hf. }
  destruct (value f) as [v0|] eqn:Hv.
  2:{ rewrite !validateField_throws; [done| |];
      simpl; rewrite list_lookup_alter_eq, Hf; simpl; unfold ty; by rewrite Hv. }
  assert (Hrun : ∀ x,
    validateField proto field (with_document (alter (ty x) field (document w)) w) =
    Ret (bool_decide (fieldError proto (name f) x = None))
        (with_document
           (annotated field (elementById (name f ++ js "Error") (document w))
              (fieldError proto (name f) x) (alter (ty x) field (document w))) w)).
  { intros x.
    rewrite (validateField_run proto _ field (with_value (Some x) f) x).
    - simpl. rewrite with_document_twice. do 3 f_equal. symmetry.
      apply elementById_skeleton.
      apply Forall2_alter_r; [by intros ?|]. intros e. unfold ty.
      destruct (value e) eqn:He; [|done]. unfold skeleton. simpl. by rewrite He.
    - simpl. rewrite list_lookup_alter_eq, Hf. simpl. unfold ty. by rewrite Hv.
    - done. }
  rewrite !Hrun, fieldError_padding by done. unfold sameAnnotations.
  split; [done|]. split.
  - intros n. unfold hasClassAt. simpl. rewrite !annotated_lookup.
    destruct (decide (field = n)) as [<-|Hn].
    + rewrite !list_lookup_alter_eq, Hf. simpl.
      unfold hasClass. apply bool_decide_ext. rewrite !classList_annotateElement.
      unfold ty. by rewrite Hv.
    + by rewrite !list_lookup_alter_ne.
  - intros n. unfold textAt. simpl. rewrite !annotated_lookup.
    destruct (decide (field = n)) as [<-|Hn].
    + rewrite !list_lookup_alter_eq, Hf. simpl.
      f_equal. rewrite !textContent_annotateElement.
      unfold ty. by rewrite Hv.
    + by rewrite !list_lookup_alter_ne.
Qed.

(** X19.  [validateField] (lines 201-228) on a field whose error element,
    if the page has it, holds text only, writes two nodes at most: the field
    and its error element.  Every other element is left exactly as it was;
    the error element has its text written and nothing else; and the
    field, when it is not its own error element, changes in its [error]
    token only. *)
Theorem validateField_touches_two_nodes w field :
  match errorElementOf w field with
  | Some n => holdsTextOnly (document w) n
  | None => true
  end = true →
  let w' := final (validateField proto field w) in
  (∀ n, n ≠ field → errorElementOf w field ≠ Some n →
        document w' !! n = document w !! n) ∧
  (∀ n x, errorElementOf w field = Some n → n ≠ field → document w !! n = Some x →
        ∃ t, document w' !! n = Some (with_textContent t x)) ∧
  (∀ f, document w !! field = Some f → errorElementOf w field ≠ Some field →
        ∃ c, document w' !! field = Some (with_classList c f) ∧
             ∀ k, k ≠ js "error" → (k ∈ c ↔ k ∈ classList f)).
Proof.
  intros _ w'. subst w'.
  destruct (document w !! field ≫= value) as [v|] eqn:Hv.
  2:{ rewrite (validateField_throws proto w field Hv). simpl.
      split; [done|]. split.
      - intros n x _ _ Hx. exists (textContent x). rewrite Hx. by destruct x.
      - intros f Hf _. exists (classList f). rewrite Hf. split; [by destruct f|done]. }
  destruct (document w !! field) as [f|] eqn:Hf; [|done]. simpl in Hv.
  rewrite (validateField_run proto w field f v Hf Hv). simpl.
  unfold errorElementOf. rewrite Hf. simpl.
  set (err := elementById (name f ++ js "Error") (document w)).
  set (msg := fieldError proto (name f) v).
  split; [|split].
  - intros n Hn He. rewrite annotated_lookup.
    destruct (document w !! n) as [x|]; [|done]. simpl. f_equal.
    unfold annotateElement. rewrite decide_False by done. by rewrite decide_False.
  - intros n x He Hn Hx. rewrite annotated_lookup, Hx. simpl.
    exists (default [] msg). f_equal.
    unfold annotateElement. rewrite (decide_True (P := err = Some n)) by done.
    by rewrite (decide_False (P := n = field)) by done.
  - intros f' [= <-] He. rewrite annotated_lookup, Hf. simpl.
    unfold annotateElement. rewrite (decide_False (P := err = Some field)) by done.
    rewrite (decide_True (P := field = field)) by done.
    eexists. split; [reflexivity|]. intros k Hk. destruct msg; set_solver.
Qed.

End WithHost.

(** X10 on a blank field named [phone]. *)
Lemma unlabelled_field_witness :
  let w := Sample.phoneForm in
  let w' := final (validateField Sample.bare 1 w) in
  validateField Sample.bare 1 w = Ret false w' ∧
  textAt w' 2 = Some (js "phone harus diisi").
Proof.
  intros w w'.
  destruct (unlabelled_field_message Sample.bare w 1 _ _ eq_refl eq_refl)
    as (Hret & _ & Htxt); [by vm_compute | by vm_compute |].
  split; [exact Hret|]. exact (Htxt 2%nat eq_refl).
Defined.

(** X19 on the empty name field of the contact form: the field gets the
    [error] token, its error element the message, and the email field next
    to them is left as it was. *)
Lemma validateField_touches_two_nodes_witness :
  let w := Sample.contactPage "" "a@b.com" "hi" in
  let w' := final (validateField Sample.bare 1 w) in
  document w' !! 3%nat = document w !! 3%nat ∧
  textAt w' 2 = Some (js "Nama harus diisi") ∧ hasClassAt (js "error") w' 1 = true.
Proof.
  intros w w'.
  destruct (validateField_touches_two_nodes Sample.bare w 1) as (Hrest & _ & _);
    [by vm_compute|].
  split; [|by vm_compute]. apply Hrest; by vm_compute.
Defined.

(** X11 on the email field: ["a@b.com"] and the same with a blank before
    and two after. *)
Lemma validation_ignores_padding_witness :
  let w := Sample.contactPage "" "" "" in
  sameAnnotations
    (validateField Sample.bare 3 (step Sample.bare w (UserTypes 3 (js "a@b.com"))))
    (validateField Sample.bare 3 (step Sample.bare w (UserTypes 3 (js " a@b.com  ")))).
Proof.
  intros w.
  exact (validation_ignores_padding Sample.bare w 3 (js "a@b.com")
           (js " ") (js "  ") eq_refl eq_refl).
Defined.

End ValidationFacts.

Module PatternFacts.

(** X12.  The email pattern of line 220, by positions: it accepts a
    string exactly when the string has no white space, has exactly one ["@"],
    not at the start, and has a ["."] somewhere after the ["@"] that is
    neither the character right after the ["@"] nor the last character. *)
Theorem email_pattern_positions s :
  Regex.test emailRegex s = true ↔
  (∀ c, c ∈ s → JsString.is_space c = false) ∧
  ∃ i j, s !! i = Some 64%N ∧ (∀ k, s !! k = Some 64%N → k = i) ∧
         (0 < i)%nat ∧ s !! j = Some 46%N ∧ (i + 1 < j)%nat ∧ (j + 1 < length s)%nat.
Proof.
  rewrite emailRegex_spec. unfold emailShaped, plainChars.
  change (js "@") with [64%N]. change (js ".") with [46%N]. split.
  - intros (a & b & c & -> & [Ha Ha'] & [Hb Hb'] & [Hc Hc']).
    assert (Hla : (0 < length a)%nat) by (destruct a; [done | simpl; lia]).
    assert (Hlb : (0 < length b)%nat) by (destruct b; [done | simpl; lia]).
    assert (Hlc : (0 < length c)%nat) by (destruct c; [done | simpl; lia]).
    simpl. split.
    + intros x Hx.
      apply elem_of_app in Hx as [Hx|Hx]; [by apply Ha'|].
      apply elem_of_cons in Hx as [->|Hx]; [done|].
      apply elem_of_app in Hx as [Hx|Hx]; [by apply Hb'|].
      apply elem_of_cons in Hx as [->|Hx]; [done|]. by apply Hc'.
    + exists (length a), (length a + 1 + length b)%nat.
      split; [by rewrite list_lookup_middle|].
      split.
      { intros k Hk. apply lookup_app_Some in Hk as [Hk|[Hge Hk]].
        - apply list_elem_of_lookup_2, Ha' in Hk. by destruct Hk.
        - destruct (k - length a)%nat as [|m] eqn:Hm; [lia|]. simpl in Hk.
          apply lookup_app_Some in Hk as [Hk|[_ Hk]].
          + apply list_elem_of_lookup_2, Hb' in Hk. by destruct Hk.
          + destruct (m - length b)%nat as [|m']; [done|]. simpl in Hk.
            apply list_elem_of_lookup_2, Hc' in Hk. by destruct Hk. }
      split; [done|]. split.
      { rewrite lookup_app_r by lia.
        replace (length a + 1 + length b - length a)%nat with (S (length b)) by lia.
        simpl. by rewrite list_lookup_middle. }
      rewrite length_app. simpl. rewrite length_app. simpl. lia.
  - intros (Hsp & i & j & Hi & Huniq & Hpos & Hj & Hij & Hjl).
    exists (take i s), (take (j - i - 1) (drop (i + 1) s)), (drop (j + 1) s).
    assert (Hplain : ∀ (l : list N) (off : nat),
              (∀ k x, l !! k = Some x → s !! (off + k)%nat = Some x) →
              (∀ k, (k < length l)%nat → (off + k)%nat ≠ i) →
              ∀ x, x ∈ l → JsString.is_space x = false ∧ x ≠ 64%N).
    { intros l off Hl Hne x [k Hk]%list_elem_of_lookup. split.
      - apply Hsp. eapply list_elem_of_lookup_2, Hl, Hk.
      - intros ->. apply (Hne k); [by eapply lookup_lt_Some|].
        apply Huniq, Hl, Hk. }
    split; [|split; [|split]].
    + simpl. rewrite <- (take_drop i s) at 1. f_equal.
      rewrite (drop_S _ 64%N i) by done. f_equal.
      replace (S i) with (i + 1)%nat by lia.
      rewrite <- (take_drop (j - i - 1) (drop (i + 1) s)) at 1. f_equal.
      rewrite drop_drop. replace (i + 1 + (j - i - 1))%nat with j by lia.
      rewrite (drop_S _ 46%N j) by done. f_equal. f_equal. lia.
    + split.
      * intros H. apply (f_equal length) in H. rewrite length_take in H. simpl in H.
        apply lookup_lt_Some in Hi. lia.
      * apply (Hplain _ 0%nat).
        -- intros k x Hk. apply lookup_take_Some in Hk as [? _]. done.
        -- intros k Hk. rewrite length_take in Hk. lia.
    + split.
      * intros H. apply (f_equal length) in H.
        rewrite length_take, length_drop in H. simpl in H. lia.
      * apply (Hplain _ (i + 1)%nat).
        -- intros k x Hk. apply lookup_take_Some in Hk as [Hk _].
           by rewrite lookup_drop in Hk.
        -- intros k Hk. lia.
    + split.
      * intros H. apply (f_equal length) in H. rewrite length_drop in H. simpl in H. lia.
      * apply (Hplain _ (j + 1)%nat).
        -- intros k x Hk. by rewrite lookup_drop in Hk.
        -- intros k Hk. lia.
Qed.

End PatternFacts.

(** ** The page as a whole: load, history, blur, scroll, time *)

Module PageFacts.
Import DomFacts Frames FormFacts NavFacts SubmitFacts MenuFacts ScrollFacts.

Lemma initMobileMenu_any w :
  initMobileMenu w = Ret () (with_listeners (listeners w ++ menuListeners (document w)) w).
Proof.
  unfold initMobileMenu, menuListeners, querySelector, getDocument.
  unfold mbind, M_bind, bind. with_strategy opaque [js] simpl.
  destruct (head (nodesWhere _ (document w))) as [tg|];
    [destruct (head (nodesWhere _ (document w))) as [mn|]|].
  - unfold addEventListener. with_strategy opaque [js] simpl. by rewrite <- app_assoc.
  - unfold ret. by rewrite app_nil_r, with_listeners_id.
  - unfold ret. by rewrite app_nil_r, with_listeners_id.
Qed.

Lemma formListeners_inputs d :
  formListeners d =
  match elementById (js "contactForm") d with
  | None => []
  | Some f => (OnNode f, Submit, HandleFormSubmit) ::
              ((fun i => (OnNode i, Blur, BlurValidate)) <$> formInputs d)
  end.
Proof. unfold formListeners, formInputs. by destruct (elementById _ d). Qed.

Lemma registeredOn_load t ty h d :
  (t, ty, h) ∈ registeredOn d → ty = DOMContentLoaded →
  t = OnDocument ∧ (h = OnLoadNavigation ∨ h = OnLoadMobileMenu ∨ h = OnLoadFormValidation).
Proof.
  unfold registeredOn, menuListeners. rewrite !elem_of_app.
  intros [Hin|[Hin|[Hin|[Hin|Hin]]]] ->.
  - repeat (apply elem_of_cons in Hin as [[= -> ->]|Hin]; [by auto|]).
    by apply elem_of_nil in Hin.
  - by apply list_elem_of_fmap in Hin as (? & [=] & _).
  - set_solver.
  - repeat case_match; set_solver.
  - destruct (elementById _ d); [|by apply elem_of_nil in Hin].
    apply elem_of_cons in Hin as [[=]|Hin].
    by apply list_elem_of_fmap in Hin as (? & [=] & _).
Qed.

Section WithHost.
Context (proto : jsstring → option jsstring).

Lemma loaded_any d :
  loaded proto d =
  {| document := d; pageYOffset := 0; scrollRequest := None; now := 0; timers := [];
     listeners := registeredOn d; defaultPrevented := false;
     console := [Log (js "Website loaded successfully!")] |}.
Proof.
  unfold loaded, dispatch.
  change (propagationPath (document (opened d)) DOMContentLoaded OnDocument)
    with [OnDocument; OnWindow].
  set (w0 := with_defaultPrevented false (opened d)).
  set (w1 := {| document := d; pageYOffset := 0; scrollRequest := None; now := 0;
                timers := []; listeners := registeredOn d; defaultPrevented := false;
                console := [Log (js "Website loaded successfully!")] |}).
  assert (H1 : runListenersAt proto DOMContentLoaded OnDocument w0 OnDocument = w1).
  { unfold runListenersAt.
    change (listenersFor OnDocument DOMContentLoaded w0)
      with [OnLoadNavigation; OnLoadMobileMenu; OnLoadFormValidation].
    cbn [foldl]. unfold runListener at 3. unfold call.
    unfold mbind, M_bind, bind, console_log. rewrite initNavigation_run.
    unfold runListener at 2. unfold call. rewrite initMobileMenu_any.
    unfold runListener. unfold call. rewrite initFormValidation_run.
    subst w0 w1. with_strategy opaque [js navLinksOf formListeners menuListeners] simpl.
    unfold registeredOn. rewrite formListeners_inputs.
    by rewrite <- !app_assoc. }
  cbn [foldl]. rewrite H1. unfold runListenersAt.
  rewrite listenersFor_handlersFor. subst w1. cbn [listeners].
  rewrite handlersFor_none; [done|].
  intros t ty h Hin [-> ->]. by apply registeredOn_load in Hin as [[=] _].
Qed.

(** X13.  Loading the page, whatever its markup: the three
    [DOMContentLoaded] listeners run without throwing, the document is left
    as parsed, the console holds the one line of line 7, and the listeners
    in place are: the three load listeners, a click listener on every
    [.nav-link], the scroll listener on the window, the two menu listeners
    when both the button and the panel exist and none of them otherwise
    (line 111), and, when [#contactForm] exists, its submit listener and a
    blur listener on each [.form-input] inside it and on no other element
    (lines 146-156). *)
Theorem page_load d :
  loaded proto d =
  {| document := d; pageYOffset := 0; scrollRequest := None; now := 0; timers := [];
     listeners := registeredOn d; defaultPrevented := false;
     console := [Log (js "Website loaded successfully!")] |}.
Proof. apply loaded_any. Qed.

(** The listeners that can run after load are the six of the script. *)
Lemma registeredOn_user d t ty h :
  (t, ty, h) ∈ registeredOn d → ty ≠ DOMContentLoaded → ∃ mn tg, userHandler mn tg h.
Proof.
  unfold registeredOn, menuListeners. rewrite !elem_of_app.
  intros [Hin|[Hin|[Hin|[Hin|Hin]]]] Hty.
  - repeat (apply elem_of_cons in Hin as [[= -> -> ->]|Hin]; [done|]).
    by apply elem_of_nil in Hin.
  - apply list_elem_of_fmap in Hin as (? & [= -> -> ->] & _).
    exists 0%nat, 0%nat. constructor.
  - apply list_elem_of_singleton in Hin as [= -> -> ->]. exists 0%nat, 0%nat. constructor.
  - destruct (head _) as [tg|]; [|by apply elem_of_nil in Hin].
    destruct (head _) as [mn|]; [|by apply elem_of_nil in Hin].
    repeat (apply elem_of_cons in Hin as [[= -> -> ->]|Hin]; [exists mn, tg; constructor|]).
    by apply elem_of_nil in Hin.
  - destruct (elementById _ d); [|by apply elem_of_nil in Hin].
    apply elem_of_cons in Hin as [[= -> -> ->]|Hin]; [exists 0%nat, 0%nat; constructor|].
    apply list_elem_of_fmap in Hin as (? & [= -> -> ->] & _).
    exists 0%nat, 0%nat. constructor.
Qed.

Lemma handlersFor_elem c ty l h :
  h ∈ handlersFor c ty l ↔ (c, ty, h) ∈ l.
Proof.
  unfold handlersFor. rewrite list_elem_of_omap. split.
  - intros ([[t ty'] h'] & Hin & Hf).
    destruct (bool_decide (t = c ∧ ty' = ty)) eqn:Hb; [|done].
    injection Hf as <-. by apply bool_decide_eq_true in Hb as [<- <-].
  - intros Hin. exists (c, ty, h). split; [done|]. by rewrite bool_decide_eq_true_2.
Qed.

Section Page.
Context (d : list element).

Lemma pageInv_runListener h c t w :
  (∃ mn tg, userHandler mn tg h) → pageInv d w → pageInv d (runListener proto h c t w).
Proof.
  intros (mn & tg & Hh) [Hl Hd]. split.
  - rewrite <- Hl. unfold runListener.
    pose proof (HandlerFrames.call_listeners proto mn tg h c t Hh w) as H.
    unfold sameOn in H. by destruct (call proto h c t w).
  - etrans; [exact Hd|].
    pose proof (HandlerFrames.call_edits proto mn tg h c t Hh w) as H.
    unfold docRel in H. unfold runListener. by destruct (call proto h c t w).
Qed.

Lemma pageInv_listeners hs c t w :
  (∀ h, h ∈ hs → ∃ mn tg, userHandler mn tg h) → pageInv d w →
  pageInv d (foldl (fun w h => runListener proto h c t w) w hs).
Proof.
  revert w. induction hs as [|h hs IH]; intros w Hhs HI; [done|]. simpl.
  apply IH; [intros; apply Hhs; by right|].
  apply pageInv_runListener; [apply Hhs; by left | done].
Qed.

Lemma pageInv_runListenersAt ty t w c :
  ty ≠ DOMContentLoaded → pageInv d w → pageInv d (runListenersAt proto ty t w c).
Proof.
  intros Hty HI. unfold runListenersAt. apply pageInv_listeners; [|done].
  intros h. rewrite listenersFor_handlersFor, handlersFor_elem.
  destruct HI as [-> _]. intros Hin. by eapply registeredOn_user.
Qed.

Lemma pageInv_path ty t w (path : list evtarget) :
  ty ≠ DOMContentLoaded → pageInv d w → pageInv d (foldl (runListenersAt proto ty t) w path).
Proof.
  intros Hty. revert w. induction path as [|c path IH]; intros w HI; [done|].
  simpl. apply IH. by apply pageInv_runListenersAt.
Qed.

Lemma pageInv_dispatch ty t w :
  ty ≠ DOMContentLoaded → pageInv d w → pageInv d (dispatch proto ty t w).
Proof. intros Hty HI. unfold dispatch. by apply pageInv_path. Qed.

Lemma pageInv_step w i : pageInv d w → pageInv d (step proto w i).
Proof.
  intros HI. destruct i as [t|y|f|f|f text|dt]; simpl.
  - by apply pageInv_dispatch.
  - by apply pageInv_dispatch.
  - by apply pageInv_dispatch.
  - by apply pageInv_dispatch.
  - destruct HI as [Hl Hd]. split; [done|]. etrans; [exact Hd|]. simpl.
    apply Forall2_alter_r; [apply _|]. intros x.
    destruct (value x) eqn:Hv; [|done]. split; [|done].
    unfold skeleton. simpl. by rewrite Hv.
  - case_bool_decide; [|done]. rewrite TimerFacts.advanceTo_fire.
    destruct (fire_static (filter (λ '(at_, _), at_ <= now w + dt) (timers w))
                (with_timers (filter (λ '(at_, _), ¬ at_ <= now w + dt) (timers w)) w))
      as [Hl Hd].
    destruct HI as [Hl0 Hd0]. split; [simpl; by rewrite Hl|].
    etrans; [exact Hd0|]. simpl. eapply Forall2_impl; [exact Hd|].
    intros e e'. apply editedWithin_mono. unfold dynamicTokens. set_solver.
Qed.

Lemma pageInv_run w inputs : pageInv d w → pageInv d (run proto w inputs).
Proof.
  revert w. induction inputs as [|i inputs IH]; intros w HI; [done|].
  simpl. apply IH. by apply pageInv_step.
Qed.

Lemma pageInv_loaded : pageInv d (loaded proto d).
Proof. rewrite loaded_any. by split. Qed.

(** X14.  On a page whose error and success elements hold text only,
    whatever the user does after load (clicks, scrolls, submissions, blurs,
    typing, waiting), the script never adds or removes a listener and never
    changes the structure of the page: no element is added or removed, and
    each keeps its parent, tag, id, [href], name, default value, form owner,
    whether it is a form control, and every class token other than
    [active], [error] and [show]. *)
Theorem page_structure_is_kept inputs :
  textOnly d = true →
  let w := run proto (loaded proto d) inputs in
  listeners w = registeredOn d ∧
  length (document w) = length d ∧
  ∀ n e, d !! n = Some e →
    ∃ e', document w !! n = Some e' ∧
      parent e' = parent e ∧ localName e' = localName e ∧ idAttr e' = idAttr e ∧
      href e' = href e ∧ name e' = name e ∧ defaultValue e' = defaultValue e ∧
      form e' = form e ∧ (is_Some (value e') ↔ is_Some (value e)) ∧
      ∀ c, c ≠ js "active" → c ≠ js "error" → c ≠ js "show" →
           (c ∈ classList e' ↔ c ∈ classList e).
Proof.
  intros _ w. destruct (pageInv_run _ inputs pageInv_loaded) as [Hl Hd]. fold w in Hl, Hd.
  split; [done|]. split; [symmetry; by eapply Forall2_length|].
  intros n e He. destruct (edited_lookup _ _ _ _ _ Hd He) as (e' & He' & Hs & Hc).
  exists e'. split; [done|].
  apply skeleton_inv in Hs as (? & ? & ? & ? & ? & ? & ? & _ & _ & _ & Hv).
  do 7 (split; [done|]). split; [split; apply Hv|].
  intros c ? ? ?. symmetry. apply Hc. by apply static_not_dynamic.
Qed.

(** *** Blur *)

Lemma handlersFor_nodes n ty h (l : list node) :
  NoDup l →
  handlersFor (OnNode n) ty ((fun l => (OnNode l, ty, h)) <$> l) =
  if decide (n ∈ l) then [h] else [].
Proof.
  induction 1 as [|x l Hx Hnd IH]; [done|].
  rewrite fmap_cons, handlersFor_cons, IH.
  destruct (decide (x = n)) as [->|Hne].
  - rewrite bool_decide_eq_true_2 by done.
    rewrite decide_False by done. rewrite decide_True by (by left). done.
  - rewrite bool_decide_eq_false_2 by (intros [[=] _]; done).
    destruct (decide (n ∈ l)).
    + rewrite decide_True by (by right). done.
    + rewrite decide_False; [done|]. intros [->|?]%elem_of_cons; done.
Qed.

Lemma NoDup_formInputs : NoDup (formInputs d).
Proof.
  unfold formInputs. destruct (elementById _ d); [|constructor].
  apply NoDup_filter, NoDup_nodesWhere.
Qed.

Lemma blur_handlers f :
  handlersFor (OnNode f) Blur (registeredOn d) =
  if decide (f ∈ formInputs d) then [BlurValidate] else [].
Proof.
  unfold registeredOn. rewrite !handlersFor_app.
  rewrite (handlersFor_none _ _ [_; _; _]) by (intros ??? Hin [_ ->]; set_solver).
  rewrite (handlersFor_none _ _ (_ <$> _))
    by (by intros ??? (? & [=] & _)%list_elem_of_fmap [_ ->]).
  rewrite (handlersFor_none _ _ [_]) by (intros ??? Hin [_ ->]; set_solver).
  rewrite (handlersFor_none _ _ (menuListeners d)).
  2:{ intros ??? Hin [_ ->]. unfold menuListeners in Hin. repeat case_match; set_solver. }
  cbn [app].
  assert (Hnone : elementById (js "contactForm") d = None → formInputs d = []).
  { intros H. unfold formInputs. by rewrite H. }
  destruct (elementById (js "contactForm") d) as [fm|].
  - rewrite handlersFor_cons.
    rewrite bool_decide_eq_false_2 by (by intros [_ [=]]). cbn [app].
    by rewrite handlersFor_nodes by apply NoDup_formInputs.
  - rewrite Hnone by done. by rewrite decide_False by apply not_elem_of_nil.
Qed.

Lemma validateField_document f w b :
  document (final (validateField proto f (with_defaultPrevented b w))) =
  document (final (validateField proto f w)).
Proof.
  destruct (document w !! f ≫= value) as [v|] eqn:Hv.
  - destruct (document w !! f) as [e|] eqn:He; [|done]. simpl in Hv.
    rewrite (validateField_run proto w f e v He Hv).
    by rewrite (validateField_run proto (with_defaultPrevented b w) f e v He Hv).
  - by rewrite !validateField_throws.
Qed.

(** X15.  Leaving a field of the loaded page, after any history: if the
    node is a [.form-input] inside [#contactForm] the document becomes what
    [validateField] makes of it, and otherwise nothing changes; the default
    action is not prevented, no timeout, listener or scroll request changes;
    and the console gets a line only when the node is such an input but not
    a form control, the uncaught [TypeError] of [this.value.trim()]. *)
Theorem blur_validates_field inputs f :
  let w := run proto (loaded proto d) inputs in
  let w' := step proto w (UserLeaves f) in
  document w' = (if decide (f ∈ formInputs d)
                 then document (final (validateField proto f w))
                 else document w) ∧
  listeners w' = listeners w ∧ timers w' = timers w ∧
  scrollRequest w' = scrollRequest w ∧ defaultPrevented w' = false ∧
  (console w' = console w ∨
   f ∈ formInputs d ∧ valueAt w f = None ∧ console w' = console w ++ [Uncaught TypeError]).
Proof.
  intros w w'. destruct (pageInv_run _ inputs pageInv_loaded) as [Hl _]. fold w in Hl.
  subst w'. cbn [step]. unfold dispatch. cbn [propagationPath foldl].
  unfold runListenersAt. rewrite listenersFor_handlersFor.
  change (listeners (with_defaultPrevented false w)) with (listeners w).
  rewrite Hl, blur_handlers.
  destruct (decide (f ∈ formInputs d)) as [Hin|Hin]; cbn [foldl].
  2:{ repeat split; try done. by left. }
  unfold runListener, call. rewrite <- (validateField_document f w false).
  destruct (document w !! f ≫= value) as [v|] eqn:Hv.
  - destruct (document w !! f) as [e|] eqn:He; [|done]. simpl in Hv.
    unfold mbind, M_bind, bind.
    rewrite (validateField_run proto (with_defaultPrevented false w) f e v He Hv).
    simpl. repeat split; try done. by left.
  - unfold mbind, M_bind, bind.
    rewrite validateField_throws by done. simpl. repeat split; try done. by right.
Qed.

End Page.
End WithHost.

(** X14 on the sample page, after a click on the button, a submission with
    an empty name, a valid one and a wait. *)
Lemma page_structure_is_kept_witness :
  let w := run Sample.bare (loaded Sample.bare Sample.fullPage)
             [UserClicks 1; UserTypes 6 (js ""); UserSubmits 5;
              UserTypes 6 (js "Jane"); UserSubmits 5; TimePasses 6000] in
  listeners w = registeredOn Sample.fullPage ∧ length (document w) = 13%nat.
Proof.
  intros w.
  destruct (page_structure_is_kept Sample.bare Sample.fullPage
              [UserClicks 1; UserTypes 6 (js ""); UserSubmits 5;
               UserTypes 6 (js "Jane"); UserSubmits 5; TimePasses 6000])
    as (Hl & Hn & _); [by vm_compute|].
  split; [exact Hl | exact Hn].
Defined.

Lemma fire_annotates due w :
  Forall2 (annotatedWithin {[js "show"]}) (document w) (document (fire due w)) ∧
  (∀ n, textAt (fire due w) n = textAt w n) ∧
  timers (fire due w) = timers w ∧ scrollRequest (fire due w) = scrollRequest w ∧
  pageYOffset (fire due w) = pageYOffset w.
Proof.
  revert w. induction due as [|[t [s]] due IH]; intros w.
  - repeat split; done.
  - rewrite TimerFacts.fire_cons.
    destruct (IH (final (runCallback (HideSuccess s) (with_now t w))))
      as (Hd & Ht & Hq & Hs & Hy).
    split; [|split; [|by rewrite Hq, Hs, Hy]].
    + etrans; [|exact Hd]. simpl.
      apply Forall2_alter_r; [apply _|]. intros e. apply edit_remove. set_solver.
    + intros n. rewrite Ht. unfold textAt. simpl. rewrite list_lookup_alter.
      case_decide; [|done]. subst. by destruct (document w !! n).
Qed.

Lemma fire_console due w : console (fire due w) = console w.
Proof.
  revert w. induction due as [|[t [s]] due IH]; intros w; [done|].
  rewrite TimerFacts.fire_cons, IH. done.
Qed.

Section WithHost.
Context (proto : jsstring → option jsstring).

(** X16.  The passing of time only ever hides: the callbacks of line 269
    remove [show] tokens and do nothing else.  After any wait no element has
    gained the [show] token, every text (the success message included),
    every value and every other token is as before, and the listeners, the
    console and the scroll state are unchanged. *)
Theorem time_only_hides w dt :
  let w' := step proto w (TimePasses dt) in
  docRel (annotatedWithin {[js "show"]}) w w' ∧
  (∀ n, textAt w' n = textAt w n) ∧
  (∀ n, hasClassAt (js "show") w' n = true → hasClassAt (js "show") w n = true) ∧
  listeners w' = listeners w ∧ console w' = console w ∧
  scrollRequest w' = scrollRequest w ∧ pageYOffset w' = pageYOffset w.
Proof.
  intros w'. subst w'. cbn [step]. case_bool_decide as Hdt.
  2:{ by repeat split. }
  rewrite TimerFacts.advanceTo_fire.
  set (due := filter _ (timers w)). set (w0 := with_timers _ w).
  destruct (fire_annotates due w0) as (Hd & Ht & Hq & Hs & Hy).
  destruct (fire_static due w0) as [Hl _].
  split; [exact Hd|]. split; [exact Ht|]. split.
  { intros n Hn. destruct (hasClassAt (js "show") w n) eqn:Hw; [done|].
    change (hasClassAt (js "show") (fire due w0) n = true) in Hn.
    by rewrite (TimerFacts.fire_never_shows due w0 n Hw) in Hn. }
  split; [exact Hl|]. split; [apply (fire_console due w0)|].
  split; [exact Hs|exact Hy].
Qed.

Section Page.
Context (d : list element).

Lemma scroll_handlers c :
  handlersFor c Scroll (registeredOn d) =
  if decide (c = OnWindow) then [UpdateActiveMenuItem] else [].
Proof.
  unfold registeredOn. rewrite !handlersFor_app.
  rewrite (handlersFor_none _ _ [_; _; _]) by (intros ??? Hin [_ ->]; set_solver).
  rewrite (handlersFor_none _ _ (_ <$> _))
    by (by intros ??? (? & [=] & _)%list_elem_of_fmap [_ ->]).
  rewrite (handlersFor_none _ _ (menuListeners d)).
  2:{ intros ??? Hin [_ ->]. unfold menuListeners in Hin. repeat case_match; set_solver. }
  rewrite (handlersFor_none _ _ (match _ with Some _ => _ | None => _ end)).
  2:{ intros ??? Hin [_ ->]. destruct (elementById _ d); [|by apply elem_of_nil in Hin].
      apply elem_of_cons in Hin as [[=]|Hin].
      by apply list_elem_of_fmap in Hin as (? & [=] & _). }
  rewrite handlersFor_cons. cbn [app handlersFor omap]. rewrite app_nil_r.
  destruct (decide (c = OnWindow)) as [->|Hc].
  - by rewrite bool_decide_eq_true_2.
  - rewrite bool_decide_eq_false_2; [done|]. by intros [<- _].
Qed.


End Page.

End WithHost.

End PageFacts.

(** ** Pages on which no listener throws *)

Module SafetyFacts.
Import DomFacts Frames FormFacts NavFacts SubmitFacts MenuFacts LinkFacts PageFacts.

Lemma isControl_Some d n : isControl d n = true → ∃ k e v, n = Some k ∧ d !! k = Some e ∧ value e = Some v.
Proof.
  destruct n as [k|]; [|done]. simpl. intros [v Hv]%bool_decide_eq_true.
  destruct (d !! k) as [e|] eqn:He; [|done]. simpl in Hv. by exists k, e, v.
Qed.

Section WithHost.
Context (proto : jsstring → option jsstring).

(** No listener of the script writes to the console. *)
Lemma call_console mn tg h this target :
  userHandler mn tg h → stable (sameOn console) (call proto h this target).
Proof.
  destruct 1; unfold call; try destruct this; try destruct target;
    unfold navLinkClick, smoothScrollTo, updateActiveMenuItem, toggleClick, outsideClick,
      handleFormSubmit, validateField, clearErrors, showSuccessMessage, showError,
      form_reset, classList_contains;
    frame; try (apply stable_deref; apply _).
  all: try (intros w0; unfold sameOn, getElement; simpl; by destruct (document w0 !! _)).
Qed.

Lemma showSuccessMessage_returns w : ∃ w', showSuccessMessage w = Ret () w'.
Proof.
  destruct (elementById (js "formSuccess") (document w)) as [s|] eqn:Hs.
  - rewrite (showSuccessMessage_run w s Hs). eauto.
  - unfold showSuccessMessage, getElementById, getDocument.
    unfold mbind, M_bind, bind. with_strategy opaque [js] simpl. rewrite Hs. eauto.
Qed.

Lemma navLinkClick_returns w l e mn tg :
  document w !! l = Some e → is_Some (href e) → menuFound mn tg w →
  ∃ w', navLinkClick l w = Ret () w'.
Proof.
  intros He [h Hh] Hfound.
  destruct (JsString.startsWith h (js "#")) eqn:Hs.
  - apply startsWith_hash in Hs as [i ->].
    destruct (elementById i (document w)) as [sec|] eqn:Hsec.
    + destruct (elementById_Some _ _ _ Hsec) as (es & Hes & _).
      pose proof Hfound as [[em Hem] _]%menuFound_valid.
      rewrite (navLinkClick_run w l e i sec es mn tg em) by done. eauto.
    + rewrite (navLinkClick_dangling w l e i) by done. eauto.
  - rewrite (navLinkClick_external w l e h) by done. eauto.
Qed.

Lemma outsideClick_returns w tg mn t :
  is_Some (document w !! mn) → ∃ w', outsideClick tg mn t w = Ret () w'.
Proof.
  intros [em Hem]. unfold outsideClick, getDocument, classList_contains, getElement.
  unfold mbind at 1, M_bind, bind.
  destruct (negb _); [|by eexists].
  unfold mbind, M_bind, bind. rewrite Hem.
  destruct (hasClass (js "active") em); by eexists.
Qed.

Lemma handleFormSubmit_returns w target nm em ms fn fe fm vn ve vm :
  elementById (js "name") (document w) = Some nm →
  elementById (js "email") (document w) = Some em →
  elementById (js "message") (document w) = Some ms →
  document w !! nm = Some fn → document w !! em = Some fe → document w !! ms = Some fm →
  value fn = Some vn → value fe = Some ve → value fm = Some vm →
  hasResetMethod (document w) target = true →
  ∃ w', handleFormSubmit proto target w = Ret () w'.
Proof.
  intros Hnm Hem Hms Hfn Hfe Hfm Hvn Hve Hvm Hres.
  rewrite (handleFormSubmit_run proto w target nm em ms fn fe fm vn ve vm) by done.
  destruct (bool_decide _); [|by eexists].
  unfold mbind, M_bind, bind.
  match goal with |- context [showSuccessMessage ?x] =>
    pose proof (HandlerFrames.showSuccessMessage_annotates x) as Hsh;
    destruct (showSuccessMessage_returns x) as [w1 Hw1] end.
  rewrite Hw1 in *. unfold docRel in Hsh. cbn [final document with_document] in Hsh.
  rewrite form_reset_run, (annotated_hasResetMethod _ _ _ target Hsh).
  rewrite (annotated_hasResetMethod _ _ _ target (submitted_annotates proto w nm em ms)).
  rewrite Hres. by eexists.
Qed.

Section Page.
Context (d : list element).
Hypothesis Hready : scriptReady d = true.

Lemma ready_links l e :
  d !! l = Some e → js "nav-link" ∈ classList e → is_Some (href e).
Proof.
  intros He Hl. unfold scriptReady in Hready.
  apply andb_prop in Hready as [[[H _]%andb_prop _]%andb_prop _].
  rewrite forallb_forall in H. specialize (H e).
  rewrite <- list_elem_of_In in H. specialize (H (list_elem_of_lookup_2 _ _ _ He)).
  unfold hasClass in H. rewrite (bool_decide_eq_true_2 _ Hl) in H. simpl in H.
  by apply bool_decide_eq_true in H.
Qed.

Lemma ready_menu :
  ∃ mn tg, head (nodesWhere (selects (SelClass (js "nav-menu"))) d) = Some mn ∧
           head (nodesWhere (selects (SelClass (js "nav-toggle"))) d) = Some tg.
Proof.
  unfold scriptReady in Hready.
  apply andb_prop in Hready as [[[_ H1]%andb_prop H2]%andb_prop _].
  apply bool_decide_eq_true in H1 as [mn Hmn]. apply bool_decide_eq_true in H2 as [tg Htg].
  by exists mn, tg.
Qed.

Lemma ready_form fm :
  elementById (js "contactForm") d = Some fm →
  isControl d (elementById (js "name") d) = true ∧
  isControl d (elementById (js "email") d) = true ∧
  isControl d (elementById (js "message") d) = true ∧
  ∀ i, i ∈ formInputs d → isControl d (Some i) = true.
Proof.
  intros Hfm. unfold scriptReady in Hready.
  apply andb_prop in Hready as [_ H]. rewrite Hfm in H.
  apply andb_prop in H as [[[H1 H2]%andb_prop H3]%andb_prop H4].
  repeat (split; [done|]). intros i Hi. rewrite forallb_forall in H4.
  apply H4. by apply list_elem_of_In.
Qed.

(** Where each listener of the loaded page sits. *)
Lemma registeredOn_inv t ty h :
  (t, ty, h) ∈ registeredOn d → ty ≠ DOMContentLoaded →
  (h = NavLinkClick ∧ ∃ l, t = OnNode l ∧ l ∈ navLinksOf d) ∨
  h = UpdateActiveMenuItem ∨
  (∃ tg mn, head (nodesWhere (selects (SelClass (js "nav-toggle"))) d) = Some tg ∧
            head (nodesWhere (selects (SelClass (js "nav-menu"))) d) = Some mn ∧
            (h = ToggleClick tg mn ∨ h = OutsideClick tg mn ∧ ty = Click)) ∨
  (h = HandleFormSubmit ∧ ty = Submit ∧ is_Some (elementById (js "contactForm") d)) ∨
  (h = BlurValidate ∧ ∃ i, t = OnNode i ∧ i ∈ formInputs d).
Proof.
  unfold registeredOn, menuListeners. rewrite !elem_of_app.
  intros [Hin|[Hin|[Hin|[Hin|Hin]]]] Hty.
  - repeat (apply elem_of_cons in Hin as [[= -> -> ->]|Hin]; [done|]).
    by apply elem_of_nil in Hin.
  - apply list_elem_of_fmap in Hin as (l & [= -> -> ->] & Hl). left. eauto.
  - apply list_elem_of_singleton in Hin as [= -> -> ->]. auto.
  - destruct (head _) as [tg|] eqn:Htg; [|by apply elem_of_nil in Hin].
    destruct (head (nodesWhere (selects (SelClass (js "nav-menu"))) d)) as [mn|] eqn:Hmn;
      [|by apply elem_of_nil in Hin].
    right. right. left. exists tg, mn. split; [done|]. split; [done|].
    apply elem_of_cons in Hin as [[= -> -> ->]|Hin]; [by left|].
    apply list_elem_of_singleton in Hin as [= -> -> ->]. by right.
  - destruct (elementById _ d) as [fm|] eqn:Hfm; [|by apply elem_of_nil in Hin].
    apply elem_of_cons in Hin as [[= -> -> ->]|Hin].
    + right. right. right. left. eauto.
    + apply list_elem_of_fmap in Hin as (i & [= -> -> ->] & Hi).
      right. right. right. right. eauto.
Qed.

Lemma pageInv_control w k :
  pageInv d w → isControl d k = true →
  ∃ n e v, k = Some n ∧ document w !! n = Some e ∧ value e = Some v.
Proof.
  intros [_ Hd] (n & e & v & -> & He & Hv)%isControl_Some.
  destruct (edited_lookup _ _ _ _ _ Hd He) as (e' & He' & Hs & _).
  apply skeleton_inv in Hs as (_ & _ & _ & _ & _ & _ & _ & _ & _ & _ & Hval).
  destruct (proj1 Hval (mk_is_Some _ _ Hv)) as [v' Hv']. by exists n, e', v'.
Qed.

(** On a ready page every listener returns. *)
Lemma call_returns w c ty h tgt :
  pageInv d w → (c, ty, h) ∈ registeredOn d → ty ≠ DOMContentLoaded →
  (ty = Scroll ∨ ∃ n, tgt = OnNode n) →
  (ty = Submit → ∃ n, tgt = OnNode n ∧ hasResetMethod d n = true) →
  ∃ w', call proto h c tgt w = Ret () w'.
Proof.
  intros HI Hin Hty Htgt Hsub. pose proof HI as [_ Hd].
  destruct ready_menu as (mn & tg & Hmn & Htg).
  assert (Hfound : menuFound mn tg w).
  { split; (rewrite (edited_query dynamicTokens _ d); [done| |done]);
      by apply static_not_dynamic. }
  apply registeredOn_inv in Hin; [|done].
  destruct Hin as
    [(-> & l & -> & Hl)|[->|[(tg' & mn' & Htg' & Hmn' & Hh)|[(-> & -> & [fm Hfm])|(-> & i & -> & Hi)]]]];
    unfold call.
  - apply elem_of_navLinksOf in Hl as (e & He & Hc).
    destruct (edited_lookup _ _ _ _ _ Hd He) as (e' & He' & Hs & _).
    apply skeleton_inv in Hs as (_ & _ & _ & Hh & _).
    apply (navLinkClick_returns w l e' mn tg); [done| |done].
    rewrite <- Hh. by eapply ready_links.
  - rewrite updateActiveMenuItem_run. eauto.
  - simplify_eq. destruct Hh as [->|[-> ->]].
    + by eexists.
    + destruct Htgt as [[=]|[n ->]]. apply outsideClick_returns.
      by apply menuFound_valid in Hfound as [? _].
  - destruct (Hsub eq_refl) as (n & -> & Hres).
    destruct (ready_form fm Hfm) as (H1 & H2 & H3 & _).
    destruct (pageInv_control w _ HI H1) as (nm & fn & vn & Hnm & Hfn & Hvn).
    destruct (pageInv_control w _ HI H2) as (em & fe & ve & Hem & Hfe & Hve).
    destruct (pageInv_control w _ HI H3) as (ms & fm' & vm & Hms & Hfm' & Hvm).
    apply (handleFormSubmit_returns w n nm em ms fn fe fm' vn ve vm); try done;
      try by rewrite (edited_elementById dynamicTokens _ d).
    rewrite <- Hres. symmetry. apply hasResetMethod_skeleton.
    eapply Forall2_impl; [exact Hd|]. by intros e e' [? _].
  - assert (∃ fm, elementById (js "contactForm") d = Some fm) as [fm Hfm].
    { unfold formInputs in Hi. destruct (elementById _ d); [eauto|by apply elem_of_nil in Hi]. }
    destruct (ready_form fm Hfm) as (_ & _ & _ & H4).
    destruct (pageInv_control w _ HI (H4 i Hi)) as (? & e & v & [= <-] & He & Hv).
    unfold mbind, M_bind, bind. rewrite (validateField_run proto w i e v He Hv). eauto.
Qed.

Lemma silent_runListener w c ty h tgt :
  silentPage d w → (c, ty, h) ∈ registeredOn d → ty ≠ DOMContentLoaded →
  (ty = Scroll ∨ ∃ n, tgt = OnNode n) →
  (ty = Submit → ∃ n, tgt = OnNode n ∧ hasResetMethod d n = true) →
  silentPage d (runListener proto h c tgt w).
Proof.
  intros [HI Hc] Hin Hty Htgt Hsub.
  destruct (registeredOn_user d c ty h Hin Hty) as (mn & tg & Hu).
  split; [apply pageInv_runListener; eauto|].
  destruct (call_returns w c ty h tgt HI Hin Hty Htgt Hsub) as [w' Hw'].
  pose proof (call_console mn tg h c tgt Hu w) as Hcon.
  unfold runListener. rewrite Hw' in *. unfold sameOn in Hcon. simpl in Hcon. congruence.
Qed.

Lemma silent_listeners hs w c ty tgt :
  (∀ h, h ∈ hs → (c, ty, h) ∈ registeredOn d) → ty ≠ DOMContentLoaded →
  (ty = Scroll ∨ ∃ n, tgt = OnNode n) →
  (ty = Submit → ∃ n, tgt = OnNode n ∧ hasResetMethod d n = true) →
  silentPage d w →
  silentPage d (foldl (fun w h => runListener proto h c tgt w) w hs).
Proof.
  intros Hhs Hty Htgt Hsub. revert w. induction hs as [|h hs IH]; intros w HQ; [done|].
  simpl. apply IH; [intros; apply Hhs; by right|].
  eapply silent_runListener; eauto. apply Hhs. by left.
Qed.

Lemma silent_dispatch w ty tgt :
  ty ≠ DOMContentLoaded → (ty = Scroll ∨ ∃ n, tgt = OnNode n) →
  (ty = Submit → ∃ n, tgt = OnNode n ∧ hasResetMethod d n = true) →
  silentPage d w → silentPage d (dispatch proto ty tgt w).
Proof.
  intros Hty Htgt Hsub HQ. unfold dispatch.
  assert (HQ0 : silentPage d (with_defaultPrevented false w)) by (destruct HQ as [[? ?] ?]; by repeat split).
  generalize (propagationPath (document w) ty tgt). intros path.
  revert HQ0. generalize (with_defaultPrevented false w). clear HQ.
  induction path as [|c path IH]; intros w0 HQ0; [done|].
  simpl. apply IH. unfold runListenersAt. apply (silent_listeners _ _ _ ty); try done.
  intros h. rewrite listenersFor_handlersFor, handlersFor_elem.
  destruct HQ0 as [[-> _] _]. done.
Qed.

Lemma silent_step w i :
  submitsForm d i = true → silentPage d w → silentPage d (step proto w i).
Proof.
  intros Hi HQ. destruct i as [t|y|f|f|f text|dt]; cbn [step].
  - apply silent_dispatch; [done|right; eauto|done|done].
  - apply silent_dispatch; [done|by left|done|]. destruct HQ as [[? ?] ?]. by repeat split.
  - apply silent_dispatch; [done|right; eauto| |done]. intros _. by exists f.
  - apply silent_dispatch; [done|right; eauto|done|done].
  - split; [apply (pageInv_step proto d w (UserTypes f text)), HQ | apply HQ].
  - split; [apply (pageInv_step proto d w (TimePasses dt)), HQ |].
    case_bool_decide; [|apply HQ]. rewrite TimerFacts.advanceTo_fire. simpl.
    rewrite fire_console. apply HQ.
Qed.

(** X18.  On a page that is ready for the script (every [.nav-link] has
    an [href]; the menu panel and the toggle button exist; and, if
    [#contactForm] exists, [#name], [#email] and [#message] are form controls
    and so is every [.form-input] inside the form) and whose error and
    success elements hold text only, no listener ever throws, as long as
    every submit event has for target a form on which [reset] is the method:
    after any sequence of clicks, scrolls, such submissions, blurs, typing and
    waiting the console holds the line logged at load and nothing else. *)
Theorem no_uncaught_exception inputs :
  textOnly d = true →
  forallb (submitsForm d) inputs = true →
  console (run proto (loaded proto d) inputs) = [Log (js "Website loaded successfully!")].
Proof.
  intros _ Hins.
  assert (HQ : silentPage d (loaded proto d)).
  { split; [apply pageInv_loaded|]. by rewrite loaded_any. }
  revert HQ Hins. generalize (loaded proto d).
  induction inputs as [|i inputs IH]; intros w HQ Hins.
  - apply HQ.
  - simpl in Hins. apply andb_prop in Hins as [Hi Hins].
    simpl. apply IH; [|done]. by apply silent_step.
Qed.

End Page.
End WithHost.

(** X18 on the sample page with navigation bar and contact form. *)
Lemma no_uncaught_exception_witness :
  console (run Sample.bare (loaded Sample.bare Sample.fullPage)
             [UserClicks 3; UserScrolls 100; UserLeaves 8; UserTypes 8 (js "nobody");
              UserSubmits 5; TimePasses 6000; UserClicks 1; UserClicks 12]) =
  [Log (js "Website loaded successfully!")].
Proof.
  apply (no_uncaught_exception Sample.bare Sample.fullPage); by vm_compute.
Defined.

End SafetyFacts.

(** ** Where timeouts come from *)

Module TimeoutFacts.
Import DomFacts Frames FormFacts NavFacts SubmitFacts MenuFacts PageFacts SafetyFacts.
Section WithHost.
Context (proto : jsstring → option jsstring).

(** No listener but the submit handler queues a timeout. *)
Lemma call_timers mn tg h this target :
  userHandler mn tg h → h ≠ HandleFormSubmit →
  stable (sameOn timers) (call proto h this target).
Proof.
  destruct 1; intros Hh; try done; unfold call; try destruct this; try destruct target;
    unfold navLinkClick, smoothScrollTo, updateActiveMenuItem, toggleClick, outsideClick,
      validateField, showError, classList_contains;
    frame; try (apply stable_deref; apply _).
  all: try (intros w0; unfold sameOn, getElement; simpl; by destruct (document w0 !! _)).
Qed.

Section Page.
Context (d : list element).

Lemma timers_listeners hs w c ty tgt :
  (∀ h, h ∈ hs → (c, ty, h) ∈ registeredOn d) → ty ≠ DOMContentLoaded → ty ≠ Submit →
  pageInv d w →
  let w' := foldl (fun w h => runListener proto h c tgt w) w hs in
  pageInv d w' ∧ timers w' = timers w.
Proof.
  intros Hhs Hty Hsub. revert w. induction hs as [|h hs IH]; intros w HI; [done|].
  cbn [foldl].
  assert (Hin : (c, ty, h) ∈ registeredOn d) by (apply Hhs; by left).
  destruct (registeredOn_user d c ty h Hin Hty) as (mn & tg & Hu).
  assert (Hh : h ≠ HandleFormSubmit).
  { intros ->. apply registeredOn_inv in Hin; [|done].
    destruct Hin as [[[=] _]|[[=]|[(? & ? & _ & _ & [[=]|[[=] _]])|[(_ & -> & _)|[[=] _]]]]]. done. }
  assert (HI1 : pageInv d (runListener proto h c tgt w)) by (apply pageInv_runListener; eauto).
  destruct (IH (fun h' Hh' => Hhs h' ltac:(by right)) _ HI1) as [HI2 Ht].
  split; [done|]. rewrite Ht.
  pose proof (call_timers mn tg h c tgt Hu Hh w) as Hc. unfold sameOn in Hc.
  unfold runListener. by destruct (call proto h c tgt w).
Qed.

Lemma timers_dispatch w ty tgt :
  ty ≠ DOMContentLoaded → ty ≠ Submit → pageInv d w →
  timers (dispatch proto ty tgt w) = timers w.
Proof.
  intros Hty Hsub HI. unfold dispatch.
  assert (HI0 : pageInv d (with_defaultPrevented false w)) by (destruct HI; by split).
  change (timers w) with (timers (with_defaultPrevented false w)).
  generalize (propagationPath (document w) ty tgt). intros path.
  revert HI0. generalize (with_defaultPrevented false w). clear HI.
  induction path as [|c path IH]; intros w0 HI0; [done|].
  cbn [foldl].
  assert (H1 : pageInv d (runListenersAt proto ty tgt w0 c) ∧
               timers (runListenersAt proto ty tgt w0 c) = timers w0).
  { unfold runListenersAt. apply (timers_listeners _ _ _ ty); try done.
    intros h. rewrite listenersFor_handlersFor, handlersFor_elem.
    destruct HI0 as [-> _]. done. }
  destruct H1 as [H1 H2]. rewrite IH by done. exact H2.
Qed.

(** X20.  Timeouts are queued by submissions only.  On the loaded page,
    after any history, an input that is not a submission adds no timeout
    and reorders none: the queue afterwards is a sublist of the queue
    before (the same queue after a click, a scroll, a blur or typing; the
    queue without the timeouts that were due after a wait). *)
Theorem only_submissions_queue_timeouts inputs i :
  (∀ f, i ≠ UserSubmits f) →
  let w := run proto (loaded proto d) inputs in
  sublist (timers (step proto w i)) (timers w).
Proof.
  intros Hi w. pose proof (pageInv_run proto d _ inputs (pageInv_loaded proto d)) as HI.
  fold w in HI. destruct i as [t|y|f|f|f text|dt]; cbn [step].
  - by rewrite (timers_dispatch w Click) by done.
  - rewrite (timers_dispatch (with_pageYOffset y w) Scroll); [done..|]. destruct HI; by split.
  - by destruct (Hi f).
  - by rewrite (timers_dispatch w Blur) by done.
  - done.
  - case_bool_decide; [|done]. rewrite TimerFacts.advanceTo_fire.
    destruct (fire_annotates (filter (λ '(at_, _), at_ <= now w + dt) (timers w))
                (with_timers (filter (λ '(at_, _), ¬ at_ <= now w + dt) (timers w)) w))
      as (_ & _ & Hq & _).
    cbn [timers with_now]. rewrite Hq. cbn [timers with_timers].
    apply sublist_filter.
Qed.

End Page.
End WithHost.

(** X20 on the sample page after a valid submission: the one hide timeout
    stays alone in the queue through a click, and a wait only removes it. *)
Lemma only_submissions_queue_timeouts_witness :
  let w := run Sample.bare (loaded Sample.bare Sample.fullPage) [UserSubmits 5] in
  timers w = [(5000, HideSuccess 12)] ∧
  sublist (timers (step Sample.bare w (UserClicks 1))) (timers w) ∧
  sublist (timers (step Sample.bare w (TimePasses 6000))) (timers w).
Proof.
  intros w. split; [by vm_compute|]. split.
  - by apply (only_submissions_queue_timeouts Sample.bare Sample.fullPage [UserSubmits 5]
             (UserClicks 1)).
  - by apply (only_submissions_queue_timeouts Sample.bare Sample.fullPage [UserSubmits 5]
             (TimePasses 6000)).
Defined.

End TimeoutFacts.

(** ** Submit events on the loaded page *)

Module SubmitDispatch.
Import DomFacts Frames FormFacts NavFacts SubmitFacts MenuFacts PageFacts SubmissionFacts.
Section WithHost.
Context (proto : jsstring → option jsstring).

(** The submit handler overwrites the [defaultPrevented] flag it finds. *)
Lemma handleFormSubmit_entering b f w :
  handleFormSubmit proto f (with_defaultPrevented b w) = handleFormSubmit proto f w.
Proof. done. Qed.

Section Page.
Context (d : list element).

Lemma submit_handlers c :
  handlersFor c Submit (registeredOn d) =
  match elementById (js "contactForm") d with
  | Some form => if decide (c = OnNode form) then [HandleFormSubmit] else []
  | None => []
  end.
Proof.
  unfold registeredOn. rewrite !handlersFor_app.
  rewrite (handlersFor_none _ _ [_; _; _]) by (intros ??? Hin [_ ->]; set_solver).
  rewrite (handlersFor_none _ _ (_ <$> _))
    by (by intros ??? (? & [=] & _)%list_elem_of_fmap [_ ->]).
  rewrite (handlersFor_none _ _ [_]) by (intros ??? Hin [_ ->]; set_solver).
  rewrite (handlersFor_none _ _ (menuListeners d)).
  2:{ intros ??? Hin [_ ->]. unfold menuListeners in Hin. repeat case_match; set_solver. }
  cbn [app]. destruct (elementById (js "contactForm") d) as [form|]; [|done].
  rewrite handlersFor_cons.
  rewrite (handlersFor_none _ _ (_ <$> _))
    by (by intros ??? (? & [=] & _)%list_elem_of_fmap [_ ->]).
  rewrite app_nil_r. destruct (decide (c = OnNode form)) as [->|Hc].
  - by rewrite bool_decide_eq_true_2.
  - rewrite bool_decide_eq_false_2; [done|]. by intros [<- _].
Qed.

Lemma submit_at w c f :
  pageInv d w →
  runListenersAt proto Submit (OnNode f) w c =
  match elementById (js "contactForm") d with
  | Some form => if decide (c = OnNode form)
                 then runListener proto HandleFormSubmit c (OnNode f) w else w
  | None => w
  end.
Proof.
  intros [Hl _]. unfold runListenersAt. rewrite listenersFor_handlersFor, Hl, submit_handlers.
  destruct (elementById _ d); [|done]. by case_decide.
Qed.

Lemma submit_nodes A w f form :
  elementById (js "contactForm") d = Some form → pageInv d w → NoDup A →
  foldl (runListenersAt proto Submit (OnNode f)) w (OnNode <$> A) =
  if decide (form ∈ A) then runListener proto HandleFormSubmit (OnNode form) (OnNode f) w
  else w.
Proof.
  intros Hform. revert w. induction A as [|n A IH]; intros w HI Hnd.
  - by rewrite decide_False by apply not_elem_of_nil.
  - apply NoDup_cons in Hnd as [Hn Hnd]. rewrite fmap_cons. cbn [foldl].
    rewrite submit_at, Hform by done.
    destruct (decide (n = form)) as [->|Hne].
    + rewrite decide_True by done. rewrite decide_True by (by left).
      rewrite IH; [by rewrite decide_False| |done].
      apply pageInv_runListener; [|done]. exists 0%nat, 0%nat. constructor.
    + rewrite decide_False by (by intros [=]). rewrite IH by done.
      destruct (decide (form ∈ A)).
      * by rewrite decide_True by (by right).
      * rewrite decide_False; [done|]. by intros [->|?]%elem_of_cons.
Qed.

(** X21.  Submitting on the loaded page, after any history, on markup in
    tree order.  When the target of the submit event is the contact form or
    lies inside it, [handleFormSubmit] runs exactly once: the document and
    the timeouts afterwards are those it leaves, no listener changes, and
    the console gets a line only if it threw.  When the target is elsewhere,
    or the page has no [#contactForm], nothing happens. *)
Theorem submit_step inputs f :
  parentsBefore d = true →
  let w := run proto (loaded proto d) inputs in
  let w' := step proto w (UserSubmits f) in
  match elementById (js "contactForm") d with
  | Some form =>
      if contains d form f
      then document w' = document (final (handleFormSubmit proto f w)) ∧
           timers w' = timers (final (handleFormSubmit proto f w)) ∧
           listeners w' = listeners w ∧
           (console w' = console w ∨ console w' = console w ++ [Uncaught TypeError])
      else w' = with_defaultPrevented false w
  | None => w' = with_defaultPrevented false w
  end.
Proof.
  intros Htree w w'.
  pose proof (pageInv_run proto d _ inputs (pageInv_loaded proto d)) as HI. fold w in HI.
  assert (HI0 : pageInv d (with_defaultPrevented false w)) by (destruct HI; by split).
  subst w'. cbn [step]. unfold dispatch. cbn [propagationPath]. rewrite foldl_app.
  destruct HI as [Hl Hd]. rewrite (edited_ancestors _ _ _ f Hd).
  destruct (elementById (js "contactForm") d) as [form|] eqn:Hform.
  - rewrite (submit_nodes _ _ f form Hform HI0 (ancestors_NoDup d f Htree)).
    unfold contains.
    destruct (decide (form ∈ ancestors d f)) as [Hin|Hin].
    + rewrite bool_decide_eq_true_2 by done.
      set (w1 := runListener proto HandleFormSubmit (OnNode form) (OnNode f)
                   (with_defaultPrevented false w)).
      assert (HI1 : pageInv d w1).
      { apply pageInv_runListener; [|done]. exists 0%nat, 0%nat. constructor. }
      cbn [foldl]. rewrite (submit_at w1 OnDocument f HI1), Hform.
      rewrite decide_False by done.
      rewrite (submit_at w1 OnWindow f HI1), Hform. rewrite decide_False by done.
      subst w1. unfold runListener, call. rewrite handleFormSubmit_entering.
      pose proof (HandlerFrames.call_listeners proto 0%nat 0%nat HandleFormSubmit
                    (OnNode form) (OnNode f) (UserSubmit _ _) w) as Hls.
      pose proof (SafetyFacts.call_console proto 0%nat 0%nat HandleFormSubmit
                    (OnNode form) (OnNode f) (UserSubmit _ _) w) as Hc.
      unfold sameOn, call in Hls, Hc.
      destruct (handleFormSubmit proto f w) as [[] x|[] x]; simpl in *.
      * repeat split; try done. by left.
      * repeat split; try done. right. simpl in Hc. by rewrite Hc.
    + rewrite bool_decide_eq_false_2 by done. cbn [foldl].
      rewrite (submit_at _ OnDocument f HI0), Hform. rewrite decide_False by done.
      rewrite (submit_at _ OnWindow f HI0), Hform. by rewrite decide_False by done.
  - assert (Hnone : ∀ A x, pageInv d x →
              foldl (runListenersAt proto Submit (OnNode f)) x A = x).
    { intros A. induction A as [|c A IH]; intros x Hx; [done|]. cbn [foldl].
      rewrite (submit_at x c f Hx), Hform. by apply IH. }
    rewrite (Hnone (OnNode <$> ancestors d f) _ HI0). apply Hnone, HI0.
Qed.

End Page.
End WithHost.

(** X21 on the sample page: a submit event on the form runs the handler; one
    on the section outside the form does nothing. *)
Lemma submit_step_witness :
  let w := loaded Sample.bare Sample.fullPage in
  timers (step Sample.bare w (UserSubmits 5)) =
    timers (final (handleFormSubmit Sample.bare 5 w)) ∧
  step Sample.bare w (UserSubmits 4) = with_defaultPrevented false w.
Proof.
  intros w. split.
  - pose proof (submit_step Sample.bare Sample.fullPage [] 5 eq_refl) as H.
    cbv zeta in H.
    replace (elementById (js "contactForm") Sample.fullPage) with (Some 5%nat) in H
      by (by vm_compute).
    replace (contains Sample.fullPage 5 5) with true in H by (by vm_compute).
    destruct H as (_ & H & _). exact H.
  - pose proof (submit_step Sample.bare Sample.fullPage [] 4 eq_refl) as H.
    cbv zeta in H.
    replace (elementById (js "contactForm") Sample.fullPage) with (Some 5%nat) in H
      by (by vm_compute).
    replace (contains Sample.fullPage 5 4) with false in H by (by vm_compute).
    exact H.
Defined.

End SubmitDispatch.
